(** * GitCracken patcher: extraction with fallback and patch application

    A shallow embedding of [src/patcher.ts].  JavaScript strings and
    Buffers are [string]s, the file system is a tree of directories
    without symbolic links, read as on a POSIX system by a process whose
    working directory is the root of the tree, the console is the list of
    lines written with [console.warn], and a function that can throw
    returns a [Result] next to the world it left behind.

    The packages the patcher calls ([asar], [diff], [natsort], the
    regular expression engine) are not part of the repository: the
    functions that use them take them as arguments ([Codec], [Host]), and
    the theorems hold for every behaviour of them.  Reference versions
    ([Reference], [Node]) run the samples. *)

From Stdlib Require Import String Ascii List Bool Arith Lia.
Import ListNotations.
Open Scope string_scope.

(** ** JavaScript strings and error objects *)

Module Js.

(** [s.startsWith(p)]. *)
Fixpoint startsWith (p s : string) : bool :=
  match p, s with
  | EmptyString, _ => true
  | String a p', String b s' => Ascii.eqb a b && startsWith p' s'
  | String _ _, EmptyString => false
  end.

(** [s.includes(p)], which is [s.indexOf(p) >= 0]. *)
Fixpoint includes (p s : string) : bool :=
  startsWith p s ||
  match s with
  | EmptyString => false
  | String _ s' => includes p s'
  end.

(** The truth value of a string: only the empty string is falsy. *)
Definition truthy (s : string) : bool :=
  match s with EmptyString => false | String _ _ => true end.

(** [o || d] for an optional string property [o]. *)
Definition orElse (o : option string) (d : option string) : option string :=
  match o with
  | Some s => if truthy s then Some s else d
  | None => d
  end.

(** An error object: [new Error(message)] has neither [code] nor [path];
    the errors of [fs] carry both. *)
Record Error : Type := mkError {
  code : option string;
  path : option string;
  message : string
}.

Definition newError (msg : string) : Error := mkError None None msg.

Definition dquote : string := String (ascii_of_nat 34) EmptyString.

(** The text that goes with the code of a system error. *)
Definition describe (c : string) : string :=
  if String.eqb c "ENOENT" then "no such file or directory"
  else if String.eqb c "ENOTDIR" then "not a directory"
  else if String.eqb c "EEXIST" then "file already exists"
  else if String.eqb c "EISDIR" then "illegal operation on a directory"
  else if String.eqb c "EACCES" then "permission denied"
  else if String.eqb c "EPERM" then "operation not permitted"
  else if String.eqb c "EBUSY" then "resource busy or locked"
  else "unknown error".

Definition quoted (p : string) : string := "'" ++ p ++ "'".

(** The error of the system call [syscall] on the path [p]. *)
Definition sysError (c syscall p : string) : Error :=
  mkError (Some c) (Some p)
    (c ++ ": " ++ describe c ++ ", " ++ syscall ++ " " ++ quoted p).

(** The error of [copyFileSync]: its path is the source. *)
Definition copyError (c src dest : string) : Error :=
  mkError (Some c) (Some src)
    (c ++ ": " ++ describe c ++ ", copyfile " ++ quoted src ++ " -> " ++
     quoted dest).

(** The error of a read that finds a directory: it names no path. *)
Definition readError (c : string) : Error :=
  mkError (Some c) None (c ++ ": " ++ describe c ++ ", read").

(** The TypeError of [path.join] for an argument that is [undefined]. *)
Definition pathTypeError : Error :=
  mkError (Some "ERR_INVALID_ARG_TYPE") None
    ("The " ++ dquote ++ "path" ++ dquote ++
     " argument must be of type string. Received undefined").

(** [err.code === c]. *)
Definition codeIs (e : Error) (c : string) : bool :=
  match code e with Some c' => String.eqb c' c | None => false end.

(** What a call of the archive library hands back where the code has
    the type [any]: a Buffer, [undefined], or something else. *)
Inductive Value : Type :=
| VUndefined
| VBuffer (bytes : string)
| VOther.

End Js.

(** ** Paths *)

Module Path.

(** A character of the class [[\\\/]]. *)
Definition is_sep (c : ascii) : bool :=
  Ascii.eqb c "/"%char || Ascii.eqb c "\"%char.

(** [s.split(/[\\\/]/)]: the pieces between separators, empty ones
    included; never the empty list. *)
Fixpoint split (s : string) : list string :=
  match s with
  | EmptyString => [EmptyString]
  | String c s' =>
      if is_sep c then EmptyString :: split s'
      else match split s' with
           | [] => [String c EmptyString]
           | p :: ps => String c p :: ps
           end
  end.

(** [s.split(/[\\\/]/).filter((p) => p)]. *)
Definition segments (s : string) : list string :=
  filter Js.truthy (split s).

(** [s.replace(/^[\\\/]+/, empty)]: the leading separators go. *)
Fixpoint stripLeading (s : string) : string :=
  match s with
  | EmptyString => EmptyString
  | String c s' => if is_sep c then stripLeading s' else s
  end.

(** No character of the string is a separator. *)
Fixpoint sepFree (s : string) : bool :=
  match s with
  | EmptyString => true
  | String c s' => negb (is_sep c) && sepFree s'
  end.

(** A segment of the split: not empty, and no separator in it. *)
Definition isSegment (s : string) : bool := Js.truthy s && sepFree s.

(** *** The functions of [path], as on a POSIX system

    There the slash is the one separator, and a backslash is a character
    of a name like any other. *)

(** The pieces of a path between slashes, empty ones included. *)
Fixpoint pieces (s : string) : list string :=
  match s with
  | EmptyString => [EmptyString]
  | String c s' =>
      if Ascii.eqb c "/"%char then EmptyString :: pieces s'
      else match pieces s' with
           | [] => [String c EmptyString]
           | p :: ps => String c p :: ps
           end
  end.

(** What [normalizeString] does with one piece, [res] being the pieces
    kept so far: an empty piece and [.] are dropped, [..] takes the last
    piece back unless there is none or it is [..] itself, in which case
    it is kept when the path may climb above its start. *)
Definition enter (allowAboveRoot : bool) (res : list string) (part : string)
  : list string :=
  if String.eqb part EmptyString || String.eqb part "." then res
  else if String.eqb part ".." then
    match res with
    | [] => if allowAboveRoot then [".."] else []
    | _ :: _ =>
        if String.eqb (last res EmptyString) ".."
        then (if allowAboveRoot then res ++ [".."] else res)%list
        else removelast res
    end
  else (res ++ [part])%list.

Definition normalizeString (path : string) (allowAboveRoot : bool) : string :=
  String.concat "/" (fold_left (enter allowAboveRoot) (pieces path) []).

Definition startsWithSlash (p : string) : bool :=
  match p with
  | String c _ => Ascii.eqb c "/"%char
  | EmptyString => false
  end.

Fixpoint endsWithSlash (p : string) : bool :=
  match p with
  | EmptyString => false
  | String c EmptyString => Ascii.eqb c "/"%char
  | String _ p' => endsWithSlash p'
  end.

(** [path.normalize(p)]. *)
Definition normalize (path : string) : string :=
  match path with
  | EmptyString => "."
  | _ =>
      let isAbsolute := startsWithSlash path in
      let trailingSeparator := endsWithSlash path in
      match normalizeString path (negb isAbsolute) with
      | EmptyString =>
          if isAbsolute then "/" else if trailingSeparator then "./" else "."
      | body =>
          (if isAbsolute then "/" else EmptyString) ++ body ++
          (if trailingSeparator then "/" else EmptyString)
      end
  end.

(** [path.join(...args)]: the arguments that are not empty, put together
    with slashes and normalized. *)
Definition joinAll (args : list string) : string :=
  match filter Js.truthy args with
  | [] => "."
  | parts => normalize (String.concat "/" parts)
  end.

(** [path.join(a, b)]. *)
Definition join (a b : string) : string := joinAll [a; b].

(** Some character of the string is not a slash. *)
Fixpoint hasName (s : string) : bool :=
  match s with
  | EmptyString => false
  | String c s' => negb (Ascii.eqb c "/"%char) || hasName s'
  end.

(** The scan of [path.dirname] over all but the first character: what
    stands before the slash in front of the last name, when there is
    such a slash. *)
Fixpoint beforeLastName (s : string) : option string :=
  match s with
  | EmptyString => None
  | String c s' =>
      match beforeLastName s' with
      | Some r => Some (String c r)
      | None =>
          if Ascii.eqb c "/"%char && hasName s' then Some EmptyString
          else None
      end
  end.

(** [path.dirname(p)]. *)
Definition dirname (path : string) : string :=
  match path with
  | EmptyString => "."
  | String c rest =>
      let hasRoot := Ascii.eqb c "/"%char in
      match beforeLastName rest with
      | None => if hasRoot then "/" else "."
      | Some EmptyString => if hasRoot then "//" else String c EmptyString
      | Some r => String c r
      end
  end.

(** *** Where a path leads *)

(** The names from the root of the tree to what a path names: the root
    is the working directory, and its parent is the root itself. *)
Definition names (path : string) : list string :=
  fold_left (enter false) (pieces path) [].

Fixpoint slashFree (s : string) : bool :=
  match s with
  | EmptyString => true
  | String c s' => negb (Ascii.eqb c "/"%char) && slashFree s'
  end.

(** A name a directory can hold: not empty, no slash in it, and neither
    [.] nor [..]. *)
Definition isName (s : string) : bool :=
  Js.truthy s && slashFree s &&
  negb (String.eqb s ".") && negb (String.eqb s "..").

(** A relative path made of names between single slashes, none with a
    backslash: the header lookup and the file system read it alike. *)
Definition tidy (s : string) : bool :=
  forallb (fun part => isName part && sepFree part) (pieces s).

End Path.

(** ** Results of calls that can throw *)

(** What running a piece of the program gives: a value, an exception, or
    [Timeout] when the bound on the recursion of [copyUnpackedFiles] was
    reached. *)
Inductive Result (A : Type) : Type :=
| Ok (a : A)
| Throw (e : Js.Error)
| Timeout.
Arguments Ok {A} a.
Arguments Throw {A} e.
Arguments Timeout {A}.

(** What a call of a library gives: it returns or it throws. *)
Inductive Returned (A : Type) : Type :=
| Returns (a : A)
| Throws (e : Js.Error).
Arguments Returns {A} a.
Arguments Throws {A} e.

Definition called {A} (r : Returned A) : Result A :=
  match r with
  | Returns a => Ok a
  | Throws e => Throw e
  end.

(** ** The file system *)

Module Fs.

(** Association lists keyed by name, in directory order. *)
Section Alist.
Context {V : Type}.

Fixpoint alookup (k : string) (l : list (string * V)) : option V :=
  match l with
  | [] => None
  | (k', v) :: l' => if String.eqb k' k then Some v else alookup k l'
  end.

(** Replace the binding of [k] in place, or add it at the end. *)
Fixpoint ainsert (k : string) (v : V) (l : list (string * V))
  : list (string * V) :=
  match l with
  | [] => [(k, v)]
  | (k', v') :: l' =>
      if String.eqb k' k then (k, v) :: l' else (k', v') :: ainsert k v l'
  end.

Definition adelete (k : string) (l : list (string * V))
  : list (string * V) :=
  filter (fun kv => negb (String.eqb (fst kv) k)) l.
End Alist.

(** A node of the tree.  [Denied c] is an entry that a directory lists
    but that the process cannot use: every call that reaches it fails
    with the code [c]. *)
#[warnings="-register-all"]
Inductive node : Type :=
| File (data : string)
| Dir (entries : list (string * node))
| Denied (c : string).

(** The node at a resolved path. *)
Fixpoint get (p : list string) (n : node) : option node :=
  match p with
  | [] => Some n
  | s :: p' =>
      match n with
      | Dir es =>
          match alookup s es with
          | Some c => get p' c
          | None => None
          end
      | _ => None
      end
  end.

(** [mkdir -p]: the error code, or the new tree. *)
Fixpoint mkdirp (p : list string) (n : node) : string + node :=
  match p with
  | [] =>
      match n with
      | Dir _ => inr n
      | File _ => inl "EEXIST"
      | Denied c => inl c
      end
  | s :: p' =>
      match n with
      | Dir es =>
          let child :=
            match alookup s es with Some c => c | None => Dir [] end in
          match mkdirp p' child with
          | inr c' => inr (Dir (ainsert s c' es))
          | inl c => inl c
          end
      | File _ => inl "ENOTDIR"
      | Denied c => inl c
      end
  end.

(** Create or overwrite the regular file at [p] with [d]. *)
Fixpoint write (p : list string) (d : string) (n : node) : string + node :=
  match p with
  | [] =>
      match n with
      | File _ => inr (File d)
      | Dir _ => inl "EISDIR"
      | Denied c => inl c
      end
  | s :: p' =>
      match n with
      | Dir es =>
          match alookup s es with
          | Some c =>
              match write p' d c with
              | inr c' => inr (Dir (ainsert s c' es))
              | inl c => inl c
              end
          | None =>
              match p' with
              | [] => inr (Dir (ainsert s (File d) es))
              | _ :: _ => inl "ENOENT"
              end
          end
      | File _ => inl "ENOTDIR"
      | Denied c => inl c
      end
  end.

(** Remove the node at [p] with everything below it; nothing happens
    when there is none. *)
Fixpoint del (p : list string) (n : node) : node :=
  match p with
  | [] => Dir []
  | s :: p' =>
      match n with
      | Dir es =>
          match p' with
          | [] => Dir (adelete s es)
          | _ :: _ =>
              match alookup s es with
              | Some c => Dir (ainsert s (del p' c) es)
              | None => n
              end
          end
      | _ => n
      end
  end.

(** Put [new] where the node at [p] is. *)
Fixpoint put (p : list string) (new : node) (n : node) : node :=
  match p with
  | [] => new
  | s :: p' =>
      match n with
      | Dir es =>
          match alookup s es with
          | Some c => Dir (ainsert s (put p' new c) es)
          | None => n
          end
      | _ => n
      end
  end.

(** What [rm -r] makes of a node: [None] when all of it goes; or else the
    code of the first entry that cannot be removed, where that entry is,
    and what is left, the entries before it being gone. *)
Fixpoint rm (n : node) : option (string * list string * node) :=
  match n with
  | File _ => None
  | Denied c => Some (c, [], n)
  | Dir es =>
      (fix each (l : list (string * node))
         : option (string * list string * node) :=
         match l with
         | [] => None
         | (k, ch) :: l' =>
             match rm ch with
             | None => each l'
             | Some (c, rel, ch') => Some (c, k :: rel, Dir ((k, ch') :: l'))
             end
         end) es
  end.

(** *** Paths

    A path is read piece by piece from the root.  Whatever the piece,
    the place reached so far has to be a directory; a name then goes
    down, [..] goes back up, an empty piece and [.] stay. *)

(** The code with which a path cannot go through what it finds. *)
Definition through (o : option node) : option string :=
  match o with
  | Some (Dir _) => None
  | Some (File _) => Some "ENOTDIR"
  | Some (Denied c) => Some c
  | None => Some "ENOENT"
  end.

Fixpoint resolveFrom (t : node) (cur : list string) (parts : list string)
  : string + list string :=
  match parts with
  | [] => inr cur
  | part :: rest =>
      match through (get cur t) with
      | Some c => inl c
      | None => resolveFrom t (Path.enter false cur part) rest
      end
  end.

(** The names a path leads through, or the code it fails with. *)
Definition resolve (p : string) (t : node) : string + list string :=
  match p with
  | EmptyString => inl "ENOENT"
  | _ => resolveFrom t [] (Path.pieces p)
  end.

(** The file or directory a path leads to, or the code it fails with. *)
Definition find (p : string) (t : node) : string + node :=
  match resolve p t with
  | inl c => inl c
  | inr q =>
      match get q t with
      | Some (Denied c) => inl c
      | Some n => inr n
      | None => inl "ENOENT"
      end
  end.

Record Stats : Type := mkStats { isFile : bool; isDirectory : bool }.

(** The calls of [fs] and [fs-extra] the patcher makes, on path strings. *)

Definition existsSync (p : string) (t : node) : bool :=
  match find p t with
  | inr _ => true
  | inl _ => false
  end.

Definition statSync (p : string) (t : node) : Returned Stats :=
  match find p t with
  | inr (Dir _) => Returns (mkStats false true)
  | inr _ => Returns (mkStats true false)
  | inl c => Throws (Js.sysError c "stat" p)
  end.

Definition readdirSync (p : string) (t : node) : Returned (list string) :=
  match find p t with
  | inr (Dir es) => Returns (map fst es)
  | inr _ => Throws (Js.sysError "ENOTDIR" "scandir" p)
  | inl c => Throws (Js.sysError c "scandir" p)
  end.

Definition readFileSync (p : string) (t : node) : Returned string :=
  match find p t with
  | inr (File d) => Returns d
  | inr _ => Throws (Js.readError "EISDIR")
  | inl c => Throws (Js.sysError c "open" p)
  end.

(** [fs-extra]'s [ensureDirSync] is [mkdir -p]: it makes what is missing
    on the way, so the path is taken by its names. *)
Definition ensureDirSync (p : string) (t : node) : Returned unit * node :=
  match p with
  | EmptyString => (Throws (Js.sysError "ENOENT" "mkdir" p), t)
  | _ =>
      match mkdirp (Path.names p) t with
      | inr t' => (Returns tt, t')
      | inl c => (Throws (Js.sysError c "mkdir" p), t)
      end
  end.

(** Write [d] to where [p] resolves to. *)
Definition writeAt (p d : string) (t : node) : string + node :=
  match resolve p t with
  | inl c => inl c
  | inr q => write q d t
  end.

Definition writeFileSync (p d : string) (t : node) : Returned unit * node :=
  match writeAt p d t with
  | inr t' => (Returns tt, t')
  | inl c => (Throws (Js.sysError c "open" p), t)
  end.

(** [fs-extra]'s [removeSync] is [rm -rf]: nothing to remove is no
    error; an entry that cannot be removed ends it, with what was removed
    before it gone. *)
Definition removeSync (p : string) (t : node) : Returned unit * node :=
  match resolve p t with
  | inl c =>
      if String.eqb c "ENOENT" then (Returns tt, t)
      else (Throws (Js.sysError c "lstat" p), t)
  | inr q =>
      match get q t with
      | None => (Returns tt, t)
      | Some n =>
          match rm n with
          | None => (Returns tt, del q t)
          | Some (c, rel, rest) =>
              (Throws (Js.sysError c "lstat" (fold_left Path.join rel p)),
               put q rest t)
          end
      end
  end.

Definition unlinkSync (p : string) (t : node) : Returned unit * node :=
  match resolve p t with
  | inl c => (Throws (Js.sysError c "unlink" p), t)
  | inr q =>
      match get q t with
      | Some (File _) => (Returns tt, del q t)
      | Some (Dir _) => (Throws (Js.sysError "EISDIR" "unlink" p), t)
      | Some (Denied c) => (Throws (Js.sysError c "unlink" p), t)
      | None => (Throws (Js.sysError "ENOENT" "unlink" p), t)
      end
  end.

Definition copyFileSync (src dest : string) (t : node) : Returned unit * node :=
  match find src t with
  | inr (File d) =>
      match writeAt dest d t with
      | inr t' => (Returns tt, t')
      | inl c => (Throws (Js.copyError c src dest), t)
      end
  | inr _ => (Throws (Js.copyError "EISDIR" src dest), t)
  | inl c => (Throws (Js.copyError c src dest), t)
  end.

End Fs.

(** ** The world and the monad of the program *)

Record World : Type := mkWorld {
  fs : Fs.node;
  console : list string
}.

(** A computation runs in a world and leaves one behind, also when it
    throws. *)
Definition M (A : Type) : Type := World -> Result A * World.

Definition ret {A} (a : A) : M A := fun w => (Ok a, w).

Definition bind {A B} (m : M A) (k : A -> M B) : M B :=
  fun w =>
    match m w with
    | (Ok a, w') => k a w'
    | (Throw e, w') => (Throw e, w')
    | (Timeout, w') => (Timeout, w')
    end.

Definition throw {A} (e : Js.Error) : M A := fun w => (Throw e, w).

(** [try { m } catch (e) { h e }]. *)
Definition try_catch {A} (m : M A) (h : Js.Error -> M A) : M A :=
  fun w =>
    match m w with
    | (Throw e, w') => h e w'
    | r => r
    end.

Declare Scope js_scope.
Delimit Scope js_scope with js.
Notation "x <- m ;; k" := (bind m (fun x => k))
  (at level 61, m at next level, right associativity) : js_scope.
Notation "m ;; k" := (bind m (fun _ => k))
  (at level 61, right associativity) : js_scope.
Open Scope js_scope.

(** [for (const x of xs) body(x)]. *)
Fixpoint forOf {A} (xs : list A) (body : A -> M unit) : M unit :=
  match xs with
  | [] => ret tt
  | x :: xs' => body x ;; forOf xs' body
  end.

(** [console.warn(line)]. *)
Definition warn (line : string) : M unit :=
  fun w => (Ok tt, mkWorld (fs w) (console w ++ [line])).

(** A library call that only reads the file system. *)
Definition reading {A} (f : Fs.node -> Returned A) : M A :=
  fun w => (called (f (fs w)), w).

(** A library call that can change the file system. *)
Definition writing {A} (f : Fs.node -> Returned A * Fs.node) : M A :=
  fun w => let (r, t) := f (fs w) in (called r, mkWorld t (console w)).

Definition existsSync (p : string) : M bool :=
  reading (fun t => Returns (Fs.existsSync p t)).
Definition statSync (p : string) : M Fs.Stats := reading (Fs.statSync p).
Definition readdirSync (p : string) : M (list string) :=
  reading (Fs.readdirSync p).
Definition readFileSync (p : string) : M string := reading (Fs.readFileSync p).
Definition ensureDirSync (p : string) : M unit := writing (Fs.ensureDirSync p).
Definition writeFileSync (p d : string) : M unit :=
  writing (Fs.writeFileSync p d).
Definition removeSync (p : string) : M unit := writing (Fs.removeSync p).
Definition unlinkSync (p : string) : M unit := writing (Fs.unlinkSync p).
Definition copyFileSync (src dest : string) : M unit :=
  writing (Fs.copyFileSync src dest).

(** ** The archive header and the archive library *)

(** A node of the header, as [JSON.parse] gives it: [files] is there on a
    directory, [unpacked] may be there on any node. *)
#[warnings="-register-all"]
Inductive AsarNode : Type :=
| ANode (files : option (list (string * AsarNode))) (unpacked : option bool).

Definition files (n : AsarNode) : option (list (string * AsarNode)) :=
  match n with ANode f _ => f end.

Definition unpacked (n : AsarNode) : option bool :=
  match n with ANode _ u => u end.

(** The calls of the [asar] package.  They are not part of this
    repository, so the extraction is stated for any behaviour of them:
    each may throw, [extractAll] may throw after it wrote part of the
    tree, and [extractFile] is typed [any] in the source. *)
Record Codec : Type := mkCodec {
  extractAll : string -> string -> Fs.node -> Returned unit * Fs.node;
  listPackage : string -> Fs.node -> Returned (list string);
  readArchiveHeaderSync : string -> Fs.node -> Returned AsarNode;
  extractFile : string -> string -> Fs.node -> Returned Js.Value
}.

(** ** getAsarEntryInfo *)

Record EntryInfo : Type := mkEntryInfo {
  isDir : bool;
  isUnpacked : bool;
  exists_ : bool
}.

Definition notFound : EntryInfo := mkEntryInfo false false false.

(** The names under which every object has a property, from
    [Object.prototype]. *)
Definition inherited : list string :=
  ["constructor"; "__defineGetter__"; "__defineSetter__"; "hasOwnProperty";
   "__lookupGetter__"; "__lookupSetter__"; "isPrototypeOf";
   "propertyIsEnumerable"; "toString"; "valueOf"; "__proto__";
   "toLocaleString"].

(** [files[part]] for the [files] of a node: the child of that name, or
    else what the object inherits under that name, a function or the
    prototype itself, which has neither [files] nor [unpacked] and so
    reads like the node [ANode None None]; [None] is [undefined]. *)
Definition property (children : list (string * AsarNode)) (part : string)
  : option AsarNode :=
  match Fs.alookup part children with
  | Some child => Some child
  | None =>
      if existsb (String.eqb part) inherited then Some (ANode None None)
      else None
  end.

(** The loop over [parts], from the node reached so far. *)
Fixpoint walkParts (parts : list string) (node : AsarNode) : EntryInfo :=
  match parts with
  | [] =>
      mkEntryInfo
        (match files node with Some _ => true | None => false end)
        (match unpacked node with Some true => true | _ => false end)
        true
  | part :: rest =>
      match files node with
      | None => notFound
      | Some children =>
          match property children part with
          | None => notFound
          | Some child => walkParts rest child
          end
      end
  end.

Definition getAsarEntryInfo (header : AsarNode) (filePath : string)
  : EntryInfo :=
  walkParts (Path.segments filePath) header.

(** ** copyUnpackedFiles *)

(** The test of the [catch] block. *)
Definition inaccessible (err : Js.Error) : bool :=
  Js.codeIs err "ENOENT" || Js.codeIs err "EPERM" || Js.codeIs err "EACCES".

Definition skippingInaccessible (srcPath : string) : string :=
  "Warning: Skipping inaccessible file: " ++ srcPath.

(** The body of the [try] block for one item; [recur] is the function
    itself. *)
Definition copyItem (recur : string -> string -> M unit)
    (srcDir destDir item : string) : M unit :=
  let srcPath := Path.join srcDir item in
  let destPath := Path.join destDir item in
  stat <- statSync srcPath ;;
  if Fs.isDirectory stat then
    ensureDirSync destPath ;;
    recur srcPath destPath
  else
    ensureDirSync (Path.dirname destPath) ;;
    copyFileSync srcPath destPath.

(** The loop over the items of a directory. *)
Definition copyItems (recur : string -> string -> M unit)
    (srcDir destDir : string) (items : list string) : M unit :=
  forOf items (fun item =>
    try_catch (copyItem recur srcDir destDir item)
      (fun err =>
         if inaccessible err
         then warn (skippingInaccessible (Path.join srcDir item))
         else throw err)).

(** The recursion follows the source tree as it is when each directory is
    read, so it is bounded by [fuel]. *)
Fixpoint copyUnpackedFiles (fuel : nat) (srcDir destDir : string) : M unit :=
  match fuel with
  | O => fun w => (Timeout, w)
  | S fuel' =>
      found <- existsSync srcDir ;;
      if negb found then ret tt
      else
        items <- readdirSync srcDir ;;
        copyItems (copyUnpackedFiles fuel') srcDir destDir items
  end.

(** ** extractAsarManually and extractAsarWithUnpacked *)

Section Extraction.

Variable asar : Codec.

Definition getAsarHeader (asarFile : string) : M AsarNode :=
  reading (readArchiveHeaderSync asar asarFile).

Definition skippingMissing (name : string) : string :=
  "Warning: Skipping missing unpacked file: " ++ name.

Definition failedToExtract (name : string) (err : Js.Error) : string :=
  "Warning: Failed to extract " ++ name ++ ": " ++ Js.message err.

(** The [try] block of the loop body. *)
Definition extractRegular (asarFile normalizedFilename destFilename : string)
  : M unit :=
  file <- reading (extractFile asar asarFile normalizedFilename) ;;
  match file with
  | Js.VBuffer bytes =>
      ensureDirSync (Path.dirname destFilename) ;;
      writeFileSync destFilename bytes
  | _ => ret tt
  end.

(** The test on what is already at the destination: [true] stands for
    the [continue] of an entry that is there as a file. *)
Definition alreadyThere (destFilename : string) : M bool :=
  found <- existsSync destFilename ;;
  if found then
    stat <- statSync destFilename ;;
    if Fs.isFile stat then ret true
    else
      (if Fs.isDirectory stat then removeSync destFilename else ret tt) ;;
      ret false
  else ret false.

(** The body of the loop over the file names. *)
Definition extractEntry (asarFile destDir : string) (header : AsarNode)
    (filename : string) : M unit :=
  let normalizedFilename := Path.stripLeading filename in
  let destFilename := Path.join destDir normalizedFilename in
  let entryInfo := getAsarEntryInfo header normalizedFilename in
  if isDir entryInfo then
    found <- existsSync destFilename ;;
    if negb found then ensureDirSync destFilename else ret tt
  else
    satisfied <- alreadyThere destFilename ;;
    if satisfied then ret tt
    else if isUnpacked entryInfo then
      warn (skippingMissing normalizedFilename)
    else
      try_catch (extractRegular asarFile normalizedFilename destFilename)
        (fun err => warn (failedToExtract normalizedFilename err)).

Definition extractAsarManually (asarFile destDir unpackedDir : string)
  : M unit :=
  filenames <- reading (listPackage asar asarFile) ;;
  header <- getAsarHeader asarFile ;;
  forOf filenames (extractEntry asarFile destDir header).

Definition fallbackWarning : string :=
  "Warning: Some unpacked files are missing, using fallback extraction...".

(** The test of the [catch] block:
    [err.code === "ENOENT" && err.path && err.path.includes(".unpacked")]. *)
Definition missingUnpacked (err : Js.Error) : bool :=
  Js.codeIs err "ENOENT" &&
  match Js.path err with
  | Some p => Js.truthy p && Js.includes ".unpacked" p
  | None => false
  end.

Definition extractAsarWithUnpacked (fuel : nat) (asarFile destDir : string)
  : M unit :=
  let unpackedDir := asarFile ++ ".unpacked" in
  found <- existsSync unpackedDir ;;
  (if found then copyUnpackedFiles fuel unpackedDir destDir else ret tt) ;;
  try_catch (writing (extractAll asar asarFile destDir))
    (fun err =>
       if missingUnpacked err then
         warn fallbackWarning ;;
         extractAsarManually asarFile destDir unpackedDir
       else throw err).

End Extraction.

(** ** The Patcher class *)

(** [Platforms] of [./platform]: the three members the switch of
    [findAsar] names. *)
Inductive Platforms : Type := linux | windows | macOS.

(** One hunk and one unit of a parsed diff ([diff.ParsedDiff]). *)
Record Hunk : Type := mkHunk {
  oldStart : nat;
  oldLines : nat;
  newStart : nat;
  newLines : nat;
  lines : list string
}.

(** The names are there when the diff has the header lines of a file:
    [None] is [undefined]. *)
Record ParsedDiff : Type := mkParsedDiff {
  oldFileName : option string;
  newFileName : option string;
  hunks : list Hunk
}.

(** What the class takes from outside this file: the platform ([None]
    for one the switch of [findAsar] has no case for), the functions of
    [os], [path], [natsort] and [diff] it calls, the base directory of
    [../global], and [String.prototype.replace] with the regular
    expression of [patchDirWithPro]. *)
Record Host : Type := mkHost {
  CURRENT_PLATFORM : option Platforms;
  homedir : string;
  normalize : string -> string;
  basename : string -> string -> string;
  extname : string -> string;
  natsortDesc : list string -> list string;
  baseDir : string;
  parsePatch : string -> Returned (list ParsedDiff);
  (** [None] is the [false] of a patch that does not apply. *)
  applyPatch : string -> ParsedDiff -> option string;
  replaceSearchValue : string -> string
}.

Definition dquote : string := Js.dquote.

Module Patcher.

Record IPatcherOptions : Type := mkOptions {
  opt_asar : option string;
  opt_dir : option string;
  opt_features : list string
}.

Record t : Type := mk {
  _asar : string;
  _dir : string;
  _features : list string
}.

Definition asar (p : t) : string := _asar p.
Definition dir (p : t) : string := _dir p.
Definition features (p : t) : list string := _features p.

Definition findAsarUnix (candidates : list string) : M (option string) :=
  reading (fun tree =>
    Returns (find (fun file => Fs.existsSync file tree) candidates)).

(** [/^app-\d+\.\d+\.\d+$/]. *)
Definition isDigit (c : ascii) : bool :=
  Nat.leb 48 (nat_of_ascii c) && Nat.leb (nat_of_ascii c) 57.

Fixpoint skipDigits (s : string) : string :=
  match s with
  | String c s' => if isDigit c then skipDigits s' else s
  | EmptyString => EmptyString
  end.

(** One or more digits, and what follows them. *)
Definition digits (s : string) : option string :=
  match s with
  | String c s' => if isDigit c then Some (skipDigits s') else None
  | EmptyString => None
  end.

Definition afterDot (s : string) : option string :=
  match s with
  | String "."%char s' => Some s'
  | _ => None
  end.

Definition isAppDir (item : string) : bool :=
  Js.startsWith "app-" item &&
  match digits (String.substring 4 (String.length item - 4) item) with
  | Some r1 =>
      match afterDot r1 with
      | Some r2 =>
          match digits r2 with
          | Some r3 =>
              match afterDot r3 with
              | Some r4 =>
                  match digits r4 with
                  | Some EmptyString => true
                  | _ => false
                  end
              | None => false
              end
          | None => false
          end
      | None => false
      end
  | None => false
  end.

Section Methods.

Variable host : Host.
Variable codec : Codec.

Definition findAsarLinux : M (option string) :=
  findAsarUnix
    ["/opt/gitkraken/resources/app.asar";
     "/usr/share/gitkraken/resources/app.asar"].

Definition findAsarWindows : M (option string) :=
  let gitkrakenLocal :=
    Path.join (homedir host) "AppData/Local/gitkraken" in
  found <- existsSync gitkrakenLocal ;;
  if negb found then ret None
  else
    items <- readdirSync gitkrakenLocal ;;
    let apps := filter isAppDir items in
    match natsortDesc host apps with
    | [] => ret None
    | app :: _ =>
        if negb (Js.truthy app) then ret None
        else
          let app := Path.joinAll [gitkrakenLocal; app; "resources/app.asar"] in
          found <- existsSync app ;;
          ret (if found then Some app else None)
    end.

Definition findAsarMacOS : M (option string) :=
  findAsarUnix ["/Applications/GitKraken.app/Contents/Resources/app.asar"].

Definition findAsar (dir : option string) : M (option string) :=
  match Js.orElse dir None with
  | Some d => ret (Some (normalize host d ++ ".asar"))
  | None =>
      match CURRENT_PLATFORM host with
      | Some linux => findAsarLinux
      | Some windows => findAsarWindows
      | Some macOS => findAsarMacOS
      | None => ret None
      end
  end.

Definition findDir (asarFile : string) : string :=
  Path.join (Path.dirname asarFile)
    (basename host asarFile (extname host asarFile)).

(** [new Patcher(options)]. *)
Definition constructor (options : IPatcherOptions) : M t :=
  maybeAsar <-
    match Js.orElse (opt_asar options) None with
    | Some a => ret (Some a)
    | None => findAsar (opt_dir options)
    end ;;
  match Js.orElse maybeAsar None with
  | None => throw (Js.newError "Can't find app.asar!")
  | Some a =>
      let d :=
        match Js.orElse (opt_dir options) None with
        | Some d => d
        | None => findDir a
        end in
      let this := mk a d (opt_features options) in
      if Nat.eqb (List.length (features this)) 0
      then throw (Js.newError "Features is empty!")
      else ret this
  end.

Definition unpackAsar (fuel : nat) (this : t) : M unit :=
  extractAsarWithUnpacked codec fuel (asar this) (dir this).

Definition removeDir (this : t) : M unit := removeSync (dir this).

Definition patchedPattern : string :=
  "(delete json.proAccessState,delete json.licenseExpiresAt," ++
  "json={...json,licensedFeatures:[" ++ dquote ++ "pro" ++ dquote ++
  "]});".

Definition patternMatchFailed : string :=
  "Can't patch pro features, pattern match failed. " ++
  "Get support from https://t.me/gitkrakencrackchat".

Definition alreadyPatched : string := "It's already patched.".

(** [replaceValue] of [patchDirWithPro] with [$1] filled in. *)
Definition replaceValue (group1 : string) : string :=
  "var json=" ++ group1 ++ ";" ++
  "(" ++ dquote ++ "licenseExpiresAt" ++ dquote ++ "in json||" ++
  dquote ++ "licensedFeatures" ++ dquote ++ "in json)&&" ++
  patchedPattern ++
  "return json};".

Definition patchDirWithPro (this : t) : M unit :=
  let bundlePath := Path.join (dir this) "src/main/static/main.bundle.js" in
  sourceData <- readFileSync bundlePath ;;
  let sourcePatchedData := replaceSearchValue host sourceData in
  if String.eqb sourceData sourcePatchedData then
    if negb (Js.includes patchedPattern sourceData)
    then throw (Js.newError patternMatchFailed)
    else throw (Js.newError alreadyPatched)
  else writeFileSync bundlePath sourcePatchedData.

(** [path.join(dir, name)] for a name that may be [undefined]. *)
Definition joinName (dir : string) (name : option string) : M string :=
  match name with
  | Some n => ret (Path.join dir n)
  | None => throw Js.pathTypeError
  end.

(** [a !== b] for two names. *)
Definition differ (a b : option string) : bool :=
  match a, b with
  | Some x, Some y => negb (String.eqb x y)
  | None, None => false
  | _, _ => true
  end.

(** A name inside a template literal. *)
Definition shown (name : option string) : string :=
  match name with
  | Some n => n
  | None => "undefined"
  end.

Definition patchDirWithPatch (this : t) (patch : ParsedDiff) : M unit :=
  oldPath <- joinName (dir this) (oldFileName patch) ;;
  sourceData <- readFileSync oldPath ;;
  match applyPatch host sourceData patch with
  | None => throw (Js.newError ("Can't patch " ++ shown (oldFileName patch)))
  | Some sourcePatchedData =>
      (if differ (oldFileName patch) (newFileName patch)
       then oldPath <- joinName (dir this) (oldFileName patch) ;;
            unlinkSync oldPath
       else ret tt) ;;
      newPath <- joinName (dir this) (newFileName patch) ;;
      writeFileSync newPath sourcePatchedData
  end.

Definition patchDirWithFeature (this : t) (feature : string) : M unit :=
  text <- readFileSync
            (Path.joinAll [baseDir host; "patches"; feature ++ ".diff"]) ;;
  patches <- (fun w => (called (parsePatch host text), w)) ;;
  forOf patches (patchDirWithPatch this).

Definition patchDir (this : t) : M unit :=
  forOf (features this) (fun feature =>
    if String.eqb feature "pro" then patchDirWithPro this
    else patchDirWithFeature this feature).

End Methods.

End Patcher.

(** ** The contract of the header lookup, in its own words *)

(** A forward slash or a backslash, by their codes. *)
Definition separator (c : ascii) : bool :=
  Nat.eqb (nat_of_ascii c) 47 || Nat.eqb (nat_of_ascii c) 92.

(** Split on any separator and discard the empty segments: read the path
    one character at a time, [cur] being the segment read so far. *)
Fixpoint tokens (cur : string) (s : string) : list string :=
  match s with
  | EmptyString =>
      match cur with
      | EmptyString => []
      | _ => [cur]
      end
  | String c s' =>
      if separator c
      then match cur with
           | EmptyString => tokens EmptyString s'
           | _ => cur :: tokens EmptyString s'
           end
      else tokens (cur ++ String c EmptyString) s'
  end.

(** The flags of the node a walk ends on: a directory iff it has a
    children mapping, externally stored iff its flag is [true]. *)
Definition flagsOf (terminal : option AsarNode) : EntryInfo :=
  match terminal with
  | None => mkEntryInfo false false false
  | Some (ANode children flag) =>
      mkEntryInfo
        (match children with Some _ => true | None => false end)
        (match flag with Some true => true | _ => false end)
        true
  end.

(** One step of the walk as the contract has it: the child called [seg]
    of the node reached, if the node is a directory that has it. *)
Definition child (reached : option AsarNode) (seg : string)
  : option AsarNode :=
  match reached with
  | Some (ANode (Some children) _) => Fs.alookup seg children
  | _ => None
  end.

Definition lookup_spec (header : AsarNode) (relativePath : string)
  : EntryInfo :=
  flagsOf (fold_left child (tokens EmptyString relativePath) (Some header)).

(** The step with what the code adds to it: where the directory reached
    has no child called [seg], a segment that names a property of every
    object is found all the same, as a leaf without a flag. *)
Definition everyObjectHas (seg : string) : bool :=
  existsb (String.eqb seg)
    ["__defineGetter__"; "__defineSetter__"; "__lookupGetter__";
     "__lookupSetter__"; "__proto__"; "constructor"; "hasOwnProperty";
     "isPrototypeOf"; "propertyIsEnumerable"; "toLocaleString"; "toString";
     "valueOf"].

Definition childOrInherited (reached : option AsarNode) (seg : string)
  : option AsarNode :=
  match reached with
  | Some (ANode (Some children) _) =>
      match Fs.alookup seg children with
      | Some found => Some found
      | None => if everyObjectHas seg then Some (ANode None None) else None
      end
  | _ => None
  end.

Definition lookup_amended (header : AsarNode) (relativePath : string)
  : EntryInfo :=
  flagsOf
    (fold_left childOrInherited (tokens EmptyString relativePath)
       (Some header)).

(** ** A reference archive library

    The behaviour of the [asar] package on an archive whose header and
    packed contents are given: the listing is the header in order, a
    packed file comes from the archive, an unpacked one is read from the
    directory next to the archive. *)

Module Reference.

Record Archive : Type := mkArchive {
  header : AsarNode;
  body : list (string * string)
}.

Fixpoint listFiles (base : string) (n : AsarNode) {struct n} : list string :=
  match n with
  | ANode (Some children) _ =>
      (fix each (l : list (string * AsarNode)) : list string :=
         match l with
         | [] => []
         | (name, child) :: l' =>
             let fullPath := Path.join base name in
             fullPath :: listFiles fullPath child ++ each l'
         end) children
  | ANode None _ => []
  end.

Definition readFile (a : Archive) (asarFile filename : string)
    (tree : Fs.node) : Returned Js.Value :=
  let info := getAsarEntryInfo (header a) filename in
  if negb (exists_ info) then
    Throws (Js.newError (filename ++ " was not found in this archive"))
  else if isUnpacked info then
    match Fs.readFileSync
            (Path.join (asarFile ++ ".unpacked") filename) tree with
    | Returns d => Returns (Js.VBuffer d)
    | Throws e => Throws e
    end
  else
    match Fs.alookup filename (body a) with
    | Some d => Returns (Js.VBuffer d)
    | None => Returns (Js.VBuffer EmptyString)
    end.

Definition extractAllM (a : Archive) (asarFile dest : string) : M unit :=
  ensureDirSync dest ;;
  forOf (listFiles "/" (header a)) (fun fullPath =>
    let filename := Path.stripLeading fullPath in
    let destFilename := Path.join dest filename in
    if isDir (getAsarEntryInfo (header a) filename)
    then ensureDirSync destFilename
    else
      content <- reading (readFile a asarFile filename) ;;
      match content with
      | Js.VBuffer bytes => writeFileSync destFilename bytes
      | _ => ret tt
      end).

Definition codec (a : Archive) : Codec :=
  mkCodec
    (fun asarFile dest tree =>
       match extractAllM a asarFile dest (mkWorld tree []) with
       | (Throw e, w) => (Throws e, fs w)
       | (_, w) => (Returns tt, fs w)
       end)
    (fun _ _ => Returns (listFiles "/" (header a)))
    (fun _ _ => Returns (header a))
    (readFile a).

End Reference.

(** ** Reference functions of [path], [diff] and [String.prototype.replace] *)

Module Node.

(** [path.extname]: the last segment from its last dot on. *)
Fixpoint fromLastDot (s : string) : string :=
  match s with
  | EmptyString => EmptyString
  | String c s' =>
      let r := fromLastDot s' in
      if Js.truthy r then r
      else if Ascii.eqb c "."%char then s else EmptyString
  end.

Definition extname (p : string) : string :=
  match last (filter Js.truthy (Path.pieces p)) EmptyString with
  | String c rest => fromLastDot rest
  | EmptyString => EmptyString
  end.

(** [path.basename(p, ext)]. *)
Definition basename (p ext : string) : string :=
  let base := last (filter Js.truthy (Path.pieces p)) EmptyString in
  let n := String.length base - String.length ext in
  if Js.truthy ext && Nat.ltb 0 n &&
     String.eqb (String.substring n (String.length ext) base) ext
  then String.substring 0 n base
  else base.

Definition newline : string := String (ascii_of_nat 10) EmptyString.

(** [s.split("\n")]. *)
Fixpoint splitLines (s : string) : list string :=
  match s with
  | EmptyString => [EmptyString]
  | String c s' =>
      if Ascii.eqb c (ascii_of_nat 10) then EmptyString :: splitLines s'
      else match splitLines s' with
           | [] => [String c EmptyString]
           | l :: ls => String c l :: ls
           end
  end.

(** The lines of a hunk that start with one of two marks, without the
    mark. *)
Definition side (a b : ascii) (h : Hunk) : list string :=
  flat_map (fun l =>
    match l with
    | String c rest =>
        if Ascii.eqb c a || Ascii.eqb c b then [rest] else []
    | EmptyString => []
    end) (lines h).

Fixpoint sameLines (xs ys : list string) : bool :=
  match xs, ys with
  | [], _ => true
  | x :: xs', y :: ys' => String.eqb x y && sameLines xs' ys'
  | _ :: _, [] => false
  end.

(** Apply the hunks in order at the lines they name; [consumed] lines of
    the source are already behind. *)
Fixpoint applyHunks (consumed : nat) (src : list string) (hs : list Hunk)
  : option (list string) :=
  match hs with
  | [] => Some src
  | h :: hs' =>
      let skip := oldStart h - 1 - consumed in
      let old := side " "%char "-"%char h in
      let rest := skipn skip src in
      if Nat.leb skip (List.length src) && sameLines old rest then
        match applyHunks (oldStart h - 1 + List.length old)
                (skipn (List.length old) rest) hs' with
        | Some tail =>
            Some (firstn skip src ++ side " "%char "+"%char h ++ tail)%list
        | None => None
        end
      else None
  end.

(** [diff.applyPatch] without fuzz: a hunk applies where it says or not
    at all. *)
Definition applyPatch (source : string) (patch : ParsedDiff) : option string :=
  match applyHunks 0 (splitLines source) (hunks patch) with
  | Some ls => Some (String.concat newline ls)
  | None => None
  end.

(** [s.replace(search, replacement)] for a literal [search]. *)
Fixpoint replaceFirst (search replacement s : string) : string :=
  if Js.startsWith search s
  then replacement ++ String.substring (String.length search)
                        (String.length s - String.length search) s
  else match s with
       | EmptyString => EmptyString
       | String c s' => String c (replaceFirst search replacement s')
       end.

End Node.

(** ** Sample archives and trees *)

Module Sample.

Definition leaf : AsarNode := ANode None None.
Definition external : AsarNode := ANode None (Some true).

(** A packed script next to a native module kept outside the archive. *)
Definition app : Reference.Archive :=
  Reference.mkArchive
    (ANode (Some [("addon.node", external); ("main.js", leaf)]) None)
    [("main.js", "console.log(1)")].

(** A directory kept outside the archive, flagged as such. *)
Definition native : Reference.Archive :=
  Reference.mkArchive
    (ANode (Some [("native", ANode (Some []) (Some true));
                  ("main.js", leaf)]) None)
    [("main.js", "console.log(1)")].

(** The archive, and next to it a directory [main.js] where the module
    should be. *)
Definition disk : Fs.node :=
  Fs.Dir [("app.asar", Fs.File "asar");
          ("app.asar.unpacked", Fs.Dir [("main.js", Fs.Dir [])])].

(** The archive alone. *)
Definition bare : Fs.node := Fs.Dir [("app.asar", Fs.File "asar")].

(** The archive, and next to it a directory that holds notes and not the
    module. *)
Definition noted : Fs.node :=
  Fs.Dir [("app.asar", Fs.File "asar");
          ("app.asar.unpacked", Fs.Dir [("notes.txt", Fs.File "n")])].

Definition start (tree : Fs.node) : World := mkWorld tree [].

(** What the bulk extraction of [app] leaves of [bare], and what it
    throws. *)
Definition afterBulk : Fs.node :=
  Fs.Dir [("app.asar", Fs.File "asar"); ("out", Fs.Dir [])].

Definition missingAddon : Js.Error :=
  Js.sysError "ENOENT" "open" "app.asar.unpacked/addon.node".

(** An external-storage directory with an entry that cannot be read. *)
Definition locked : Fs.node :=
  Fs.Dir [("app.asar.unpacked",
           Fs.Dir [("secret", Fs.Denied "EACCES");
                   ("addon.node", Fs.File "binary")])].

(** The same with a file where the destination directory should be. *)
Definition blocked : Fs.node :=
  Fs.Dir [("app.asar.unpacked",
           Fs.Dir [("addon.node", Fs.File "binary");
                   ("later.node", Fs.File "binary")]);
          ("out", Fs.File "in the way")].

(** Two native modules kept outside the archive, of which the directory
    next to the archive holds one. *)
Definition two : Reference.Archive :=
  Reference.mkArchive
    (ANode (Some [("helper.node", external); ("addon.node", external);
                  ("main.js", leaf)]) None)
    [("main.js", "console.log(1)")].

Definition seeded : Fs.node :=
  Fs.Dir [("app.asar", Fs.File "asar");
          ("app.asar.unpacked", Fs.Dir [("helper.node", Fs.File "binary")])].

(** What the pre-seed and the bulk extraction of [two] make of
    [seeded]. *)
Definition halfway : Fs.node :=
  Fs.Dir [("app.asar", Fs.File "asar");
          ("app.asar.unpacked", Fs.Dir [("helper.node", Fs.File "binary")]);
          ("out", Fs.Dir [("helper.node", Fs.File "binary")])].

(** A tree where [out/main.js] is a directory. *)
Definition stale : Fs.node :=
  Fs.Dir [("app.asar", Fs.File "asar");
          ("out", Fs.Dir [("main.js", Fs.Dir [("old", Fs.File "x")])])].

(** A directory where the module kept outside the archive should be. *)
Definition staleAddon : Fs.node :=
  Fs.Dir [("app.asar", Fs.File "asar");
          ("out", Fs.Dir [("addon.node", Fs.Dir [("old", Fs.File "x")])])].

(** The same with an entry in it that cannot be removed, and what a
    removal leaves of it. *)
Definition guarded : Fs.node :=
  Fs.Dir [("app.asar", Fs.File "asar");
          ("out",
           Fs.Dir [("addon.node",
                    Fs.Dir [("readme", Fs.File "r");
                            ("build",
                             Fs.Dir [("lock", Fs.Denied "EACCES");
                                     ("x.o", Fs.File "o")])])])].

Definition guardedLeft : Fs.node :=
  Fs.Dir [("app.asar", Fs.File "asar");
          ("out",
           Fs.Dir [("addon.node",
                    Fs.Dir [("build",
                             Fs.Dir [("lock", Fs.Denied "EACCES");
                                     ("x.o", Fs.File "o")])])])].

(** The script already extracted. *)
Definition kept : Fs.node :=
  Fs.Dir [("app.asar", Fs.File "asar");
          ("out", Fs.Dir [("main.js", Fs.File "older")])].

(** A directory [main.js] that holds an entry that cannot be removed. *)
Definition guardedScript : Fs.node :=
  Fs.Dir [("app.asar", Fs.File "asar");
          ("out", Fs.Dir [("main.js", Fs.Dir [("lock", Fs.Denied "EACCES")])])].

(** A module kept outside the archive, a directory in a directory, and a
    script. *)
Definition layered : Reference.Archive :=
  Reference.mkArchive
    (ANode (Some [("addon.node", external);
                  ("lib", ANode (Some [("deep", ANode (Some []) None)]) None);
                  ("main.js", leaf)]) None)
    [("main.js", "console.log(1)")].

(** A library that lists a name that climbs out of where it is
    extracted. *)
Definition climbing : Codec :=
  mkCodec
    (fun _ _ tree => (Returns tt, tree))
    (fun _ _ => Returns ["../evil.js"])
    (fun _ _ =>
       Returns (ANode (Some [("..", ANode (Some [("evil.js", leaf)]) None)])
                  None))
    (fun _ _ _ => Returns (Js.VBuffer "boo")).

(** A regular file [lib] at the destination. *)
Definition staleLib : Fs.node :=
  Fs.Dir [("app.asar", Fs.File "asar");
          ("out", Fs.Dir [("lib", Fs.File "in the way")])].

(** A host on Linux; the replacement of [patchDirWithPro] is played on
    one fixed return statement. *)
Definition returnStatement : string := "return decode()};".

Definition replaceValue : string :=
  "var json=decode();(" ++ dquote ++ "licenseExpiresAt" ++ dquote ++
  "in json||" ++ dquote ++ "licensedFeatures" ++ dquote ++ "in json)&&" ++
  "(delete json.proAccessState,delete json.licenseExpiresAt," ++
  "json={...json,licensedFeatures:[" ++ dquote ++ "pro" ++ dquote ++
  "]});" ++ "return json};".

(** What [parsePatch] makes of a text without the header lines of a
    file: one unit, without names and without hunks. *)
Definition blank : ParsedDiff := mkParsedDiff None None [].

Definition host : Host :=
  mkHost (Some linux) "/home/user" Path.normalize Node.basename Node.extname
    (fun apps => apps) "/opt/gitcracken"
    (fun _ => Returns [blank]) Node.applyPatch
    (Node.replaceFirst returnStatement replaceValue).

(** An extracted application: a bundle to patch and a script. *)
Definition extracted (bundle : string) : Fs.node :=
  Fs.Dir
    [("app",
      Fs.Dir
        [("src",
          Fs.Dir
            [("main",
              Fs.Dir [("static", Fs.Dir [("main.bundle.js", Fs.File bundle)])]);
             ("a.js",
              Fs.File
                ("one" ++ Node.newline ++ "two" ++ Node.newline ++
                 "three"))])])].

Definition patcher : Patcher.t := Patcher.mk "app.asar" "app" ["pro"].

(** Two hunks: the first applies, the context of the second does not
    match. *)
Definition twoHunks : ParsedDiff :=
  mkParsedDiff (Some "src/a.js") (Some "src/b.js")
    [mkHunk 1 1 1 1 ["-one"; "+ONE"];
     mkHunk 3 1 3 1 ["-four"; "+FOUR"]].

Definition goodHunks : ParsedDiff :=
  mkParsedDiff (Some "src/a.js") (Some "src/b.js")
    [mkHunk 1 1 1 1 ["-one"; "+ONE"];
     mkHunk 3 1 3 1 ["-three"; "+THREE"]].

(** An external-storage directory two levels deep, and a destination
    that holds an older copy of one module and a file of its own. *)
Definition nested : Fs.node :=
  Fs.Dir [("app.asar", Fs.File "asar");
          ("app.asar.unpacked",
           Fs.Dir [("node_modules",
                    Fs.Dir [("addon.node", Fs.File "binary")]);
                   ("helper.node", Fs.File "new")]);
          ("out",
           Fs.Dir [("helper.node", Fs.File "old");
                   ("keep.txt", Fs.File "kept")])].

(** A regular file where the archive of [native] has a directory. *)
Definition withFile : Fs.node :=
  Fs.Dir [("app.asar", Fs.File "asar");
          ("out", Fs.Dir [("native", Fs.File "in the way")])].

(** Two units that keep the names of their files: the firstUnit applies to
    the script, the context of the secondUnit does not match. *)
Definition firstUnit : ParsedDiff :=
  mkParsedDiff (Some "src/a.js") (Some "src/a.js")
    [mkHunk 1 1 1 1 ["-one"; "+ONE"]].

Definition secondUnit : ParsedDiff :=
  mkParsedDiff (Some "src/c.js") (Some "src/c.js")
    [mkHunk 1 1 1 1 ["-four"; "+FOUR"]].

(** A unit that moves a file into a directory that is not there. *)
Definition moving : ParsedDiff :=
  mkParsedDiff (Some "src/a.js") (Some "lib/a.js")
    [mkHunk 1 1 1 1 ["-one"; "+ONE"]].

(** A host whose parser reads the two units out of every diff. *)
Definition twoUnits : Host :=
  mkHost (Some linux) "/home/user" Path.normalize Node.basename Node.extname
    (fun apps => apps) "/opt/gitcracken"
    (fun _ => Returns [firstUnit; secondUnit]) Node.applyPatch
    (Node.replaceFirst returnStatement replaceValue).

Definition threeLines : string :=
  "one" ++ Node.newline ++ "two" ++ Node.newline ++ "three".

(** The themed installed with one diff, and an extracted application
    with two scripts. *)
Definition installed : Fs.node :=
  Fs.Dir
    [("opt",
      Fs.Dir [("gitcracken",
               Fs.Dir [("patches", Fs.Dir [("dark.diff", Fs.File "diff")])])]);
     ("app",
      Fs.Dir [("src", Fs.Dir [("a.js", Fs.File threeLines);
                              ("c.js", Fs.File threeLines)])])].

Definition themed : Patcher.t := Patcher.mk "app.asar" "app" ["dark"; "pro"].

(** Two versions installed, the newer one without its archive. *)
Definition windowsDisk : Fs.node :=
  Fs.Dir
    [("home",
      Fs.Dir
        [("user",
          Fs.Dir
            [("AppData",
              Fs.Dir
                [("Local",
                  Fs.Dir
                    [("gitkraken",
                      Fs.Dir
                        [("app-9.0.0",
                          Fs.Dir [("resources",
                                   Fs.Dir [("app.asar", Fs.File "asar")])]);
                         ("app-10.0.0", Fs.Dir []);
                         ("packages", Fs.Dir [])])])])])])].

(** A host on Windows; its sort turns a listing in ascending order
    around. *)
Definition windowsHost : Host :=
  mkHost (Some windows) "/home/user" Path.normalize Node.basename Node.extname
    (fun apps => rev apps) "/opt/gitcracken"
    (fun _ => Returns [blank]) Node.applyPatch (fun s => s).

End Sample.

(** ** What the options of a Patcher resolve to *)

(** The archive: the one the options name, or else the one found. *)
Definition resolveAsar (host : Host) (options : Patcher.IPatcherOptions)
  : M (option string) :=
  match Js.orElse (Patcher.opt_asar options) None with
  | Some a => ret (Some a)
  | None => Patcher.findAsar host (Patcher.opt_dir options)
  end.

(** The directory: the one the options name, or else the one next to the
    archive. *)
Definition resolveDir (host : Host) (options : Patcher.IPatcherOptions)
    (asarFile : string) : string :=
  match Js.orElse (Patcher.opt_dir options) None with
  | Some d => d
  | None => Patcher.findDir host asarFile
  end.

Definition cantFind : Js.Error := Js.newError "Can't find app.asar!".
Definition featuresEmpty : Js.Error := Js.newError "Features is empty!".

(** ** Paths made of names *)

(** A path that is made of names, with single slashes between them. *)
Definition descends (b : string) : Prop :=
  Forall (fun n => Path.isName n = true) (Path.pieces b).

(** The pieces that [path.join] keeps of its first argument, and the
    slash it puts in front. *)
Definition kept (a : string) : list string :=
  fold_left (Path.enter (negb (Path.startsWithSlash a))) (Path.pieces a) [].

Definition front (a : string) : string :=
  if Path.startsWithSlash a then "/" else EmptyString.

(** A path whose pieces are its names, after an empty piece for a slash
    in front or pieces [..] that stay at the root. *)
Definition straight (p : string) : Prop :=
  Path.names p <> [] /\
  exists lead,
    Path.pieces p = (lead ++ Path.names p)%list /\
    Forall (fun s => s = "" \/ s = "..") lead.

(** ** The tree an entry is extracted into *)

(** The destination of a file entry is free in [w], or is freed by the
    removal of the directory that stands there, which leaves [w1]. *)
Definition freed (dest : string) (w w1 : World) : Prop :=
  (Fs.existsSync dest (fs w) = false /\ w1 = w) \/
  (exists st,
     Fs.statSync dest (fs w) = Returns st /\ Fs.isFile st = false /\
     Fs.removeSync dest (fs w) = (Returns tt, fs w1) /\
     console w1 = console w).

(** The tree once a directory standing where a file is expected is out
    of the way. *)
Definition cleared (destFilename : string) (tree : Fs.node) : Fs.node :=
  match Fs.get (Path.names destFilename) tree with
  | Some (Fs.Dir _) => Fs.del (Path.names destFilename) tree
  | _ => tree
  end.

(** The library has no Buffer for an entry: it throws, or hands back
    something else. *)
Definition noBuffer (r : Returned Js.Value) : Prop :=
  forall bytes, r <> Returns (Js.VBuffer bytes).

(** The failures the copy of the unpacked files steps over: not found,
    permission denied, access denied. *)
Definition notFoundOrDenied (err : Js.Error) : Prop :=
  Js.code err = Some "ENOENT" \/ Js.code err = Some "EPERM" \/
  Js.code err = Some "EACCES".

(** ** Trees, paths and settled entries *)

(** What stands at a path. *)
Inductive Kind : Type :=
| KNone
| KFile (d : string)
| KDir
| KDenied (c : string).

Definition kind (o : option Fs.node) : Kind :=
  match o with
  | None => KNone
  | Some (Fs.File d) => KFile d
  | Some (Fs.Dir _) => KDir
  | Some (Fs.Denied c) => KDenied c
  end.

Definition kindAt (p : list string) (t : Fs.node) : Kind := kind (Fs.get p t).

(** [p] is [q] or above it. *)
Definition above (p q : list string) : Prop := exists r, q = (p ++ r)%list.

(** A file or an unreadable entry: what [mkdir -p] cannot pass. *)
Definition obstacle (k : Kind) : Prop :=
  (exists d, k = KFile d) \/ (exists c, k = KDenied c).

(** Nothing that counts as existing: [existsSync] is false. *)
Definition vacant (k : Kind) : Prop := k = KNone \/ exists c, k = KDenied c.

(** There is an obstacle at [q] or above it. *)
Definition blocked (q : list string) (t : Fs.node) : Prop :=
  exists r, above r q /\ obstacle (kindAt r t).

(** The segments of the name of an entry, and of its destination. *)
Definition partsOf (filename : string) : list string :=
  Path.segments (Path.stripLeading filename).

Definition destOf (destDir filename : string) : list string :=
  Path.names (Path.join destDir (Path.stripLeading filename)).

(** The entry is in the header, under a name that, its leading
    separators apart, is made of names with single slashes between
    them. *)
Definition listed (header : AsarNode) (filename : string) : Prop :=
  Path.tidy (Path.stripLeading filename) = true /\
  exists_ (getAsarEntryInfo header (Path.stripLeading filename)) = true.

(** What the library says about the archive does not depend on the tree
    it is asked in. *)
Definition steady (asar : Codec) (asarFile : string) : Prop :=
  (forall t t', listPackage asar asarFile t = listPackage asar asarFile t') /\
  (forall t t',
     readArchiveHeaderSync asar asarFile t
       = readArchiveHeaderSync asar asarFile t') /\
  (forall header name t t',
     readArchiveHeaderSync asar asarFile t = Returns header ->
     isUnpacked (getAsarEntryInfo header name) = false ->
     extractFile asar asarFile name t = extractFile asar asarFile name t').

(** An entry the manual extraction has nothing left to do for in a tree:
    a directory entry that exists; a file entry that is there as a regular
    file; or a file entry with nothing that exists in its place that is
    externally stored, or that the library has no Buffer for, or that
    cannot be written (its directory cannot be made, or the entry itself
    is unreadable). *)
Definition settled (asar : Codec) (asarFile destDir : string)
    (header : AsarNode) (tree : Fs.node) (filename : string) : Prop :=
  let name := Path.stripLeading filename in
  let dest := destOf destDir filename in
  let info := getAsarEntryInfo header name in
  let here := kindAt dest tree in
  if isDir info then here = KDir \/ exists d, here = KFile d
  else
    (exists d, here = KFile d) \/
    (vacant here /\
     (isUnpacked info = true \/
      noBuffer (extractFile asar asarFile name tree) \/
      blocked (removelast dest) tree \/
      ((exists c, here = KDenied c) /\
       kindAt (removelast dest) tree = KDir))).

(** The listing of the library names entries of the header. *)
Definition faithful (asar : Codec) (asarFile : string) : Prop :=
  forall names header t,
    listPackage asar asarFile t = Returns names ->
    readArchiveHeaderSync asar asarFile t = Returns header ->
    Forall (listed header) names.

(** ** What a run leaves on the console *)

(** A computation only adds lines to the console. *)
Definition appending {A} (m : M A) : Prop :=
  forall w r w', m w = (r, w') -> exists l, console w' = (console w ++ l)%list.

(** The path of an error names something under the external-storage
    suffix. *)
Definition underUnpacked (err : Js.Error) : Prop :=
  Js.code err = Some "ENOENT" /\
  exists p a b, Js.path err = Some p /\ p = a ++ ".unpacked" ++ b.

(** The run wrote the fallback warning after the console [before]. *)
Definition enteredFallback (before : list string) (out : Result unit * World)
  : Prop :=
  exists rest, console (snd out) = (before ++ fallbackWarning :: rest)%list.

(** ** Copies, patches and searches: what the further properties speak of *)

(** Nothing outside [root] differs between two trees, but for the
    directories made on the way to [root]. *)
Definition confined (root : list string) (t t' : Fs.node) : Prop :=
  forall p, ~ above root p ->
    kindAt p t' = kindAt p t \/
    (kindAt p t = KNone /\ kindAt p t' = KDir /\ above p root).

(** Whatever a computation returns, it leaves the tree so. *)
Definition confines {A} (root : list string) (m : M A) : Prop :=
  forall w, confined root (fs w) (fs (snd (m w))).

(** Every entry of the tree has a name a directory can hold. *)
Fixpoint named (n : Fs.node) : bool :=
  match n with
  | Fs.Dir es =>
      forallb (fun kc => Path.isName (fst kc) && named (snd kc)) es
  | _ => true
  end.

(** From a tree whose entries have names, a computation leaves such a
    tree, with nothing changed outside [root] but for the directories
    made on the way to it. *)
Definition keeps {A} (root : list string) (m : M A) : Prop :=
  forall w, named (fs w) = true ->
    named (fs (snd (m w))) = true /\
    confined root (fs w) (fs (snd (m w))).

(** The names the library lists are, their leading separators apart,
    made of names with single slashes between them. *)
Definition wellNamed (asar : Codec) (asarFile : string) : Prop :=
  forall t names,
    listPackage asar asarFile t = Returns names ->
    Forall (fun f => Path.tidy (Path.stripLeading f) = true) names.

(** Every name in the tree is a name, no directory has a name twice, and
    nothing is unreadable. *)
Fixpoint plain (n : Fs.node) : bool :=
  match n with
  | Fs.File _ => true
  | Fs.Denied _ => false
  | Fs.Dir es =>
      (fix each (l : list (string * Fs.node)) : bool :=
         match l with
         | [] => true
         | (name, child) :: l' =>
             Path.isName name &&
             negb (existsb (String.eqb name) (map fst l')) &&
             plain child && each l'
         end) es
  end.

(** The codes the copy of the unpacked files steps over. *)
Definition stepsOver (c : string) : bool :=
  String.eqb c "ENOENT" || String.eqb c "EPERM" || String.eqb c "EACCES".

(** What is at the destination is what a copy of the source puts there:
    a file with the same bytes for a file, a directory that mirrors it
    entry by entry for a directory; an entry that the copy steps over
    asks for nothing. *)
Fixpoint mirrors (s : Fs.node) (o : option Fs.node) : bool :=
  match s, o with
  | Fs.Denied c, _ => stepsOver c
  | Fs.File d, Some (Fs.File d') => String.eqb d d'
  | Fs.Dir es, Some (Fs.Dir ds) =>
      forallb (fun kc =>
                 Path.isName (fst kc) &&
                 mirrors (snd kc) (Fs.alookup (fst kc) ds)) es
  | _, _ => false
  end.

(** The number of directories on the longest way down. *)
Fixpoint depth (n : Fs.node) : nat :=
  match n with
  | Fs.Dir es =>
      S ((fix each (l : list (string * Fs.node)) : nat :=
            match l with
            | [] => 0
            | (_, child) :: l' => Nat.max (depth child) (each l')
            end) es)
  | _ => 0
  end.

(** What is at the destination leaves room for the source: nothing, a
    file where the source has a file, a directory where it has one. *)
Fixpoint fits (s : Fs.node) (o : option Fs.node) : bool :=
  match s, o with
  | Fs.File _, None => true
  | Fs.File _, Some (Fs.File _) => true
  | Fs.Dir _, None => true
  | Fs.Dir es, Some (Fs.Dir ds) =>
      (fix each (l : list (string * Fs.node)) : bool :=
         match l with
         | [] => true
         | (name, child) :: l' => fits child (Fs.alookup name ds) && each l'
         end) es
  | _, _ => false
  end.

(** What the copy of the entries [l] of a directory into [dest] makes of
    a tree: what the entries hold is at the destination, what else was
    there and everything beside the destination is as before, and the
    directories down to the destination are there. *)
Definition copiedInto (dest : list string) (l : list (string * Fs.node))
    (t t' : Fs.node) : Prop :=
  (forall n ch r, In (n, ch) l -> kind (Fs.get r ch) <> KNone ->
     kindAt (dest ++ n :: r) t' = kind (Fs.get r ch)) /\
  (forall n ch r, In (n, ch) l -> Fs.get r ch = None ->
     kindAt (dest ++ n :: r) t' = kindAt (dest ++ n :: r) t) /\
  (forall p, ~ above p dest ->
     (forall n r, In n (map fst l) -> p <> (dest ++ n :: r)%list) ->
     Fs.get p t' = Fs.get p t) /\
  (l <> [] -> forall p, above p dest -> kindAt p t' = KDir) /\
  (l = [] -> t' = t).

(** What a copy is expected to do with a directory [es] found at
    [srcDir], in at most [fuel] levels. *)
Definition copies (fuel : nat) : Prop :=
  forall srcDir destDir es t c,
    let src := Path.names srcDir in
    let dest := Path.names destDir in
    Fs.find srcDir t = inr (Fs.Dir es) ->
    plain (Fs.Dir es) = true ->
    depth (Fs.Dir es) <= fuel ->
    ~ above src dest -> ~ above dest src ->
    ~ blocked dest t ->
    (forall n ch, In (n, ch) es -> fits ch (Fs.get (dest ++ [n]) t) = true) ->
    exists t',
      copyUnpackedFiles fuel srcDir destDir (mkWorld t c)
        = (Ok tt, mkWorld t' c) /\
      copiedInto dest es t t'.

(** There is no directory of unpacked files, or what it holds is at the
    destination, in no more levels than the copy has room for. *)
Definition seeded (fuel : nat) (unpackedDir destDir : string) (t : Fs.node)
  : Prop :=
  Fs.existsSync unpackedDir t = false \/
  exists es ds,
    Fs.find unpackedDir t = inr (Fs.Dir es) /\
    Fs.find destDir t = inr (Fs.Dir ds) /\
    depth (Fs.Dir es) <= fuel /\
    mirrors (Fs.Dir es) (Some (Fs.Dir ds)) = true.

(** The bulk extraction of the library, run on the tree it left, has the
    same outcome and leaves that tree. *)
Definition repeatable (asar : Codec) (asarFile destDir : string) : Prop :=
  forall t r t',
    extractAll asar asarFile destDir t = (r, t') ->
    extractAll asar asarFile destDir t' = (r, t').

(** A bulk extraction that fails for a missing unpacked file and leaves
    the tree as it is does so too once the manual extraction has run an
    entry of the listing. *)
Definition undisturbed (asar : Codec) (asarFile destDir : string) : Prop :=
  forall names header filename w w' err,
    listPackage asar asarFile (fs w) = Returns names ->
    readArchiveHeaderSync asar asarFile (fs w) = Returns header ->
    In filename names ->
    missingUnpacked err = true ->
    extractAll asar asarFile destDir (fs w) = (Throws err, fs w) ->
    extractEntry asar asarFile destDir header filename w = (Ok tt, w') ->
    extractAll asar asarFile destDir (fs w') = (Throws err, fs w').

(** One turn of the loop of [getAsarEntryInfo]: what [node.files[part]]
    gives from the node reached, [None] standing for the early return. *)
Definition descend (reached : option AsarNode) (part : string)
  : option AsarNode :=
  match reached with
  | Some node =>
      match files node with
      | Some children => property children part
      | None => None
      end
  | None => None
  end.

(** What the loop of [getAsarEntryInfo] has reached at the end of a
    path. *)
Definition nodeAt (header : AsarNode) (filePath : string) : option AsarNode :=
  fold_left descend (Path.segments filePath) (Some header).

(** The body of the loop of [patchDir]. *)
Definition patchFeature (host : Host) (this : Patcher.t) (feature : string)
  : M unit :=
  if String.eqb feature "pro" then Patcher.patchDirWithPro host this
  else Patcher.patchDirWithFeature host this feature.

(** [<baseDir>/patches/<feature>.diff]. *)
Definition diffPath (host : Host) (feature : string) : string :=
  Path.joinAll [baseDir host; "patches"; feature ++ ".diff"].

(** [<homedir>/AppData/Local/gitkraken]. *)
Definition gitkrakenLocal (host : Host) : string :=
  Path.join (homedir host) "AppData/Local/gitkraken".

(** The archive of a version directory. *)
Definition appAsar (host : Host) (app : string) : string :=
  Path.joinAll [gitkrakenLocal host; app; "resources/app.asar"].

(** One or more characters, all of them decimal digits: [\d+]. *)
Fixpoint allDigits (s : string) : bool :=
  match s with
  | EmptyString => false
  | String c EmptyString => Patcher.isDigit c
  | String c s' => Patcher.isDigit c && allDigits s'
  end.

(** What a manual pass that returns leaves at the destination of an
    entry, read off the tree [t0] it starts in: a file or an unreadable
    entry that is there stays; a directory entry is a directory; a file
    entry is written with the bytes the library has for it when it is
    packed and its directory can be made, and is absent otherwise. *)
Definition outcome (asar : Codec) (asarFile destDir : string)
    (header : AsarNode) (t0 : Fs.node) (filename : string) : Kind :=
  let name := Path.stripLeading filename in
  let dest := destOf destDir filename in
  let info := getAsarEntryInfo header name in
  match kindAt dest t0 with
  | KFile d => KFile d
  | KDenied c => KDenied c
  | _ =>
      if isDir info then KDir
      else if isUnpacked info then KNone
      else
        match extractFile asar asarFile name t0,
              Fs.mkdirp (removelast dest) t0 with
        | Returns (Js.VBuffer bytes), inr _ => KFile bytes
        | _, _ => KNone
        end
  end.

(** An entry the pass has not dealt with yet: what is at its destination
    is what was there at the start, or a directory made on the way to
    another entry. *)
Definition awaiting (destDir : string) (header : AsarNode)
    (t0 t : Fs.node) (g : string) : Prop :=
  kindAt (destOf destDir g) t = kindAt (destOf destDir g) t0 \/
  (isDir (getAsarEntryInfo header (Path.stripLeading g)) = true /\
   kindAt (destOf destDir g) t0 = KNone /\
   kindAt (destOf destDir g) t = KDir).

Definition onCourse (asar : Codec) (asarFile destDir : string)
    (header : AsarNode) (t0 t : Fs.node) (g : string) : Prop :=
  kindAt (destOf destDir g) t = outcome asar asarFile destDir header t0 g \/
  awaiting destDir header t0 t g.

(** The files and unreadable entries above the directory of an entry are
    those of the start. *)
Definition sameObstacles (destDir : string) (t0 t : Fs.node) (g : string)
  : Prop :=
  forall r, above r (removelast (destOf destDir g)) ->
    (obstacle (kindAt r t) <-> obstacle (kindAt r t0)).

(** What the manual extraction may write about one entry: nothing, or
    one of its two warnings. *)
Definition reports (name : string) (lines : list string) : Prop :=
  lines = [] \/ lines = [skippingMissing name] \/
  exists err, lines = [failedToExtract name err].

(** The lines a computation writes all satisfy [P]. *)
Definition writesOnly {A} (P : string -> Prop) (m : M A) : Prop :=
  forall w, exists lines,
    console (snd (m w)) = (console w ++ lines)%list /\ Forall P lines.

(** A warning of the copy about something below [srcDir]: its path is
    [srcDir] with the names of one or more entries joined to it. *)
Definition inaccessibleBelow (srcDir line : string) : Prop :=
  exists item items,
    line = skippingInaccessible (fold_left Path.join (item :: items) srcDir).

(** * Properties *)

(** ** The model at work *)

Example segments_mixed :
  Path.segments "/node_modules//nodegit\build/" =
  ["node_modules"; "nodegit"; "build"].
Proof. reflexivity. Qed.

Example lookup_unpacked_directory :
  getAsarEntryInfo (Reference.header Sample.native) "/native" =
  mkEntryInfo true true true.
Proof. reflexivity. Qed.

Example lookup_below_a_file :
  getAsarEntryInfo (Reference.header Sample.app) "main.js/x" = notFound.
Proof. reflexivity. Qed.

Example app_directories :
  map Patcher.isAppDir
    ["app-9.1.0"; "app-10.22.333"; "app-1.2"; "app-1.2.3-beta"]
  = [true; true; false; false].
Proof. reflexivity. Qed.

(** A first extraction of [app] with nothing next to the archive: the
    bulk extraction fails on the module, the manual pass reports it and
    writes the script. *)
Example extraction_with_fallback :
  extractAsarWithUnpacked (Reference.codec Sample.app) 1 "app.asar" "out"
    (Sample.start Sample.bare) =
  (Ok tt,
   mkWorld
     (Fs.Dir [("app.asar", Fs.File "asar");
              ("out", Fs.Dir [("main.js", Fs.File "console.log(1)")])])
     [fallbackWarning; "Warning: Skipping missing unpacked file: addon.node"]).
Proof. reflexivity. Qed.

(** An extraction of [two] with one of its modules next to the archive:
    the pre-seed copies that module, the bulk extraction fails on the
    other one, and the manual pass leaves the first as it is, reports the
    second and writes the script. *)
Example extraction_with_one_module :
  extractAsarWithUnpacked (Reference.codec Sample.two) 2 "app.asar" "out"
    (Sample.start Sample.seeded) =
  (Ok tt,
   mkWorld
     (Fs.Dir [("app.asar", Fs.File "asar");
              ("app.asar.unpacked",
               Fs.Dir [("helper.node", Fs.File "binary")]);
              ("out", Fs.Dir [("helper.node", Fs.File "binary");
                              ("main.js", Fs.File "console.log(1)")])])
     [fallbackWarning; "Warning: Skipping missing unpacked file: addon.node"]).
Proof. reflexivity. Qed.

(** [path.join] normalizes what it puts together, and [path.dirname] of
    a bare name is the current directory. *)
Example join_normalizes :
  Path.join "out" "a//b/./c" = "out/a/b/c" /\
  Path.join "out" "../evil.js" = "evil.js" /\
  Path.join "app.asar.unpacked/" "secret" = "app.asar.unpacked/secret" /\
  Path.join "/" ".." = "/" /\
  Path.normalize "a/../../b/" = "../b/" /\
  Path.dirname "out/lib/a.js" = "out/lib" /\
  Path.dirname "main.js" = ".".
Proof. repeat split. Qed.

(** A backslash separates the names of the header lookup and is a
    character like any other for [path.join]. *)
Example backslash_in_a_name :
  Path.segments "lib\a.js" = ["lib"; "a.js"] /\
  Path.join "out" "lib\a.js" = "out/lib\a.js" /\
  Path.names "out/lib\a.js" = ["out"; "lib\a.js"].
Proof. repeat split. Qed.

(** The lookup finds what every object inherits. *)
Example lookup_inherited :
  getAsarEntryInfo (Reference.header Sample.app) "constructor" =
  mkEntryInfo false false true.
Proof. reflexivity. Qed.

(** A removal stops at the first entry it cannot remove, with what came
    before it gone. *)
Example removal_stops :
  Fs.removeSync "out/addon.node" Sample.guarded =
  (Throws (Js.sysError "EACCES" "lstat" "out/addon.node/build/lock"),
   Sample.guardedLeft) /\
  Js.message (Js.sysError "EACCES" "lstat" "out/addon.node/build/lock") =
  "EACCES: permission denied, lstat 'out/addon.node/build/lock'".
Proof. split; reflexivity. Qed.

(** A unit that renames: the old path is gone and the new one holds the
    patched text. *)
Example rename_patch :
  let out := Patcher.patchDirWithPatch Sample.host Sample.patcher
               Sample.goodHunks (Sample.start (Sample.extracted "x")) in
  fst out = Ok tt /\
  Fs.existsSync "app/src/a.js" (fs (snd out)) = false /\
  Fs.readFileSync "app/src/b.js" (fs (snd out)) =
  Returns ("ONE" ++ Node.newline ++ "two" ++ Node.newline ++ "THREE").
Proof. repeat split. Qed.

(** ** Strings *)

Lemma append_empty_r (s : string) : s ++ EmptyString = s.
Proof. induction s as [|c s IH]; simpl; [reflexivity | now rewrite IH]. Qed.

Lemma append_assoc (a b c : string) : (a ++ b) ++ c = a ++ (b ++ c).
Proof. induction a as [|x a IH]; simpl; [reflexivity | now rewrite IH]. Qed.

Lemma startsWith_spec (p s : string) :
  Js.startsWith p s = true <-> exists b, s = p ++ b.
Proof.
  revert s; induction p as [|a p IH]; intros s; simpl.
  - split; [intros _; now exists s | reflexivity].
  - destruct s as [|b s].
    + split; [discriminate | intros [x Hx]; discriminate].
    + rewrite andb_true_iff, Ascii.eqb_eq, IH. split.
      * intros [-> [x ->]]. now exists x.
      * intros [x Hx]. injection Hx as -> ->.
        split; [reflexivity | now exists x].
Qed.

Lemma includes_spec (p s : string) :
  Js.includes p s = true <-> exists a b, s = a ++ p ++ b.
Proof.
  split.
  - induction s as [|c s IH]; simpl; rewrite orb_true_iff; intros [H | H].
    + apply startsWith_spec in H as [b Hb]. now exists EmptyString, b.
    + discriminate.
    + apply startsWith_spec in H as [b Hb]. now exists EmptyString, b.
    + destruct (IH H) as (a & b & ->). now exists (String c a), b.
  - intros (a & b & ->). induction a as [|c a IH].
    + simpl. destruct (p ++ b) eqn:E; simpl; apply orb_true_iff; left;
        apply startsWith_spec; exists b; now rewrite E.
    + simpl. apply orb_true_iff. right. exact IH.
Qed.

Lemma includes_empty (p : string) :
  Js.truthy p = true -> Js.includes p EmptyString = false.
Proof. destruct p; [discriminate | reflexivity]. Qed.

(** ** Paths *)

Lemma split_not_nil (s : string) : Path.split s <> [].
Proof.
  induction s as [|c s IH]; simpl; [discriminate|].
  destruct (Path.is_sep c); [discriminate|].
  destruct (Path.split s); discriminate.
Qed.

Lemma split_app_sep (a b : string) (c : ascii) :
  Path.is_sep c = true ->
  Path.split (a ++ String c b) = (Path.split a ++ Path.split b)%list.
Proof.
  intros Hc. induction a as [|x a IH]; simpl.
  - now rewrite Hc.
  - destruct (Path.is_sep x); rewrite IH; [reflexivity|].
    destruct (Path.split a) eqn:E; [now apply split_not_nil in E | reflexivity].
Qed.

Lemma segments_app_sep (a b : string) (c : ascii) :
  Path.is_sep c = true ->
  Path.segments (a ++ String c b) = (Path.segments a ++ Path.segments b)%list.
Proof.
  intros Hc. unfold Path.segments. rewrite (split_app_sep _ _ _ Hc).
  apply filter_app.
Qed.

Lemma split_sepFree (s : string) : Path.sepFree s = true -> Path.split s = [s].
Proof.
  induction s as [|c s IH]; simpl; [reflexivity|].
  rewrite andb_true_iff, negb_true_iff. intros [Hc Hs].
  now rewrite Hc, (IH Hs).
Qed.

Lemma segments_name (s : string) :
  Path.isSegment s = true -> Path.segments s = [s].
Proof.
  unfold Path.isSegment, Path.segments. rewrite andb_true_iff. intros [Ht Hs].
  rewrite (split_sepFree _ Hs). simpl. now rewrite Ht.
Qed.

Lemma split_all_sepFree (s : string) :
  Forall (fun p => Path.sepFree p = true) (Path.split s).
Proof.
  induction s as [|c s IH]; simpl.
  - now repeat constructor.
  - destruct (Path.is_sep c) eqn:Hc.
    + now constructor.
    + destruct (Path.split s) as [|p ps];
        [now repeat constructor; simpl; rewrite Hc|].
      inversion IH; subst. constructor; [simpl; now rewrite Hc | assumption].
Qed.

Lemma segments_all_names (s : string) :
  Forall (fun p => Path.isSegment p = true) (Path.segments s).
Proof.
  unfold Path.segments. pose proof (split_all_sepFree s) as H.
  induction H as [|p ps Hp _ IH]; simpl; [constructor|].
  destruct (Js.truthy p) eqn:Ht; [constructor|]; try assumption.
  unfold Path.isSegment. now rewrite Ht, Hp.
Qed.

Lemma segments_concat (l : list string) :
  Forall (fun p => Path.isSegment p = true) l ->
  Path.segments (String.concat "/" l) = l.
Proof.
  induction 1 as [|x l Hx Hl IH]; [reflexivity|].
  destruct l as [|y l].
  - simpl. now apply segments_name.
  - change (String.concat "/" (x :: y :: l))
      with (x ++ String "/"%char (String.concat "/" (y :: l))).
    rewrite segments_app_sep by reflexivity.
    now rewrite IH, (segments_name _ Hx).
Qed.

Lemma Forall_removelast {A} (P : A -> Prop) (l : list A) :
  Forall P l -> Forall P (removelast l).
Proof.
  induction 1 as [|x l Hx Hl IH]; simpl; [constructor|].
  destruct l; [constructor | now constructor].
Qed.

(** ** Paths on a POSIX system *)

Lemma pieces_not_nil (s : string) : Path.pieces s <> [].
Proof.
  induction s as [|c s IH]; simpl; [discriminate|].
  destruct (Ascii.eqb c "/"); [discriminate|].
  destruct (Path.pieces s); discriminate.
Qed.

Lemma pieces_app_slash (a b : string) :
  Path.pieces (a ++ String "/" b) = (Path.pieces a ++ Path.pieces b)%list.
Proof.
  induction a as [|x a IH]; simpl; [reflexivity|].
  destruct (Ascii.eqb x "/"); rewrite IH; [reflexivity|].
  destruct (Path.pieces a) eqn:E; [now apply pieces_not_nil in E | reflexivity].
Qed.

Lemma pieces_slashFree (s : string) :
  Path.slashFree s = true -> Path.pieces s = [s].
Proof.
  induction s as [|c s IH]; simpl; [reflexivity|].
  rewrite andb_true_iff, negb_true_iff. intros [Hc Hs].
  now rewrite Hc, (IH Hs).
Qed.

Lemma pieces_all_slashFree (s : string) :
  Forall (fun p => Path.slashFree p = true) (Path.pieces s).
Proof.
  induction s as [|c s IH]; simpl.
  - now repeat constructor.
  - destruct (Ascii.eqb c "/") eqn:Hc.
    + now constructor.
    + destruct (Path.pieces s) as [|p ps];
        [now repeat constructor; simpl; rewrite Hc|].
      inversion IH; subst. constructor; [simpl; now rewrite Hc | assumption].
Qed.

Lemma concat_snoc (l : list string) (n : string) :
  l <> [] ->
  String.concat "/" (l ++ [n]) = String.concat "/" l ++ String "/" n.
Proof.
  induction l as [|x l IH]; [now intros []|]. intros _.
  destruct l as [|y l]; [reflexivity|].
  change (String.concat "/" ((x :: y :: l) ++ [n]))
    with (x ++ String "/" (String.concat "/" ((y :: l) ++ [n]))).
  rewrite IH by discriminate.
  change (String.concat "/" (x :: y :: l))
    with (x ++ String "/" (String.concat "/" (y :: l))).
  now rewrite append_assoc.
Qed.

Lemma pieces_concat (l : list string) :
  l <> [] -> Forall (fun p => Path.slashFree p = true) l ->
  Path.pieces (String.concat "/" l) = l.
Proof.
  intros Hl H. induction H as [|x l Hx Hrest IH]; [now destruct Hl|].
  destruct l as [|y l].
  - simpl. now apply pieces_slashFree.
  - change (String.concat "/" (x :: y :: l))
      with (x ++ String "/" (String.concat "/" (y :: l))).
    rewrite pieces_app_slash, IH by discriminate.
    now rewrite (pieces_slashFree _ Hx).
Qed.

(** *** Names *)

Lemma isName_slashFree (n : string) :
  Path.isName n = true -> Path.slashFree n = true.
Proof.
  unfold Path.isName. rewrite !andb_true_iff. now intros [[[_ H] _] _].
Qed.

Lemma isName_truthy (n : string) : Path.isName n = true -> Js.truthy n = true.
Proof.
  unfold Path.isName. rewrite !andb_true_iff. now intros [[[H _] _] _].
Qed.

Lemma isName_not_dots (n : string) :
  Path.isName n = true -> n <> ".." /\ n <> "." /\ n <> "".
Proof.
  unfold Path.isName. rewrite !andb_true_iff, !negb_true_iff.
  intros [[[H0 _] H1] H2]. repeat split; intros ->; discriminate.
Qed.

(** A piece is dropped, is [..], or is a name. *)
Lemma piece_cases (p : string) :
  Path.slashFree p = true ->
  p = "" \/ p = "." \/ p = ".." \/ Path.isName p = true.
Proof.
  intros Hs. unfold Path.isName. rewrite Hs.
  destruct (String.eqb_spec p ""); [now left|].
  destruct (String.eqb_spec p "."); [now right; left|].
  destruct (String.eqb_spec p ".."); [now right; right; left|].
  right. right. right. destruct p; [contradiction | reflexivity].
Qed.

Lemma enter_name (allow : bool) (res : list string) (n : string) :
  Path.isName n = true -> Path.enter allow res n = (res ++ [n])%list.
Proof.
  intros H. destruct (isName_not_dots _ H) as (H1 & H2 & H3).
  unfold Path.enter.
  destruct (String.eqb_spec n ""); [contradiction|].
  destruct (String.eqb_spec n "."); [contradiction|].
  destruct (String.eqb_spec n ".."); [contradiction|]. reflexivity.
Qed.

Lemma enter_names (allow : bool) (res ns : list string) :
  Forall (fun n => Path.isName n = true) ns ->
  fold_left (Path.enter allow) ns res = (res ++ ns)%list.
Proof.
  intros H. revert res. induction H as [|n ns Hn _ IH]; intros res; simpl.
  - now rewrite app_nil_r.
  - rewrite (enter_name _ _ _ Hn), IH. now rewrite <- app_assoc.
Qed.

Lemma last_app_names (a b : list string) :
  b <> [] -> last (a ++ b) EmptyString = last b EmptyString.
Proof.
  intros Hb. induction a as [|x a IH]; [reflexivity|].
  simpl. destruct (a ++ b)%list eqn:E; [|exact IH].
  apply app_eq_nil in E. now destruct E.
Qed.

Lemma last_repeat (k : nat) :
  last (repeat ".." (S k)) EmptyString = "..".
Proof. induction k as [|k IH]; [reflexivity|]. exact IH. Qed.

Lemma last_name_not_up (rf : list string) :
  rf <> [] -> Forall (fun n => Path.isName n = true) rf ->
  last rf EmptyString <> "..".
Proof.
  intros Hne H. destruct (exists_last Hne) as (q & s & ->).
  rewrite last_last. apply Forall_app in H as [_ H].
  inversion H; subst. now apply isName_not_dots.
Qed.

Lemma repeat_snoc (k : nat) :
  (repeat ".." k ++ [".."])%list = repeat ".." (S k).
Proof. induction k as [|k IH]; simpl; [reflexivity|]. now rewrite IH. Qed.

(** One piece, for a path that may climb and for one that may not: the
    first keeps in front the [..] that the second drops. *)
Lemma enter_step (k : nat) (rf : list string) (p : string) :
  Forall (fun n => Path.isName n = true) rf ->
  Path.slashFree p = true ->
  Forall (fun n => Path.isName n = true) (Path.enter false rf p) /\
  exists k',
    Path.enter true (repeat ".." k ++ rf)%list p =
    (repeat ".." k' ++ Path.enter false rf p)%list.
Proof.
  intros Hrf Hp.
  destruct (piece_cases p Hp) as [-> | [-> | [-> | Hn]]].
  - split; [exact Hrf | now exists k].
  - split; [exact Hrf | now exists k].
  - destruct rf as [|x rf].
    + split; [constructor|]. rewrite app_nil_r. exists (S k).
      destruct k as [|k]; [reflexivity|].
      unfold Path.enter. cbn [String.eqb Ascii.eqb Bool.eqb orb].
      rewrite last_repeat. cbn [repeat]. cbn [String.eqb Ascii.eqb Bool.eqb].
      rewrite app_nil_r.
      change (".." :: repeat ".." k) with (repeat ".." (S k)).
      now rewrite repeat_snoc.
    + assert (Hl : last (x :: rf) EmptyString <> "..")
        by (apply last_name_not_up; [discriminate | exact Hrf]).
      split.
      * unfold Path.enter. cbn [String.eqb Ascii.eqb Bool.eqb orb].
        destruct (String.eqb_spec (last (x :: rf) EmptyString) "..");
          [contradiction|]. now apply Forall_removelast.
      * exists k. unfold Path.enter. cbn [String.eqb Ascii.eqb Bool.eqb orb].
        destruct (String.eqb_spec (last (x :: rf) EmptyString) "..");
          [contradiction|].
        destruct (repeat ".." k ++ x :: rf)%list eqn:E;
          [now destruct k|]. rewrite <- E.
        rewrite last_app_names by discriminate.
        destruct (String.eqb_spec (last (x :: rf) EmptyString) "..");
          [contradiction|].
        now rewrite removelast_app by discriminate.
  - rewrite !(enter_name _ _ _ Hn). split.
    + apply Forall_app. split; [exact Hrf | now repeat constructor].
    + exists k. now rewrite app_assoc.
Qed.

Lemma enter_fold (ps : list string) (k : nat) (rf : list string) :
  Forall (fun n => Path.isName n = true) rf ->
  Forall (fun p => Path.slashFree p = true) ps ->
  Forall (fun n => Path.isName n = true) (fold_left (Path.enter false) ps rf) /\
  exists k',
    fold_left (Path.enter true) ps (repeat ".." k ++ rf)%list =
    (repeat ".." k' ++ fold_left (Path.enter false) ps rf)%list.
Proof.
  intros Hrf Hps. revert k rf Hrf.
  induction Hps as [|p ps Hp _ IH]; intros k rf Hrf; simpl.
  - split; [exact Hrf | now exists k].
  - destruct (enter_step k rf p Hrf Hp) as (Hn & k1 & ->).
    exact (IH k1 _ Hn).
Qed.

(** What a path leads through is made of names. *)
Lemma names_isName (p : string) :
  Forall (fun n => Path.isName n = true) (Path.names p).
Proof.
  unfold Path.names.
  apply (enter_fold (Path.pieces p) 0 []); [constructor|].
  apply pieces_all_slashFree.
Qed.

Lemma tidy_descends (b : string) : Path.tidy b = true -> descends b.
Proof.
  unfold Path.tidy, descends. rewrite forallb_forall, Forall_forall.
  intros H n Hn. specialize (H n Hn). now apply andb_true_iff in H.
Qed.

Lemma isName_descends (n : string) : Path.isName n = true -> descends n.
Proof.
  intros H. unfold descends.
  rewrite (pieces_slashFree _ (isName_slashFree _ H)). now repeat constructor.
Qed.

Lemma descends_truthy (b : string) : descends b -> Js.truthy b = true.
Proof.
  unfold descends. destruct b; [|reflexivity].
  simpl. intros H. inversion H; subst. discriminate.
Qed.

(** *** Strings that end in a slash *)

Lemma endsWithSlash_cons (c : ascii) (s : string) :
  s <> EmptyString -> Path.endsWithSlash (String c s) = Path.endsWithSlash s.
Proof. destruct s; [now intros []|reflexivity]. Qed.

Lemma endsWithSlash_app (a b : string) :
  b <> EmptyString -> Path.endsWithSlash (a ++ b) = Path.endsWithSlash b.
Proof.
  intros Hb. induction a as [|c a IH]; [reflexivity|]. simpl append.
  rewrite endsWithSlash_cons; [exact IH|].
  destruct a; [exact Hb | discriminate].
Qed.

Lemma slashFree_not_trailing (s : string) :
  Path.slashFree s = true -> Path.endsWithSlash s = false.
Proof.
  induction s as [|c s IH]; [reflexivity|]. simpl.
  rewrite andb_true_iff, negb_true_iff. intros [Hc Hs].
  destruct s; [exact Hc | now apply IH].
Qed.

Lemma concat_not_trailing (l : list string) (n : string) :
  Path.slashFree n = true -> n <> EmptyString ->
  Path.endsWithSlash (String.concat "/" (l ++ [n])) = false.
Proof.
  intros Hn Hne. destruct l as [|x l].
  - simpl. now apply slashFree_not_trailing.
  - rewrite concat_snoc by discriminate.
    rewrite endsWithSlash_app by discriminate.
    rewrite endsWithSlash_cons by exact Hne.
    now apply slashFree_not_trailing.
Qed.

(** *** What [path.join] gives for a relative path made of names *)

Lemma kept_names (a : string) :
  exists k, kept a = (repeat ".." k ++ Path.names a)%list.
Proof.
  unfold kept, Path.names. destruct (Path.startsWithSlash a); simpl.
  - now exists 0.
  - destruct (enter_fold (Path.pieces a) 0 [])
      as (_ & k & H); [constructor | apply pieces_all_slashFree|].
    now exists k.
Qed.

Lemma kept_slashFree (a : string) :
  Forall (fun p => Path.slashFree p = true) (kept a).
Proof.
  destruct (kept_names a) as [k ->]. apply Forall_app. split.
  - apply Forall_forall. intros x Hx. apply repeat_spec in Hx. now subst.
  - eapply Forall_impl; [|apply names_isName]. apply isName_slashFree.
Qed.

Lemma descends_slashFree (b : string) :
  descends b -> Forall (fun p => Path.slashFree p = true) (Path.pieces b).
Proof. apply Forall_impl, isName_slashFree. Qed.

Lemma descends_last (b : string) :
  descends b ->
  exists bs n, Path.pieces b = (bs ++ [n])%list /\ Path.isName n = true /\
               Forall (fun x => Path.isName x = true) bs.
Proof.
  intros H. destruct (exists_last (pieces_not_nil b)) as (bs & n & E).
  exists bs, n. unfold descends in H. rewrite E in *.
  apply Forall_app in H as [H1 H2]. inversion H2; subst. now repeat split.
Qed.

Lemma descends_relative (b : string) :
  descends b -> Path.startsWithSlash b = false.
Proof.
  unfold descends. destruct b as [|c b]; [reflexivity|]. simpl.
  destruct (Ascii.eqb c "/"); [|reflexivity].
  intros H. inversion H; subst. discriminate.
Qed.

Lemma concat_pieces (s : string) : String.concat "/" (Path.pieces s) = s.
Proof.
  induction s as [|c s IH]; [reflexivity|]. simpl.
  destruct (Ascii.eqb_spec c "/") as [->|Hc].
  - destruct (Path.pieces s) eqn:E; [now apply pieces_not_nil in E|].
    change (String.concat "/" ("" :: s0 :: l))
      with (String "/" (String.concat "/" (s0 :: l))).
    now rewrite IH.
  - destruct (Path.pieces s) as [|p ps] eqn:E; [now apply pieces_not_nil in E|].
    destruct ps as [|q ps]; simpl in *; now rewrite <- IH.
Qed.

Lemma descends_not_trailing (b : string) :
  descends b -> Path.endsWithSlash b = false.
Proof.
  intros H. destruct (descends_last b H) as (bs & n & E & Hn & _).
  rewrite <- (concat_pieces b), E.
  apply concat_not_trailing; [now apply isName_slashFree|].
  intros ->. discriminate.
Qed.

Lemma concat_truthy (l : list string) (n : string) :
  Path.isName n = true -> String.concat "/" (l ++ [n]) <> EmptyString.
Proof.
  intros Hn. destruct l as [|x l].
  - simpl. intros ->. discriminate.
  - rewrite concat_snoc by discriminate.
    now destruct (String.concat "/" (x :: l)).
Qed.

Lemma startsWithSlash_app (a b : string) :
  a <> EmptyString -> Path.startsWithSlash (a ++ b) = Path.startsWithSlash a.
Proof. destruct a; [now intros []|reflexivity]. Qed.

Lemma normalize_truthy (s : string) :
  s <> EmptyString ->
  Path.normalize s =
  match Path.normalizeString s (negb (Path.startsWithSlash s)) with
  | EmptyString =>
      if Path.startsWithSlash s then "/"
      else if Path.endsWithSlash s then "./" else "."
  | body =>
      (if Path.startsWithSlash s then "/" else EmptyString) ++ body ++
      (if Path.endsWithSlash s then "/" else EmptyString)
  end.
Proof. destruct s; [now intros [] | reflexivity]. Qed.

(** [path.join(a, b)] is the slash of [a], if it has one in front, what
    is kept of [a], and the names of [b]. *)
Lemma join_descends (a b : string) :
  descends b ->
  Path.join a b = front a ++ String.concat "/" (kept a ++ Path.pieces b).
Proof.
  intros Hb. destruct (descends_last b Hb) as (bs & n & E & Hn & Hbs).
  pose proof (descends_truthy b Hb) as Tb.
  assert (Hb0 : b <> EmptyString) by (intros ->; discriminate).
  unfold Path.join, Path.joinAll. cbn [filter].
  rewrite Tb. destruct a as [|c a].
  - cbn [Js.truthy String.concat]. unfold front, kept.
    cbn [Path.startsWithSlash].
    cbn [negb Path.pieces fold_left Path.enter String.eqb orb app append].
    rewrite (normalize_truthy b Hb0).
    rewrite (descends_relative _ Hb), (descends_not_trailing _ Hb).
    unfold Path.normalizeString. cbn [negb].
    rewrite (enter_names true [] _ Hb). cbn [app].
    rewrite concat_pieces.
    destruct b; [contradiction|]. now rewrite append_empty_r.
  - cbn [Js.truthy]. 
    change (String.concat "/" [String c a; b])
      with (String c a ++ String "/" b).
    set (s := String c a ++ String "/" b).
    rewrite (normalize_truthy s) by discriminate.
    assert (Ha : Path.startsWithSlash s = Path.startsWithSlash (String c a))
      by reflexivity.
    rewrite Ha.
    assert (Ht : Path.endsWithSlash s = false).
    { unfold s. rewrite endsWithSlash_app by discriminate.
      rewrite endsWithSlash_cons by exact Hb0.
      now apply descends_not_trailing. }
    rewrite Ht. unfold Path.normalizeString, s.
    rewrite pieces_app_slash, fold_left_app.
    fold (kept (String c a)). rewrite (enter_names _ _ _ Hb).
    rewrite E, app_assoc.
    destruct (String.concat "/" ((kept (String c a) ++ bs) ++ [n])) eqn:Ec;
      [now apply concat_truthy in Ec|].
    unfold front. now rewrite append_empty_r.
Qed.

Lemma fold_lead (lead ns : list string) :
  Forall (fun s => s = "" \/ s = "..") lead ->
  fold_left (Path.enter false) (lead ++ ns) [] =
  fold_left (Path.enter false) ns [].
Proof.
  intros H. induction H as [|x lead Hx _ IH]; [reflexivity|].
  simpl. destruct Hx as [-> | ->]; exact IH.
Qed.

(** The pieces of a joined path: an empty piece for the slash in front
    and the [..] it keeps, then the names it leads through. *)
Lemma join_pieces (a b : string) :
  descends b ->
  exists lead,
    Path.pieces (Path.join a b)
      = (lead ++ Path.names a ++ Path.pieces b)%list /\
    Forall (fun s => s = "" \/ s = "..") lead.
Proof.
  intros Hb. rewrite (join_descends a b Hb).
  destruct (kept_names a) as [k Hk].
  destruct (descends_last b Hb) as (bs & n & E & Hn & Hbs).
  assert (Hp : Path.pieces (String.concat "/" (kept a ++ Path.pieces b))
               = (kept a ++ Path.pieces b)%list).
  { apply pieces_concat.
    - rewrite E. intros H. apply app_eq_nil in H as [_ H].
      now apply app_eq_nil in H as [_ H].
    - apply Forall_app. split;
        [apply kept_slashFree | now apply descends_slashFree]. }
  assert (Hups : Forall (fun s => s = "" \/ s = "..") (repeat ".." k))
    by (apply Forall_forall; intros x Hx; apply repeat_spec in Hx; now right).
  unfold front. destruct (Path.startsWithSlash a).
  - exists ("" :: repeat ".." k)%list. split.
    + change ("/" ++ ?x) with (String "/" x).
      cbn [Path.pieces Ascii.eqb Bool.eqb].
      rewrite Hp, Hk. now rewrite <- app_assoc.
    + constructor; [now left | exact Hups].
  - exists (repeat ".." k). split; [|exact Hups].
    cbn [append]. rewrite Hp, Hk. now rewrite <- app_assoc.
Qed.

Lemma join_names (a b : string) :
  descends b ->
  Path.names (Path.join a b) = (Path.names a ++ Path.pieces b)%list.
Proof.
  intros Hb. destruct (join_pieces a b Hb) as (lead & Hp & Hl).
  unfold Path.names at 1. rewrite Hp, (fold_lead _ _ Hl), fold_left_app.
  rewrite (enter_names _ _ _ (names_isName a)). cbn [app].
  now rewrite (enter_names _ _ _ Hb).
Qed.

Lemma join_name (a n : string) :
  Path.isName n = true ->
  Path.names (Path.join a n) = (Path.names a ++ [n])%list.
Proof.
  intros Hn. rewrite (join_names a n (isName_descends n Hn)).
  now rewrite (pieces_slashFree _ (isName_slashFree _ Hn)).
Qed.

Lemma join_truthy (a b : string) :
  descends b -> Path.join a b <> EmptyString.
Proof.
  intros Hb H. pose proof (join_names a b Hb) as Hn.
  rewrite H in Hn. unfold Path.names at 1 in Hn. simpl in Hn.
  destruct (descends_last b Hb) as (bs & n & E & _). rewrite E in Hn.
  symmetry in Hn. apply app_eq_nil in Hn as [_ Hn].
  now apply app_eq_nil in Hn as [_ Hn].
Qed.

(** *** [path.dirname] of a joined path *)

Lemma beforeLastName_slashFree (n : string) :
  Path.slashFree n = true -> Path.beforeLastName n = None.
Proof.
  induction n as [|c n IH]; [reflexivity|]. simpl.
  rewrite andb_true_iff, negb_true_iff. intros [Hc Hn].
  now rewrite (IH Hn), Hc.
Qed.

Lemma hasName_slashFree (n : string) :
  Path.slashFree n = true -> n <> EmptyString -> Path.hasName n = true.
Proof.
  destruct n as [|c n]; [now intros _ []|]. simpl.
  rewrite andb_true_iff, negb_true_iff. now intros [-> _] _.
Qed.

Lemma beforeLastName_snoc (s n : string) :
  Path.slashFree n = true -> n <> EmptyString ->
  Path.beforeLastName (s ++ String "/" n) = Some s.
Proof.
  intros Hn Hne. induction s as [|c s IH]; simpl.
  - now rewrite (beforeLastName_slashFree _ Hn), (hasName_slashFree _ Hn Hne).
  - now rewrite IH.
Qed.

Lemma dirname_snoc (s n : string) :
  s <> EmptyString -> Path.endsWithSlash s = false ->
  Path.slashFree n = true -> n <> EmptyString ->
  Path.dirname (s ++ String "/" n) = s.
Proof.
  intros Hs Ht Hn Hne. destruct s as [|c s]; [now destruct Hs|].
  simpl append. unfold Path.dirname.
  rewrite (beforeLastName_snoc s n Hn Hne).
  destruct s; [|reflexivity].
  simpl in Ht. now rewrite Ht.
Qed.

Lemma dirname_name (n : string) :
  Path.slashFree n = true -> n <> EmptyString -> Path.dirname n = ".".
Proof.
  intros Hn Hne. destruct n as [|c n]; [now destruct Hne|].
  simpl in Hn. apply andb_true_iff in Hn as [Hc Hn].
  apply negb_true_iff in Hc. unfold Path.dirname.
  now rewrite (beforeLastName_slashFree _ Hn), Hc.
Qed.

Lemma dirname_root_name (n : string) :
  Path.slashFree n = true -> Path.dirname (String "/" n) = "/".
Proof.
  intros Hn. unfold Path.dirname. now rewrite (beforeLastName_slashFree _ Hn).
Qed.

(** The directory of a joined path is one name up. *)
Lemma dirname_join (a b : string) :
  descends b ->
  Path.names (Path.dirname (Path.join a b)) =
  removelast (Path.names a ++ Path.pieces b)%list.
Proof.
  intros Hb. rewrite (join_descends a b Hb).
  destruct (descends_last b Hb) as (bs & n & E & Hn & Hbs).
  destruct (kept_names a) as [k Hk].
  pose proof (isName_slashFree _ Hn) as Sn.
  assert (Nn : n <> EmptyString) by (intros ->; discriminate).
  rewrite E, !app_assoc, removelast_last.
  assert (Hups : Forall (fun s => s = "" \/ s = "..") (repeat ".." k))
    by (apply Forall_forall; intros x Hx; apply repeat_spec in Hx; now right).
  destruct (kept a ++ bs)%list as [|x l] eqn:EL.
  - apply app_eq_nil in EL as [Ea ->]. rewrite Ea in Hk.
    symmetry in Hk. apply app_eq_nil in Hk as [_ ->].
    cbn [app String.concat]. unfold front.
    destruct (Path.startsWithSlash a).
    + change ("/" ++ n) with (String "/" n).
      now rewrite (dirname_root_name _ Sn).
    + cbn [append]. now rewrite (dirname_name _ Sn Nn).
  - rewrite concat_snoc by discriminate. rewrite <- append_assoc.
    assert (Hx : Forall (fun p => Path.slashFree p = true /\ p <> "") (x :: l)).
    { rewrite <- EL. apply Forall_app. split.
      - rewrite Hk. apply Forall_app. split.
        + apply Forall_forall. intros y Hy. apply repeat_spec in Hy. now subst.
        + eapply Forall_impl; [|apply names_isName]. intros y Hy.
          split; [now apply isName_slashFree|]. intros ->. discriminate.
      - eapply Forall_impl; [|exact Hbs]. intros y Hy.
        split; [now apply isName_slashFree|]. intros ->. discriminate. }
    assert (Hc : String.concat "/" (x :: l) <> EmptyString).
    { destruct (exists_last (l := x :: l)) as (l0 & z & Ez); [discriminate|].
      rewrite Ez in *. apply Forall_app in Hx as [_ Hz].
      inversion Hz as [|? ? [Hz1 Hz2] _]; subst.
      destruct l0; [exact Hz2|]. rewrite concat_snoc by discriminate.
      now destruct (String.concat "/" (s :: l0)). }
    assert (Ht : Path.endsWithSlash (String.concat "/" (x :: l)) = false).
    { destruct (exists_last (l := x :: l)) as (l0 & z & Ez); [discriminate|].
      rewrite Ez in *. apply Forall_app in Hx as [_ Hz].
      inversion Hz as [|? ? [Hz1 Hz2] _]; subst.
      now apply concat_not_trailing. }
    rewrite dirname_snoc; try assumption.
    + assert (Hp : Path.pieces (String.concat "/" (x :: l)) = x :: l).
      { apply pieces_concat; [discriminate|].
        eapply Forall_impl; [|exact Hx]. now intros y [Hy _]. }
      unfold Path.names at 1, front.
      destruct (Path.startsWithSlash a).
      * change ("/" ++ ?y) with (String "/" y).
        cbn [Path.pieces Ascii.eqb Bool.eqb]. rewrite Hp, <- EL, Hk.
        rewrite <- app_assoc. cbn [fold_left].
        change (Path.enter false [] "") with (@nil string).
        rewrite (fold_lead _ _ Hups).
        now rewrite enter_names
          by (apply Forall_app; split; [apply names_isName | exact Hbs]).
      * cbn [append]. rewrite Hp, <- EL, Hk, <- app_assoc.
        rewrite (fold_lead _ _ Hups).
        now rewrite enter_names
          by (apply Forall_app; split; [apply names_isName | exact Hbs]).
    + unfold front. destruct (Path.startsWithSlash a); [discriminate|].
      exact Hc.
    + unfold front. destruct (Path.startsWithSlash a); [|exact Ht].
      change ("/" ++ ?y) with (String "/" y).
      rewrite endsWithSlash_cons by exact Hc. exact Ht.
Qed.

(** ** The file system *)

Section AlistFacts.
Context {V : Type}.
Implicit Types (k : string) (l : list (string * V)).

Lemma alookup_ainsert k (v : V) l : Fs.alookup k (Fs.ainsert k v l) = Some v.
Proof.
  induction l as [|[k' v'] l IH]; simpl.
  - now rewrite String.eqb_refl.
  - destruct (String.eqb k' k) eqn:E; simpl.
    + now rewrite String.eqb_refl.
    + now rewrite E.
Qed.

Lemma alookup_adelete k l : Fs.alookup k (Fs.adelete k l) = None.
Proof.
  induction l as [|[k' v'] l IH]; simpl; [reflexivity|].
  destruct (String.eqb k' k) eqn:E; simpl; [assumption|].
  now rewrite E.
Qed.

Lemma ainsert_same k (v : V) l :
  Fs.alookup k l = Some v -> Fs.ainsert k v l = l.
Proof.
  induction l as [|[k' v'] l IH]; simpl; [discriminate|].
  destruct (String.eqb k' k) eqn:E.
  - apply String.eqb_eq in E. now intros [= ->]; subst.
  - intros H. now rewrite (IH H).
Qed.
Lemma alookup_ainsert_ne k k' (v : V) l :
  k <> k' -> Fs.alookup k (Fs.ainsert k' v l) = Fs.alookup k l.
Proof.
  intros Hne. induction l as [|[k0 v0] l IH]; simpl.
  - destruct (String.eqb_spec k' k); [now subst|reflexivity].
  - destruct (String.eqb_spec k0 k').
    + subst. simpl. destruct (String.eqb_spec k' k); [now subst|reflexivity].
    + simpl. destruct (String.eqb_spec k0 k); [reflexivity|exact IH].
Qed.

Lemma alookup_adelete_ne k k' l :
  k <> k' -> Fs.alookup k (Fs.adelete k' l) = Fs.alookup k l.
Proof.
  intros Hne. induction l as [|[k0 v0] l IH]; simpl; [reflexivity|].
  destruct (String.eqb_spec k0 k'); simpl.
  - subst. destruct (String.eqb_spec k' k); [now subst|exact IH].
  - destruct (String.eqb_spec k0 k); [reflexivity|exact IH].
Qed.
End AlistFacts.

Lemma write_get (p : list string) (d : string) (t t' : Fs.node) :
  Fs.write p d t = inr t' -> Fs.get p t' = Some (Fs.File d).
Proof.
  revert t t'; induction p as [|s p IH]; intros t t'; simpl.
  - destruct t; intros [= <-] || discriminate. reflexivity.
  - destruct t as [|es|]; try discriminate.
    destruct (Fs.alookup s es) as [c|] eqn:E.
    + destruct (Fs.write p d c) as [|c'] eqn:W; [discriminate|].
      intros [= <-]. rewrite alookup_ainsert. now apply (IH c).
    + destruct p; [|discriminate].
      intros [= <-]. now rewrite alookup_ainsert.
Qed.

Lemma write_over_file (p : list string) (d d0 : string) (t : Fs.node) :
  Fs.get p t = Some (Fs.File d0) -> exists t', Fs.write p d t = inr t'.
Proof.
  revert t; induction p as [|s p IH]; intros t; simpl.
  - intros [= ->]. now eexists.
  - destruct t as [|es|]; try discriminate.
    destruct (Fs.alookup s es) as [c|]; [|discriminate].
    intros H. destruct (IH _ H) as [c' ->]. now eexists.
Qed.

Lemma write_new (q : list string) (s d : string) (t : Fs.node)
    (es : list (string * Fs.node)) :
  Fs.get q t = Some (Fs.Dir es) -> Fs.alookup s es = None ->
  exists t', Fs.write (q ++ [s]) d t = inr t'.
Proof.
  revert t; induction q as [|a q IH]; intros t; simpl.
  - intros [= ->] ->. now eexists.
  - destruct t as [|es0|]; try discriminate.
    destruct (Fs.alookup a es0) as [c|]; [|discriminate].
    intros H1 H2. destruct (IH _ H1 H2) as [c' ->]. now eexists.
Qed.

Lemma mkdirp_there (p : list string) (t : Fs.node)
    (es : list (string * Fs.node)) :
  Fs.get p t = Some (Fs.Dir es) -> Fs.mkdirp p t = inr t.
Proof.
  revert t; induction p as [|s p IH]; intros t; simpl.
  - now intros [= ->].
  - destruct t as [|es0|]; try discriminate.
    destruct (Fs.alookup s es0) as [c|] eqn:E; [|discriminate].
    intros H. rewrite (IH _ H). now rewrite (ainsert_same _ _ _ E).
Qed.

Lemma del_last (q : list string) (s : string) (t n : Fs.node) :
  Fs.get (q ++ [s]) t = Some n ->
  exists es, Fs.get q (Fs.del (q ++ [s]) t) = Some (Fs.Dir es) /\
             Fs.alookup s es = None.
Proof.
  revert t; induction q as [|a q IH]; intros t; simpl.
  - destruct t as [|es0|]; try discriminate. intros _.
    exists (Fs.adelete s es0). split; [reflexivity | apply alookup_adelete].
  - destruct t as [|es0|]; try discriminate.
    destruct (Fs.alookup a es0) as [c|] eqn:E; [|discriminate].
    intros H. destruct (IH _ H) as (es & Hes & Hs).
    destruct (q ++ [s])%list eqn:Eq; [now destruct q|].
    simpl. rewrite alookup_ainsert. now exists es.
Qed.

Lemma get_snoc (q : list string) (s : string) (t : Fs.node) :
  Fs.get (q ++ [s]) t =
  match Fs.get q t with
  | Some (Fs.Dir es) => Fs.alookup s es
  | _ => None
  end.
Proof.
  revert t; induction q as [|a q IH]; intros t; simpl.
  - destruct t as [|es|]; try reflexivity. now destruct (Fs.alookup s es).
  - destruct t as [|es|]; try reflexivity.
    destruct (Fs.alookup a es); [apply IH | reflexivity].
Qed.

Lemma del_last_gone (q : list string) (s : string) (t n : Fs.node) :
  Fs.get (q ++ [s]) t = Some n ->
  Fs.get (q ++ [s]) (Fs.del (q ++ [s]) t) = None.
Proof.
  intros H. destruct (del_last _ _ _ _ H) as (es & Hq & Hs).
  now rewrite get_snoc, Hq.
Qed.

(** *** What stands at a path, before and after *)

Lemma above_cons (s : string) (p q : list string) :
  above (s :: p) (s :: q) <-> above p q.
Proof.
  split; intros [r H]; exists r.
  - now injection H.
  - now rewrite H.
Qed.

Lemma above_nil (q : list string) : above [] q.
Proof. now exists q. Qed.

(** [mkdir -p] keeps what is there; it only puts directories where there
    was nothing, on the way to its target. *)
Lemma kind_mkdirp (q p : list string) (t t' : Fs.node) :
  Fs.mkdirp q t = inr t' ->
  kindAt p t' = kindAt p t \/
  (kindAt p t = KNone /\ kindAt p t' = KDir /\ above p q).
Proof.
  unfold kindAt.
  revert p t t'; induction q as [|s q IH]; intros p t t'; simpl.
  - destruct t; intros [= <-] || discriminate. now left.
  - destruct t as [|es|]; try discriminate.
    destruct (Fs.mkdirp q _) as [|c'] eqn:Hm; [discriminate|].
    intros [= <-]. destruct p as [|x p]; [now left|]. simpl.
    destruct (String.eqb_spec x s) as [->|Hne].
    + rewrite alookup_ainsert.
      destruct (Fs.alookup s es) as [c|] eqn:E.
      * destruct (IH p _ _ Hm) as [H | (H1 & H2 & H3)]; [now left|].
        right. repeat split; try assumption. now apply above_cons.
      * destruct (IH p _ _ Hm) as [H | (H1 & H2 & H3)].
        -- destruct p as [|y p]; simpl in *.
           ++ right. rewrite H. repeat split. apply above_cons, above_nil.
           ++ left. exact H.
        -- right. repeat split; try assumption. now apply above_cons.
    + rewrite alookup_ainsert_ne by assumption. now left.
Qed.

Lemma kind_mkdirp_target (q : list string) (t t' : Fs.node) :
  Fs.mkdirp q t = inr t' -> kindAt q t' = KDir.
Proof.
  unfold kindAt.
  revert t t'; induction q as [|s q IH]; intros t t'; simpl.
  - destruct t; intros [= <-] || discriminate. reflexivity.
  - destruct t as [|es|]; try discriminate.
    destruct (Fs.mkdirp q _) as [|c'] eqn:Hm; [discriminate|].
    intros [= <-]. rewrite alookup_ainsert. now apply (IH _ _ Hm).
Qed.

(** A write changes what is at its path, and nothing else. *)
Lemma kind_write (q : list string) (b : string) (p : list string)
    (t t' : Fs.node) :
  Fs.write q b t = inr t' ->
  (p = q /\ kindAt p t' = KFile b) \/ (p <> q /\ kindAt p t' = kindAt p t).
Proof.
  unfold kindAt.
  revert p t t'; induction q as [|s q IH]; intros p t t'; simpl.
  - destruct t; intros [= <-] || discriminate.
    destruct p; [now left | right; split; [discriminate | reflexivity]].
  - destruct t as [|es|]; try discriminate.
    destruct (Fs.alookup s es) as [c|] eqn:E.
    + destruct (Fs.write q b c) as [|c'] eqn:Hw; [discriminate|].
      intros [= <-]. destruct p as [|x p];
        [right; split; [discriminate | reflexivity]|].
      simpl. destruct (String.eqb_spec x s) as [->|Hne].
      * rewrite alookup_ainsert, E.
        destruct (IH p _ _ Hw) as [[-> H] | [Hne H]]; [now left|].
        right. split; [congruence | exact H].
      * rewrite alookup_ainsert_ne by assumption.
        right. split; [congruence | reflexivity].
    + destruct q; [|discriminate]. intros [= <-].
      destruct p as [|x p]; [right; split; [discriminate | reflexivity]|].
      simpl. destruct (String.eqb_spec x s) as [->|Hne].
      * rewrite alookup_ainsert, E. destruct p; [now left|].
        right. split; [discriminate | reflexivity].
      * rewrite alookup_ainsert_ne by assumption.
        right. split; [congruence | reflexivity].
Qed.

(** A write goes where there is a file or nothing. *)
Lemma write_target (q : list string) (b : string) (t t' : Fs.node) :
  Fs.write q b t = inr t' ->
  kindAt q t = KNone \/ exists d, kindAt q t = KFile d.
Proof.
  unfold kindAt.
  revert t t'; induction q as [|s q IH]; intros t t'; simpl.
  - destruct t; intros [= <-] || discriminate. right. now eexists.
  - destruct t as [|es|]; try discriminate.
    destruct (Fs.alookup s es) as [c|] eqn:E.
    + destruct (Fs.write q b c) as [|c'] eqn:Hw; [discriminate|].
      intros _. now apply (IH _ _ Hw).
    + intros _. now left.
Qed.

(** A removal empties its path and what is below, and nothing else. *)
Lemma kind_del (q p : list string) (t : Fs.node) :
  q <> [] ->
  (above q p -> kindAt p (Fs.del q t) = KNone) /\
  (~ above q p -> kindAt p (Fs.del q t) = kindAt p t).
Proof.
  unfold kindAt.
  revert p t; induction q as [|s q IH]; intros p t Hq; [now destruct Hq|].
  simpl. destruct t as [d|es|c].
  - split; [|reflexivity]. intros [r ->]. reflexivity.
  - destruct q as [|s' q].
    + destruct p as [|x p].
      * split; [intros [r H]; discriminate | reflexivity].
      * simpl. destruct (String.eqb_spec x s) as [->|Hne].
        -- rewrite alookup_adelete. split; [reflexivity|].
           intros H. destruct H. apply above_cons, above_nil.
        -- rewrite alookup_adelete_ne by assumption.
           split; [|reflexivity]. intros [r H]. injection H as H _.
           now destruct Hne.
    + destruct (Fs.alookup s es) as [c|] eqn:E.
      * destruct p as [|x p].
        -- split; [intros [r H]; discriminate | reflexivity].
        -- simpl. destruct (String.eqb_spec x s) as [->|Hne].
           ++ rewrite alookup_ainsert, E.
              destruct (IH p c) as [H1 H2]; [discriminate|].
              split; intros H.
              ** apply H1. now apply above_cons in H.
              ** apply H2. intros H'. apply H. now apply above_cons.
           ++ rewrite alookup_ainsert_ne by assumption.
              split; [|reflexivity]. intros [r H]. injection H as H _.
              now destruct Hne.
      * split; [|reflexivity]. intros [r ->]. simpl. now rewrite E.
  - split; [|reflexivity]. intros [r ->]. reflexivity.
Qed.

Lemma above_nil_inv (r : list string) : above r [] -> r = [].
Proof. intros [x H]. symmetry in H. now apply app_eq_nil in H. Qed.

Lemma mkdirp_fails_blocked (q : list string) (t : Fs.node) (c : string) :
  Fs.mkdirp q t = inl c -> blocked q t.
Proof.
  revert t c; induction q as [|s q IH]; intros t c; simpl.
  - destruct t as [d|es|c']; try discriminate; intros _;
      exists []; (split; [apply above_nil|]).
    + left. now exists d.
    + right. now exists c'.
  - destruct t as [d|es|c'].
    + intros _. exists []. split; [apply above_nil | left; now exists d].
    + destruct (Fs.mkdirp q _) as [c0|] eqn:Hm; [|discriminate].
      intros _. destruct (IH _ _ Hm) as (r & Hr & Ho).
      destruct (Fs.alookup s es) as [c1|] eqn:E.
      * exists (s :: r). split; [now apply above_cons|].
        unfold kindAt in *. simpl. now rewrite E.
      * exfalso. unfold kindAt in Ho.
        destruct r; simpl in Ho; destruct Ho as [[? H]|[? H]]; discriminate.
    + intros _. exists []. split; [apply above_nil | right; now exists c'].
Qed.

Lemma blocked_mkdirp_fails (q : list string) (t : Fs.node) :
  blocked q t -> exists c, Fs.mkdirp q t = inl c.
Proof.
  revert t; induction q as [|s q IH]; intros t (r & Hr & Ho).
  - apply above_nil_inv in Hr. subst r. unfold kindAt in Ho. simpl in *.
    destruct t as [d|es|c]; [now eexists | | now eexists].
    destruct Ho as [[? H]|[? H]]; discriminate.
  - simpl. destruct t as [d|es|c]; [now eexists | | now eexists].
    destruct r as [|x r].
    + unfold kindAt in Ho. simpl in Ho.
      destruct Ho as [[? H]|[? H]]; discriminate.
    + destruct Hr as [y Hy]. injection Hy as -> Hy.
      unfold kindAt in Ho. simpl in Ho.
      destruct (Fs.alookup x es) as [c1|];
        [|destruct Ho as [[? H]|[? H]]; discriminate].
      destruct (IH c1) as [c Hc]; [exists r; split; [now exists y | exact Ho]|].
      rewrite Hc. now eexists.
Qed.

Lemma write_denied (q : list string) (b c : string) (t : Fs.node) :
  kindAt q t = KDenied c -> Fs.write q b t = inl c.
Proof.
  unfold kindAt.
  revert t; induction q as [|s q IH]; intros t; simpl.
  - destruct t; try discriminate. now intros [= ->].
  - destruct t as [|es|]; try discriminate.
    destruct (Fs.alookup s es) as [c0|]; [|discriminate].
    intros H. now rewrite (IH _ H).
Qed.

Lemma write_fails_under_dir (q : list string) (s b c : string) (t : Fs.node) :
  Fs.write (q ++ [s]) b t = inl c ->
  kindAt q t = KDir ->
  kindAt (q ++ [s]) t = KDir \/ exists c', kindAt (q ++ [s]) t = KDenied c'.
Proof.
  unfold kindAt.
  revert t c; induction q as [|a q IH]; intros t c; simpl.
  - destruct t as [|es|]; try discriminate.
    destruct (Fs.alookup s es) as [[d|es'|c']|]; try discriminate; intros _ _.
    + now left.
    + right. now eexists.
  - destruct t as [|es|]; try discriminate.
    destruct (Fs.alookup a es) as [c0|]; [|discriminate].
    destruct (Fs.write (q ++ [s]) b c0) as [c1|] eqn:Hw; [|discriminate].
    intros _ Hk. exact (IH _ _ Hw Hk).
Qed.

Lemma mkdirp_there_kind (q : list string) (t : Fs.node) :
  kindAt q t = KDir -> Fs.mkdirp q t = inr t.
Proof.
  unfold kindAt. destruct (Fs.get q t) as [[|es|]|] eqn:E; try discriminate.
  intros _. now apply (mkdirp_there _ _ es).
Qed.

Lemma above_trans (p q r : list string) : above p q -> above q r -> above p r.
Proof.
  intros [x ->] [y ->]. exists (x ++ y)%list. now rewrite app_assoc.
Qed.

Lemma above_removelast (p : list string) : above (removelast p) p.
Proof.
  destruct p as [|a p]; [apply above_nil|].
  destruct (exists_last (l := a :: p)) as (q & s & ->); [discriminate|].
  rewrite removelast_last. now exists [s].
Qed.

Lemma above_removelast_strict (p q : list string) :
  q <> [] -> above p (removelast q) ->
  exists r, q = (p ++ r)%list /\ r <> [].
Proof.
  intros Hq [r0 Hr]. destruct (exists_last Hq) as (q0 & s & ->).
  rewrite removelast_last in Hr. subst q0.
  exists (r0 ++ [s])%list. split; [now rewrite app_assoc|].
  now destruct r0.
Qed.

Lemma above_longer (p : list string) (s : string) : ~ above (p ++ [s]) p.
Proof.
  intros [r H]. apply (f_equal (@List.length string)) in H.
  rewrite !length_app in H. simpl in H. lia.
Qed.

Lemma get_app (p r : list string) (t n : Fs.node) :
  Fs.get p t = Some n -> Fs.get (p ++ r) t = Fs.get r n.
Proof.
  revert t; induction p as [|s p IH]; intros t; simpl.
  - now intros [= ->].
  - destruct t as [|es|]; try discriminate.
    destruct (Fs.alookup s es); [apply IH | discriminate].
Qed.

Lemma get_above (p r : list string) (t n : Fs.node) :
  Fs.get (p ++ r) t = Some n -> exists m, Fs.get p t = Some m.
Proof.
  revert t; induction p as [|s p IH]; intros t; simpl.
  - intros _. now exists t.
  - destruct t as [|es|]; try discriminate.
    destruct (Fs.alookup s es); [apply IH | discriminate].
Qed.

Lemma get_above_dir (p r : list string) (t n : Fs.node) :
  Fs.get (p ++ r) t = Some n -> r <> [] ->
  exists es, Fs.get p t = Some (Fs.Dir es).
Proof.
  intros H Hr. destruct (get_above _ _ _ _ H) as [m Hm].
  rewrite (get_app _ r _ _ Hm) in H.
  destruct r as [|x r]; [now destruct Hr|].
  destruct m as [|es|]; try discriminate. now exists es.
Qed.

(** ** Where a path leads *)

Lemma resolveFrom_enter (t : Fs.node) (cur ps q : list string) :
  Fs.resolveFrom t cur ps = inr q -> q = fold_left (Path.enter false) ps cur.
Proof.
  revert cur; induction ps as [|p ps IH]; intros cur; simpl.
  - now intros [= <-].
  - destruct (Fs.through (Fs.get cur t)); [discriminate | apply IH].
Qed.

(** A path that resolves leads through its names. *)
Lemma resolve_names (p : string) (t : Fs.node) (q : list string) :
  Fs.resolve p t = inr q -> q = Path.names p.
Proof.
  unfold Fs.resolve. destruct p; [discriminate|]. apply resolveFrom_enter.
Qed.

Lemma find_names (p : string) (t n : Fs.node) :
  Fs.find p t = inr n ->
  Fs.get (Path.names p) t = Some n /\
  ((exists d, n = Fs.File d) \/ (exists es, n = Fs.Dir es)).
Proof.
  unfold Fs.find. destruct (Fs.resolve p t) as [c|q] eqn:E; [discriminate|].
  apply resolve_names in E. subst q.
  destruct (Fs.get (Path.names p) t) as [[d|es|c]|]; try discriminate;
    intros [= <-]; (split; [reflexivity|]); [left | right]; now eexists.
Qed.

(** Names in a row resolve when the directory of the last one is there. *)
Lemma resolveFrom_ok (t : Fs.node) (ns cur : list string)
    (es : list (string * Fs.node)) :
  Forall (fun n => Path.isName n = true) ns -> ns <> [] ->
  Fs.get (cur ++ removelast ns) t = Some (Fs.Dir es) ->
  Fs.resolveFrom t cur ns = inr (cur ++ ns)%list.
Proof.
  intros H. revert cur. induction H as [|n ns Hn Hns IH]; intros cur Hne Hg;
    [now destruct Hne|].
  cbn [Fs.resolveFrom]. rewrite (enter_name _ _ _ Hn).
  destruct ns as [|m ns].
  - simpl in Hg. rewrite app_nil_r in Hg. rewrite Hg. reflexivity.
  - change (removelast (n :: m :: ns)) with (n :: removelast (m :: ns)) in Hg.
    destruct (get_above_dir cur _ _ _ Hg) as [es0 H0]; [discriminate|].
    rewrite H0. cbn [Fs.through].
    rewrite (IH (cur ++ [n])%list); [now rewrite <- app_assoc | discriminate|].
    now rewrite <- app_assoc.
Qed.

(** When they do not resolve, nothing is where they lead, and a write
    there fails in the same way. *)
Lemma resolveFrom_fails (t : Fs.node) (ns cur : list string) (c : string) :
  Forall (fun n => Path.isName n = true) ns ->
  Fs.resolveFrom t cur ns = inl c ->
  Fs.get (cur ++ ns) t = None /\
  forall d m, Fs.get cur t = Some m -> Fs.write ns d m = inl c.
Proof.
  intros H. revert cur. induction H as [|n ns Hn Hns IH]; intros cur;
    [discriminate|].
  cbn [Fs.resolveFrom]. rewrite (enter_name _ _ _ Hn).
  destruct (Fs.get cur t) as [m|] eqn:Hc.
  - destruct m as [d0|es|c0]; cbn [Fs.through].
    + intros [= <-]. split; [now rewrite (get_app _ _ _ _ Hc)|].
      now intros d m [= <-].
    + intros Hr. destruct (IH _ Hr) as [Hg Hw]. split.
      * now rewrite <- app_assoc in Hg.
      * intros d m [= <-]. simpl.
        rewrite (get_app _ [n] _ _ Hc) in Hw. simpl in Hw.
        destruct (Fs.alookup n es) as [ch|] eqn:E.
        -- now rewrite (Hw d ch eq_refl).
        -- destruct ns; [discriminate|]. simpl in Hr.
           rewrite (get_app _ [n] _ _ Hc) in Hr. simpl in Hr.
           rewrite E in Hr. simpl in Hr. now injection Hr as <-.
    + intros [= <-]. split; [now rewrite (get_app _ _ _ _ Hc)|].
      now intros d m [= <-].
  - cbn [Fs.through]. intros [= <-]. split; [|discriminate].
    destruct (Fs.get (cur ++ n :: ns) t) eqn:E; [|reflexivity].
    apply get_above in E as [m Hm]. congruence.
Qed.

Lemma join_straight (a b : string) : descends b -> straight (Path.join a b).
Proof.
  intros Hb. unfold straight. rewrite (join_names a b Hb). split.
  - destruct (descends_last b Hb) as (bs & n & E & _). rewrite E.
    intros H. apply app_eq_nil in H as [_ H].
    now apply app_eq_nil in H as [_ H].
  - destruct (join_pieces a b Hb) as (lead & Hp & Hl). exists lead.
    now split.
Qed.

Lemma straight_truthy (p : string) : straight p -> p <> EmptyString.
Proof. intros [H _] ->. now apply H. Qed.

Lemma resolveFrom_lead (t : Fs.node) (lead ns : list string) :
  Forall (fun s => s = "" \/ s = "..") lead -> ns <> [] ->
  Fs.resolveFrom t [] (lead ++ ns) = Fs.resolveFrom t [] ns.
Proof.
  intros Hl Hne. induction Hl as [|x lead Hx _ IH]; [reflexivity|].
  cbn [app Fs.resolveFrom]. destruct ns as [|n ns]; [now destruct Hne|].
  cbn [Fs.resolveFrom] in *.
  destruct (Fs.through (Fs.get [] t)); [reflexivity|].
  destruct Hx as [-> | ->]; exact IH.
Qed.

Lemma resolve_straight (p : string) (t : Fs.node) :
  straight p -> Fs.resolve p t = Fs.resolveFrom t [] (Path.names p).
Proof.
  intros Hs. pose proof (straight_truthy p Hs) as Hp.
  destruct Hs as (Hne & lead & E & Hl).
  unfold Fs.resolve. destruct p; [now destruct Hp|]. rewrite E.
  now apply resolveFrom_lead.
Qed.

Lemma resolveFrom_parent (t : Fs.node) (ns cur q : list string) :
  Forall (fun n => Path.isName n = true) ns -> ns <> [] ->
  Fs.resolveFrom t cur ns = inr q ->
  exists es, Fs.get (cur ++ removelast ns) t = Some (Fs.Dir es).
Proof.
  intros H. revert cur. induction H as [|n ns Hn Hns IH]; intros cur Hne;
    [now destruct Hne|].
  cbn [Fs.resolveFrom]. rewrite (enter_name _ _ _ Hn).
  destruct (Fs.get cur t) as [[d|es|c]|] eqn:Hc; cbn [Fs.through];
    try discriminate.
  destruct ns as [|m ns].
  - intros _. exists es. simpl. now rewrite app_nil_r.
  - intros Hr. destruct (IH _ ltac:(discriminate) Hr) as [es' H'].
    exists es'.
    change (removelast (n :: m :: ns)) with (n :: removelast (m :: ns)).
    now rewrite <- app_assoc in H'.
Qed.

(** What resolution finds for a straight path is what stands at its
    names: it resolves when the directory of its last name is there;
    where it does not, nothing is at its names and a write there fails
    in the same way. *)
Lemma resolve_straight_cases (p : string) (t : Fs.node) :
  straight p ->
  (Fs.resolve p t = inr (Path.names p) /\
   exists es, Fs.get (removelast (Path.names p)) t = Some (Fs.Dir es)) \/
  (exists c, Fs.resolve p t = inl c /\ Fs.get (Path.names p) t = None /\
             forall d, Fs.write (Path.names p) d t = inl c).
Proof.
  intros Hs. rewrite (resolve_straight p t Hs).
  destruct (Fs.resolveFrom t [] (Path.names p)) as [c|q] eqn:E.
  - right. exists c. split; [reflexivity|].
    destruct (resolveFrom_fails t _ [] c (names_isName p) E) as [Hg Hw].
    split; [exact Hg | intros d; now apply Hw].
  - left. pose proof (resolveFrom_enter _ _ _ _ E) as Hq.
    rewrite (enter_names _ _ _ (names_isName p)) in Hq. simpl in Hq. subst q.
    split; [reflexivity|].
    destruct Hs as (Hne & _).
    exact (resolveFrom_parent t _ [] _ (names_isName p) Hne E).
Qed.

(** *** The calls of [fs] on a straight path *)

Lemma resolve_found (p : string) (t n : Fs.node) :
  straight p -> Fs.get (Path.names p) t = Some n ->
  Fs.resolve p t = inr (Path.names p).
Proof.
  intros Hs Hg.
  destruct (resolve_straight_cases p t Hs) as [[H _] | (c & _ & H & _)];
    [exact H | congruence].
Qed.

Lemma find_straight (p : string) (t : Fs.node) :
  straight p ->
  match Fs.get (Path.names p) t with
  | Some (Fs.Denied c) => Fs.find p t = inl c
  | Some n => Fs.find p t = inr n
  | None => exists c, Fs.find p t = inl c
  end.
Proof.
  intros Hs. unfold Fs.find.
  destruct (resolve_straight_cases p t Hs) as [[H _] | (c & H & Hg & _)];
    rewrite H.
  - destruct (Fs.get (Path.names p) t) as [[d|es|c]|]; try reflexivity.
    now eexists.
  - rewrite Hg. now exists c.
Qed.

Lemma existsSync_straight (p : string) (t : Fs.node) :
  straight p ->
  Fs.existsSync p t =
  match Fs.get (Path.names p) t with
  | Some (Fs.File _) | Some (Fs.Dir _) => true
  | _ => false
  end.
Proof.
  intros Hs. unfold Fs.existsSync. pose proof (find_straight p t Hs) as H.
  destruct (Fs.get (Path.names p) t) as [[d|es|c]|]; try now rewrite H.
  destruct H as [c ->]. reflexivity.
Qed.

Lemma statSync_straight (p : string) (t : Fs.node) :
  straight p ->
  match Fs.get (Path.names p) t with
  | Some (Fs.File _) => Fs.statSync p t = Returns (Fs.mkStats true false)
  | Some (Fs.Dir _) => Fs.statSync p t = Returns (Fs.mkStats false true)
  | Some (Fs.Denied c) => Fs.statSync p t = Throws (Js.sysError c "stat" p)
  | None => exists c, Fs.statSync p t = Throws (Js.sysError c "stat" p)
  end.
Proof.
  intros Hs. unfold Fs.statSync. pose proof (find_straight p t Hs) as H.
  destruct (Fs.get (Path.names p) t) as [[d|es|c]|]; try now rewrite H.
  destruct H as [c ->]. now exists c.
Qed.

Lemma readFileSync_straight (p : string) (t : Fs.node) :
  straight p ->
  match Fs.get (Path.names p) t with
  | Some (Fs.File d) => Fs.readFileSync p t = Returns d
  | _ => exists e, Fs.readFileSync p t = Throws e
  end.
Proof.
  intros Hs. unfold Fs.readFileSync. pose proof (find_straight p t Hs) as H.
  destruct (Fs.get (Path.names p) t) as [[d|es|c]|]; try rewrite H;
    try (now eexists); try reflexivity.
  destruct H as [c ->]. now eexists.
Qed.

Lemma readdirSync_straight (p : string) (t : Fs.node)
    (es : list (string * Fs.node)) :
  straight p -> Fs.get (Path.names p) t = Some (Fs.Dir es) ->
  Fs.readdirSync p t = Returns (map fst es).
Proof.
  intros Hs Hg. unfold Fs.readdirSync. pose proof (find_straight p t Hs) as H.
  rewrite Hg in H. now rewrite H.
Qed.

Lemma writeAt_straight (p d : string) (t : Fs.node) :
  straight p -> Fs.writeAt p d t = Fs.write (Path.names p) d t.
Proof.
  intros Hs. unfold Fs.writeAt.
  destruct (resolve_straight_cases p t Hs) as [[H _] | (c & H & _ & Hw)];
    rewrite H; [reflexivity | now rewrite Hw].
Qed.

Lemma writeFileSync_straight (p d : string) (t : Fs.node) :
  straight p ->
  Fs.writeFileSync p d t =
  match Fs.write (Path.names p) d t with
  | inr t' => (Returns tt, t')
  | inl c => (Throws (Js.sysError c "open" p), t)
  end.
Proof.
  intros Hs. unfold Fs.writeFileSync. now rewrite (writeAt_straight _ _ _ Hs).
Qed.

Lemma copyFileSync_straight (src dest d : string) (t : Fs.node) :
  straight src -> straight dest ->
  Fs.get (Path.names src) t = Some (Fs.File d) ->
  Fs.copyFileSync src dest t =
  match Fs.write (Path.names dest) d t with
  | inr t' => (Returns tt, t')
  | inl c => (Throws (Js.copyError c src dest), t)
  end.
Proof.
  intros Hs Hd Hg. unfold Fs.copyFileSync.
  pose proof (find_straight src t Hs) as H. rewrite Hg in H. rewrite H.
  now rewrite (writeAt_straight _ _ _ Hd).
Qed.

Lemma ensureDirSync_names (p : string) (t : Fs.node) :
  p <> EmptyString ->
  Fs.ensureDirSync p t =
  match Fs.mkdirp (Path.names p) t with
  | inr t' => (Returns tt, t')
  | inl c => (Throws (Js.sysError c "mkdir" p), t)
  end.
Proof. destruct p; [now intros [] | reflexivity]. Qed.

Lemma dirname_truthy (p : string) : Path.dirname p <> EmptyString.
Proof.
  unfold Path.dirname. destruct p as [|c rest]; [discriminate|].
  destruct (Path.beforeLastName rest) as [[|x r]|];
    destruct (Ascii.eqb c "/"); discriminate.
Qed.

Lemma removeSync_straight (p : string) (t n : Fs.node) :
  straight p -> Fs.get (Path.names p) t = Some n ->
  Fs.removeSync p t =
  match Fs.rm n with
  | None => (Returns tt, Fs.del (Path.names p) t)
  | Some (c, rel, rest) =>
      (Throws (Js.sysError c "lstat" (fold_left Path.join rel p)),
       Fs.put (Path.names p) rest t)
  end.
Proof.
  intros Hs Hg. unfold Fs.removeSync.
  now rewrite (resolve_found p t n Hs Hg), Hg.
Qed.

Lemma unlinkSync_straight (p d : string) (t : Fs.node) :
  straight p -> Fs.get (Path.names p) t = Some (Fs.File d) ->
  Fs.unlinkSync p t = (Returns tt, Fs.del (Path.names p) t).
Proof.
  intros Hs Hg. unfold Fs.unlinkSync.
  now rewrite (resolve_found p t _ Hs Hg), Hg.
Qed.

(** *** What a call found, for any path *)

Lemma existsSync_names (p : string) (t : Fs.node) :
  Fs.existsSync p t = true ->
  kindAt (Path.names p) t = KDir \/
  exists d, kindAt (Path.names p) t = KFile d.
Proof.
  unfold Fs.existsSync, kindAt.
  destruct (Fs.find p t) as [c|n] eqn:E; [discriminate|]. intros _.
  destruct (find_names _ _ _ E) as [-> [[d ->] | [es ->]]];
    [right; now exists d | now left].
Qed.

Lemma readFileSync_names (p d : string) (t : Fs.node) :
  Fs.readFileSync p t = Returns d ->
  Fs.resolve p t = inr (Path.names p) /\
  Fs.get (Path.names p) t = Some (Fs.File d).
Proof.
  unfold Fs.readFileSync, Fs.find.
  destruct (Fs.resolve p t) as [c|q] eqn:E; [discriminate|].
  pose proof (resolve_names _ _ _ E) as ->.
  destruct (Fs.get (Path.names p) t) as [[d'|es|c]|]; try discriminate.
  now intros [= ->].
Qed.

(** *** A call after a write *)

Lemma resolveFrom_stable (t t' : Fs.node) (ps cur q : list string) :
  (forall r, kindAt r t = KDir -> kindAt r t' = KDir) ->
  Fs.resolveFrom t cur ps = inr q -> Fs.resolveFrom t' cur ps = inr q.
Proof.
  intros Hk. revert cur; induction ps as [|p ps IH]; intros cur; simpl;
    [trivial|].
  specialize (Hk cur). unfold kindAt in Hk.
  destruct (Fs.get cur t) as [[d|es|c]|]; simpl; try discriminate.
  destruct (Fs.get cur t') as [[d'|es'|c']|]; simpl;
    try (now specialize (Hk eq_refl)).
  apply IH.
Qed.

Lemma resolve_stable (t t' : Fs.node) (p : string) (q : list string) :
  (forall r, kindAt r t = KDir -> kindAt r t' = KDir) ->
  Fs.resolve p t = inr q -> Fs.resolve p t' = inr q.
Proof.
  unfold Fs.resolve. destruct p; [discriminate|]. apply resolveFrom_stable.
Qed.

Lemma write_keeps_dirs (q : list string) (d : string) (t t' : Fs.node) :
  Fs.write q d t = inr t' ->
  forall r, kindAt r t = KDir -> kindAt r t' = KDir.
Proof.
  intros Hw r Hr. destruct (kind_write q d r _ _ Hw) as [[-> _] | [_ E]].
  - destruct (write_target _ _ _ _ Hw) as [H | [d0 H]]; congruence.
  - congruence.
Qed.

(** What was written is what a read of the same path gives. *)
Lemma writeFileSync_read (p d : string) (t t' : Fs.node) :
  Fs.writeFileSync p d t = (Returns tt, t') ->
  Fs.readFileSync p t' = Returns d.
Proof.
  unfold Fs.writeFileSync, Fs.writeAt.
  destruct (Fs.resolve p t) as [c|q] eqn:E; [discriminate|].
  destruct (Fs.write q d t) as [c|t1] eqn:Hw; [discriminate|].
  intros [= <-]. unfold Fs.readFileSync, Fs.find.
  rewrite (resolve_stable t t1 p q (write_keeps_dirs _ _ _ _ Hw) E).
  now rewrite (write_get _ _ _ _ Hw).
Qed.

Lemma statSync_returns (p : string) (t : Fs.node) (st : Fs.Stats) :
  Fs.statSync p t = Returns st ->
  Fs.existsSync p t = true /\
  (st = Fs.mkStats true false \/ st = Fs.mkStats false true).
Proof.
  unfold Fs.statSync, Fs.existsSync.
  destruct (Fs.find p t) as [c|[d|es|c]]; try discriminate;
    intros [= <-]; auto.
Qed.

(** ** The header lookup *)

Lemma fold_descend_none (parts : list string) :
  fold_left descend parts None = None.
Proof. induction parts; simpl; auto. Qed.

Lemma walkParts_fold (parts : list string) (node : AsarNode) :
  walkParts parts node =
  match fold_left descend parts (Some node) with
  | None => notFound
  | Some terminal =>
      mkEntryInfo
        (match files terminal with Some _ => true | None => false end)
        (match unpacked terminal with Some true => true | _ => false end)
        true
  end.
Proof.
  revert node; induction parts as [|part rest IH]; intros node; simpl.
  - reflexivity.
  - destruct (files node) as [children|].
    + destruct (property children part) as [child|]; [apply IH|].
      now rewrite fold_descend_none.
    + now rewrite fold_descend_none.
Qed.

(** What is above an entry of the header is a directory. *)
Lemma walkParts_above_isDir (p q : list string) (h : AsarNode) :
  q <> [] ->
  exists_ (walkParts (p ++ q) h) = true ->
  isDir (walkParts p h) = true.
Proof.
  intros Hq. revert h; induction p as [|x p IH]; intros h; simpl.
  - destruct q as [|y q]; [now destruct Hq|]. simpl.
    destruct (files h); [reflexivity | discriminate].
  - destruct (files h) as [children|]; [|discriminate].
    destruct (property children x) as [child|]; [apply IH | discriminate].
Qed.

(** *** The lookup and its contract *)

Lemma separator_is_sep (c : ascii) : separator c = Path.is_sep c.
Proof. destruct c as [[] [] [] [] [] [] [] []]; reflexivity. Qed.

Lemma segments_tokens_from (cur s : string) :
  filter Js.truthy
    (match Path.split s with
     | p :: ps => (cur ++ p) :: ps
     | [] => []
     end) = tokens cur s.
Proof.
  revert cur; induction s as [|c s IH]; intros cur; simpl.
  - rewrite append_empty_r. now destruct cur.
  - rewrite separator_is_sep. destruct (Path.is_sep c).
    + rewrite append_empty_r. rewrite <- (IH EmptyString).
      destruct (Path.split s) eqn:E; [now apply split_not_nil in E|].
      simpl. now destruct cur.
    + rewrite <- IH.
      destruct (Path.split s) eqn:E; [now apply split_not_nil in E|].
      now rewrite append_assoc.
Qed.

Lemma segments_tokens (s : string) : Path.segments s = tokens EmptyString s.
Proof.
  rewrite <- segments_tokens_from. unfold Path.segments.
  destruct (Path.split s); reflexivity.
Qed.

Lemma inherited_everyObjectHas (seg : string) :
  existsb (String.eqb seg) inherited = everyObjectHas seg.
Proof.
  unfold inherited, everyObjectHas. cbn [existsb].
  repeat match goal with
         | |- context [String.eqb seg ?x] =>
             destruct (String.eqb_spec seg x); [subst; reflexivity|]
         end.
  reflexivity.
Qed.

Lemma descend_childOrInherited (reached : option AsarNode) (seg : string) :
  descend reached seg = childOrInherited reached seg.
Proof.
  destruct reached as [[[children|] flag]|]; try reflexivity. simpl.
  unfold property. destruct (Fs.alookup seg children); [reflexivity|].
  now rewrite inherited_everyObjectHas.
Qed.

Lemma fold_descend_childOrInherited (parts : list string)
    (reached : option AsarNode) :
  fold_left descend parts reached = fold_left childOrInherited parts reached.
Proof.
  revert reached; induction parts as [|part rest IH]; intros reached;
    [reflexivity|].
  simpl. now rewrite descend_childOrInherited, IH.
Qed.



(** ** The console *)

Lemma appending_ret {A} (a : A) : appending (ret a).
Proof. intros w r w' [= <- <-]. exists []. now rewrite app_nil_r. Qed.

Lemma appending_throw {A} (e : Js.Error) : appending (@throw A e).
Proof. intros w r w' [= <- <-]. exists []. now rewrite app_nil_r. Qed.

Lemma appending_warn (line : string) : appending (warn line).
Proof. intros w r w' [= <- <-]. now exists [line]. Qed.

Lemma appending_reading {A} (f : Fs.node -> Returned A) : appending (reading f).
Proof. intros w r w' [= <- <-]. exists []. now rewrite app_nil_r. Qed.

Lemma appending_writing {A} (f : Fs.node -> Returned A * Fs.node) :
  appending (writing f).
Proof.
  intros w r w'. unfold writing. destruct (f (fs w)) as [r0 t].
  intros [= <- <-]. exists []. simpl. now rewrite app_nil_r.
Qed.

Lemma appending_bind {A B} (m : M A) (k : A -> M B) :
  appending m -> (forall a, appending (k a)) -> appending (bind m k).
Proof.
  intros Hm Hk w r w'. unfold bind.
  destruct (m w) as [[a|e|] w1] eqn:E; destruct (Hm _ _ _ E) as [l1 H1].
  - intros H. destruct (Hk _ _ _ _ H) as [l2 H2].
    exists (l1 ++ l2)%list. now rewrite H2, H1, app_assoc.
  - intros [= <- <-]. now exists l1.
  - intros [= <- <-]. now exists l1.
Qed.

Lemma appending_try {A} (m : M A) (h : Js.Error -> M A) :
  appending m -> (forall e, appending (h e)) -> appending (try_catch m h).
Proof.
  intros Hm Hh w r w'. unfold try_catch.
  destruct (m w) as [[a|e|] w1] eqn:E; destruct (Hm _ _ _ E) as [l1 H1].
  - intros [= <- <-]. now exists l1.
  - intros H. destruct (Hh _ _ _ _ H) as [l2 H2].
    exists (l1 ++ l2)%list. now rewrite H2, H1, app_assoc.
  - intros [= <- <-]. now exists l1.
Qed.

Lemma appending_forOf {A} (xs : list A) (body : A -> M unit) :
  (forall x, appending (body x)) -> appending (forOf xs body).
Proof.
  intros Hb. induction xs as [|x xs IH]; simpl.
  - apply appending_ret.
  - apply appending_bind; [apply Hb | intros _; exact IH].
Qed.

Create HintDb console discriminated.
#[local] Hint Resolve appending_ret appending_throw appending_warn
  appending_reading appending_writing appending_forOf : console.

Ltac solve_appending :=
  repeat first
    [ progress auto with console
    | apply appending_bind; [|intros ?]
    | apply appending_try; [|intros ?]
    | match goal with
      | |- appending (if ?b then _ else _) => destruct b
      | |- appending (match ?v with _ => _ end) => destruct v
      end ].

Lemma appending_extractEntry (asar : Codec) (asarFile destDir : string)
    (header : AsarNode) (filename : string) :
  appending (extractEntry asar asarFile destDir header filename).
Proof.
  unfold extractEntry, alreadyThere, extractRegular, existsSync, statSync,
    removeSync, ensureDirSync, writeFileSync.
  solve_appending.
Qed.

Lemma appending_extractAsarManually (asar : Codec)
    (asarFile destDir unpackedDir : string) :
  appending (extractAsarManually asar asarFile destDir unpackedDir).
Proof.
  unfold extractAsarManually, getAsarHeader.
  solve_appending. apply appending_forOf. intros x.
  apply appending_extractEntry.
Qed.

(** ** The trigger of the fallback *)

Lemma codeIs_spec (e : Js.Error) (c : string) :
  Js.codeIs e c = true <-> Js.code e = Some c.
Proof.
  unfold Js.codeIs. destruct (Js.code e) as [c'|].
  - rewrite String.eqb_eq. split; [now intros -> | now intros [= ->]].
  - split; discriminate.
Qed.

Lemma missingUnpacked_spec (err : Js.Error) :
  missingUnpacked err = true <-> underUnpacked err.
Proof.
  unfold missingUnpacked, underUnpacked.
  rewrite andb_true_iff, codeIs_spec.
  destruct (Js.path err) as [p|].
  - rewrite andb_true_iff, includes_spec. split.
    + intros [Hc [_ (a & b & ->)]]. split; [assumption|].
      now exists (a ++ ".unpacked" ++ b), a, b.
    + intros [Hc (p' & a & b & [= <-] & ->)]. split; [assumption|].
      split; [|now exists a, b].
      destruct a; reflexivity.
  - split; [now intros [_ ?] | now intros [_ (p & a & b & ? & _)]].
Qed.

Lemma extractAsarWithUnpacked_after_bulk (asar : Codec) (fuel : nat)
    (asarFile destDir : string) (w w1 : World) (tree2 : Fs.node)
    (err : Js.Error) :
  (found <- existsSync (asarFile ++ ".unpacked") ;;
   if found then copyUnpackedFiles fuel (asarFile ++ ".unpacked") destDir
   else ret tt) w = (Ok tt, w1) ->
  extractAll asar asarFile destDir (fs w1) = (Throws err, tree2) ->
  extractAsarWithUnpacked asar fuel asarFile destDir w =
  if missingUnpacked err
  then extractAsarManually asar asarFile destDir (asarFile ++ ".unpacked")
         (mkWorld tree2 (console w1 ++ [fallbackWarning]))
  else (Throw err, mkWorld tree2 (console w1)).
Proof.
  intros Hpre Hbulk. unfold extractAsarWithUnpacked.
  unfold bind at 1. unfold bind at 1 in Hpre.
  destruct (existsSync (asarFile ++ ".unpacked") w) as [[found| |] w0];
    try discriminate.
  unfold bind at 1. rewrite Hpre.
  unfold try_catch, writing. rewrite Hbulk. simpl.
  destruct (missingUnpacked err); reflexivity.
Qed.

(** C1: when the bulk extraction throws, the manual fallback is entered
    (its warning is written and [extractAsarManually] runs) if and only if
    the error has the code ENOENT and a path that contains [.unpacked];
    any other error is thrown on as it is, with nothing more written to
    the console and nothing more done to the tree. *)
Theorem fallback_iff_missing_unpacked (asar : Codec) (fuel : nat)
    (asarFile destDir : string) (w w1 : World) (tree2 : Fs.node)
    (err : Js.Error) :
  (found <- existsSync (asarFile ++ ".unpacked") ;;
   if found then copyUnpackedFiles fuel (asarFile ++ ".unpacked") destDir
   else ret tt) w = (Ok tt, w1) ->
  extractAll asar asarFile destDir (fs w1) = (Throws err, tree2) ->
  let out := extractAsarWithUnpacked asar fuel asarFile destDir w in
  (enteredFallback (console w1) out <-> underUnpacked err) /\
  (underUnpacked err ->
   out = extractAsarManually asar asarFile destDir (asarFile ++ ".unpacked")
           (mkWorld tree2 (console w1 ++ [fallbackWarning]))) /\
  (~ underUnpacked err -> out = (Throw err, mkWorld tree2 (console w1))).
Proof.
  intros Hpre Hbulk out.
  pose proof (extractAsarWithUnpacked_after_bulk _ _ _ _ _ _ _ _ Hpre Hbulk)
    as Hout.
  fold out in Hout. rewrite <- missingUnpacked_spec.
  destruct (missingUnpacked err) eqn:Hm.
  - repeat split; try congruence.
    intros _. unfold enteredFallback. rewrite Hout.
    destruct (extractAsarManually asar asarFile destDir _ _) as [r w'] eqn:E.
    destruct (appending_extractAsarManually _ _ _ _ _ _ _ E) as [l Hl].
    exists l. simpl in *. now rewrite Hl, <- app_assoc.
  - repeat split; try congruence.
    intros [rest Hrest]. rewrite Hout in Hrest. simpl in Hrest.
    rewrite <- (app_nil_r (console w1)) in Hrest at 1.
    now apply app_inv_head in Hrest.
Qed.

Lemma fallback_iff_missing_unpacked_witness :
  extractAll (Reference.codec Sample.app) "app.asar" "out" Sample.bare
    = (Throws Sample.missingAddon, Sample.afterBulk) /\
  let out :=
    extractAsarWithUnpacked (Reference.codec Sample.app) 1 "app.asar" "out"
      (Sample.start Sample.bare) in
  (enteredFallback [] out <-> underUnpacked Sample.missingAddon) /\
  (underUnpacked Sample.missingAddon ->
   out = extractAsarManually (Reference.codec Sample.app) "app.asar" "out"
           "app.asar.unpacked" (mkWorld Sample.afterBulk [fallbackWarning])) /\
  (~ underUnpacked Sample.missingAddon ->
   out = (Throw Sample.missingAddon, mkWorld Sample.afterBulk [])).
Proof.
  split; [reflexivity|].
  exact (fallback_iff_missing_unpacked (Reference.codec Sample.app) 1
           "app.asar" "out" (Sample.start Sample.bare)
           (Sample.start Sample.bare) Sample.afterBulk Sample.missingAddon
           eq_refl eq_refl).
Defined.

(** ** One entry of the manual extraction *)

Lemma alreadyThere_absent (dest : string) (w : World) :
  Fs.existsSync dest (fs w) = false -> alreadyThere dest w = (Ok false, w).
Proof.
  intros H. unfold alreadyThere, bind, existsSync, reading. simpl.
  now rewrite H.
Qed.

Lemma alreadyThere_isFile (dest : string) (st : Fs.Stats) (w : World) :
  Fs.statSync dest (fs w) = Returns st -> Fs.isFile st = true ->
  alreadyThere dest w = (Ok true, w).
Proof.
  intros Hs Hf. destruct (statSync_returns _ _ _ Hs) as [He _].
  unfold alreadyThere, bind, existsSync, statSync, reading. simpl.
  rewrite He. simpl. rewrite Hs. simpl. now rewrite Hf.
Qed.

Lemma alreadyThere_isDirectory (dest : string) (st : Fs.Stats) (w : World)
    (removal : Returned unit) (tree1 : Fs.node) :
  Fs.statSync dest (fs w) = Returns st -> Fs.isFile st = false ->
  Fs.removeSync dest (fs w) = (removal, tree1) ->
  alreadyThere dest w =
  match removal with
  | Returns _ => (Ok false, mkWorld tree1 (console w))
  | Throws err => (Throw err, mkWorld tree1 (console w))
  end.
Proof.
  intros Hs Hf Hr. destruct (statSync_returns _ _ _ Hs) as [He Hst].
  unfold alreadyThere, bind, existsSync, statSync, removeSync, reading,
    writing.
  simpl. rewrite He. simpl. rewrite Hs. simpl. rewrite Hf.
  destruct Hst as [-> | ->]; [discriminate|]. simpl. rewrite Hr.
  destruct removal as [[]|err]; reflexivity.
Qed.

Lemma forOf_step {A} (x : A) (xs : list A) (body : A -> M unit)
    (w w' : World) :
  body x w = (Ok tt, w') -> forOf (x :: xs) body w = forOf xs body w'.
Proof. intros H. simpl. unfold bind. now rewrite H. Qed.

Lemma forOf_throws {A} (x : A) (xs : list A) (body : A -> M unit)
    (w w' : World) (err : Js.Error) :
  body x w = (Throw err, w') -> forOf (x :: xs) body w = (Throw err, w').
Proof. intros H. simpl. unfold bind. now rewrite H. Qed.

(** The run of a file entry, by what [alreadyThere] made of its
    destination. *)
Lemma extractEntry_file (asar : Codec) (asarFile destDir : string)
    (header : AsarNode) (filename : string) (w : World) :
  let name := Path.stripLeading filename in
  let dest := Path.join destDir name in
  let info := getAsarEntryInfo header name in
  isDir info = false ->
  extractEntry asar asarFile destDir header filename w =
  match alreadyThere dest w with
  | (Ok true, w1) => (Ok tt, w1)
  | (Ok false, w1) =>
      if isUnpacked info then warn (skippingMissing name) w1
      else try_catch (extractRegular asar asarFile name dest)
             (fun err => warn (failedToExtract name err)) w1
  | (Throw err, w1) => (Throw err, w1)
  | (Timeout, w1) => (Timeout, w1)
  end.
Proof.
  intros name dest info Hd. unfold extractEntry.
  fold name. fold dest. fold info. rewrite Hd. unfold bind.
  destruct (alreadyThere dest w) as [[[]| |] w1]; try reflexivity.
  now destruct (isUnpacked info).
Qed.

(** The run of a directory entry. *)
Lemma extractEntry_dir (asar : Codec) (asarFile destDir : string)
    (header : AsarNode) (filename : string) (w : World) :
  let name := Path.stripLeading filename in
  let dest := Path.join destDir name in
  isDir (getAsarEntryInfo header name) = true ->
  extractEntry asar asarFile destDir header filename w =
  if Fs.existsSync dest (fs w) then (Ok tt, w)
  else (called (fst (Fs.ensureDirSync dest (fs w))),
        mkWorld (snd (Fs.ensureDirSync dest (fs w))) (console w)).
Proof.
  intros name dest Hd. unfold extractEntry. fold name. fold dest.
  rewrite Hd. unfold bind, existsSync, ensureDirSync, reading, writing. simpl.
  destruct (Fs.existsSync dest (fs w)); simpl; [reflexivity|].
  now destruct (Fs.ensureDirSync dest (fs w)).
Qed.

(** C4 (amended): an entry that is flagged externally stored and is not
    a directory entry gets the warning and is skipped, and the loop goes
    on with the entries after it, when nothing exists at its destination
    and when a directory that stands there can be removed; when the
    directory cannot be removed, the error of the removal is not caught:
    it ends the loop, without a warning.  A directory entry is handled as
    a directory whatever its flag: nothing happens when something exists
    at its destination, it is created when nothing does, no warning is
    written, and an error of its creation is thrown. *)
Theorem missing_external_file_skipped (asar : Codec)
    (asarFile destDir : string) (header : AsarNode) (filename : string)
    (rest : list string) (w : World) :
  let name := Path.stripLeading filename in
  let dest := Path.join destDir name in
  let info := getAsarEntryInfo header name in
  let run := extractEntry asar asarFile destDir header in
  let warned tree := mkWorld tree (console w ++ [skippingMissing name]) in
  isUnpacked info = true ->
  (isDir info = false ->
   (Fs.existsSync dest (fs w) = false ->
    run filename w = (Ok tt, warned (fs w)) /\
    forOf (filename :: rest) run w = forOf rest run (warned (fs w))) /\
   (forall st removal tree1,
      Fs.statSync dest (fs w) = Returns st -> Fs.isFile st = false ->
      Fs.removeSync dest (fs w) = (removal, tree1) ->
      (removal = Returns tt ->
       run filename w = (Ok tt, warned tree1) /\
       forOf (filename :: rest) run w = forOf rest run (warned tree1)) /\
      (forall err,
         removal = Throws err ->
         forOf (filename :: rest) run w
           = (Throw err, mkWorld tree1 (console w))))) /\
  (isDir info = true ->
   (Fs.existsSync dest (fs w) = true -> run filename w = (Ok tt, w)) /\
   (forall created tree1,
      Fs.existsSync dest (fs w) = false ->
      Fs.ensureDirSync dest (fs w) = (created, tree1) ->
      run filename w = (called created, mkWorld tree1 (console w)))).
Proof.
  intros name dest info run warned Hunp. split.
  - intros Hdir.
    pose proof (extractEntry_file asar asarFile destDir header filename w Hdir)
      as Hrun.
    cbv zeta in Hrun. fold name dest info in Hrun. rewrite Hunp in Hrun.
    split.
    + intros Hex. rewrite (alreadyThere_absent _ _ Hex) in Hrun.
      split; [exact Hrun | now apply forOf_step].
    + intros st removal tree1 Hst Hf Hrem.
      rewrite (alreadyThere_isDirectory _ _ _ _ _ Hst Hf Hrem) in Hrun.
      split.
      * intros ->. split; [exact Hrun | now apply forOf_step].
      * intros err ->. now apply forOf_throws.
  - intros Hdir.
    pose proof (extractEntry_dir asar asarFile destDir header filename w Hdir)
      as Hrun.
    cbv zeta in Hrun. fold name dest in Hrun. split.
    + intros Hex. unfold run. now rewrite Hrun, Hex.
    + intros created tree1 Hex Hmk. unfold run. now rewrite Hrun, Hex, Hmk.
Qed.

Lemma missing_external_file_skipped_witness :
  let body :=
    extractEntry (Reference.codec Sample.app) "app.asar" "out"
      (Reference.header Sample.app) in
  let warning := skippingMissing "addon.node" in
  (let w := Sample.start Sample.bare in
   body "/addon.node" w = (Ok tt, mkWorld Sample.bare [warning]) /\
   forOf ["/addon.node"; "/main.js"] body w =
   forOf ["/main.js"] body (mkWorld Sample.bare [warning])) /\
  (let w := Sample.start Sample.staleAddon in
   body "/addon.node" w = (Ok tt, mkWorld Sample.afterBulk [warning])) /\
  (let w := Sample.start Sample.guarded in
   forOf ["/addon.node"; "/main.js"] body w =
   (Throw (Js.sysError "EACCES" "lstat" "out/addon.node/build/lock"),
    Sample.start Sample.guardedLeft)).
Proof.
  pose proof (fun w =>
    proj1 (missing_external_file_skipped (Reference.codec Sample.app)
             "app.asar" "out" (Reference.header Sample.app)
             "/addon.node" ["/main.js"] w eq_refl) eq_refl) as H.
  split; [|split].
  - exact (proj1 (H (Sample.start Sample.bare)) eq_refl).
  - exact (proj1 (proj1 (proj2 (H (Sample.start Sample.staleAddon))
                           (Fs.mkStats false true) (Returns tt)
                           Sample.afterBulk eq_refl eq_refl eq_refl)
                   eq_refl)).
  - exact (proj2 (proj2 (H (Sample.start Sample.guarded))
                    (Fs.mkStats false true)
                    (Throws (Js.sysError "EACCES" "lstat"
                               "out/addon.node/build/lock"))
                    Sample.guardedLeft eq_refl eq_refl eq_refl)
             _ eq_refl).
Defined.

(** C4, as stated, fails on a directory entry: the directory [native] is
    flagged externally stored and nothing is at its destination, yet the
    entry is handled as a directory: it is created and no warning is
    written, and where it cannot be created (a file stands where [out]
    should be) the error ends the manual extraction before [main.js] is
    looked at. *)
Lemma flagged_directory_not_reported :
  let header := Reference.header Sample.native in
  let body :=
    extractEntry (Reference.codec Sample.native) "app.asar" "out" header in
  let out := body "/native" (Sample.start Sample.bare) in
  isUnpacked (getAsarEntryInfo header "native") = true /\
  Fs.existsSync (Path.join "out" "native") Sample.bare = false /\
  fst out = Ok tt /\
  console (snd out) = [] /\
  Fs.statSync (Path.join "out" "native") (fs (snd out))
    = Returns (Fs.mkStats false true) /\
  Fs.existsSync (Path.join "out" "native") Sample.blocked = false /\
  forOf ["/native"; "/main.js"] body (Sample.start Sample.blocked)
    = (Throw (Js.sysError "ENOTDIR" "mkdir" "out/native"),
       Sample.start Sample.blocked).
Proof. vm_compute. repeat split. Qed.

Lemma removelast_snoc {A} (q : list A) (s : A) : removelast (q ++ [s]) = q.
Proof. apply removelast_last. Qed.

Lemma straight_dest (destDir name : string) :
  Path.tidy name = true -> straight (Path.join destDir name).
Proof. intros H. now apply join_straight, tidy_descends. Qed.

(** Writing the bytes of an entry once nothing stands at its destination
    and the directory above is there. *)
Lemma extractRegular_fresh (asar : Codec)
    (asarFile destDir name bytes : string) (q : list string) (s : string)
    (es : list (string * Fs.node)) (w : World) :
  let dest := Path.join destDir name in
  Path.tidy name = true ->
  Path.names dest = (q ++ [s])%list ->
  Fs.get q (fs w) = Some (Fs.Dir es) ->
  Fs.alookup s es = None ->
  extractFile asar asarFile name (fs w) = Returns (Js.VBuffer bytes) ->
  exists tree',
    extractRegular asar asarFile name dest w
      = (Ok tt, mkWorld tree' (console w)) /\
    Fs.get (Path.names dest) tree' = Some (Fs.File bytes) /\
    Fs.readFileSync dest tree' = Returns bytes.
Proof.
  intros dest Ht Hseg Hq Hs Hx.
  pose proof (straight_dest destDir name Ht) as Hst. fold dest in Hst.
  destruct (write_new q s bytes _ _ Hq Hs) as [tree' Hw].
  assert (Hwr : Fs.writeFileSync dest bytes (fs w) = (Returns tt, tree'))
    by now rewrite (writeFileSync_straight _ _ _ Hst), Hseg, Hw.
  exists tree'. split; [|split].
  - unfold extractRegular, bind, reading, ensureDirSync, writeFileSync,
      writing.
    rewrite Hx. simpl.
    rewrite (ensureDirSync_names _ _ (dirname_truthy dest)).
    unfold dest at 1. rewrite (dirname_join _ _ (tidy_descends _ Ht)).
    rewrite <- (join_names _ _ (tidy_descends _ Ht)). fold dest.
    rewrite Hseg, removelast_snoc, (mkdirp_there _ _ _ Hq). simpl.
    now rewrite Hwr.
  - rewrite Hseg. now apply write_get in Hw.
  - now apply writeFileSync_read in Hwr.
Qed.



Lemma includes_skippingMissing (name : string) :
  Js.includes name (skippingMissing name) = true.
Proof.
  apply includes_spec.
  exists "Warning: Skipping missing unpacked file: ", EmptyString.
  unfold skippingMissing. now rewrite append_empty_r.
Qed.

Lemma includes_failedToExtract (name : string) (err : Js.Error) :
  Js.includes name (failedToExtract name err) = true.
Proof.
  apply includes_spec.
  now exists "Warning: Failed to extract ", (": " ++ Js.message err).
Qed.

(** What the [try] block and its [catch] make of a file entry that is not
    externally stored. *)
Lemma extractRegular_caught (asar : Codec) (asarFile name dest : string)
    (w : World) :
  let tried := extractFile asar asarFile name (fs w) in
  exists w',
    try_catch (extractRegular asar asarFile name dest)
      (fun err => warn (failedToExtract name err)) w = (Ok tt, w') /\
    ((exists bytes,
        tried = Returns (Js.VBuffer bytes) /\
        Fs.readFileSync dest (fs w') = Returns bytes /\
        console w' = console w) \/
     (exists line,
        console w' = (console w ++ [line])%list /\
        Js.includes name line = true) \/
     ((tried = Returns Js.VUndefined \/ tried = Returns Js.VOther) /\ w' = w)).
Proof.
  intros tried. unfold try_catch, extractRegular, bind, reading.
  fold tried. destruct tried as [[|bytes|]|e] eqn:Ht; simpl.
  - exists w. split; [reflexivity|]. right. right. now split; [left|].
  - unfold ensureDirSync, writeFileSync, writing.
    destruct (Fs.ensureDirSync (Path.dirname dest) (fs w)) as [[[]|e] t1]
      eqn:Hm; simpl.
    + destruct (Fs.writeFileSync dest bytes t1) as [[[]|e] t2] eqn:Hw; simpl.
      * eexists. split; [reflexivity|]. left. exists bytes. simpl.
        repeat split. now apply writeFileSync_read in Hw.
      * eexists. split; [reflexivity|]. right. left. eexists.
        split; [reflexivity | apply includes_failedToExtract].
    + eexists. split; [reflexivity|]. right. left. eexists.
      split; [reflexivity | apply includes_failedToExtract].
  - exists w. split; [reflexivity|]. right. right. now split; [right|].
  - eexists. split; [reflexivity|]. right. left. eexists.
    split; [reflexivity | apply includes_failedToExtract].
Qed.

Lemma alreadyThere_silent (dest : string) (w : World) :
  console (snd (alreadyThere dest w)) = console w.
Proof.
  unfold alreadyThere, bind, existsSync, statSync, removeSync, reading,
    writing. cbn.
  destruct (Fs.existsSync dest (fs w)); cbn; [|reflexivity].
  destruct (Fs.statSync dest (fs w)) as [st|e]; cbn; [|reflexivity].
  destruct (Fs.isFile st); cbn; [reflexivity|].
  destruct (Fs.isDirectory st); cbn; [|reflexivity].
  now destruct (Fs.removeSync dest (fs w)) as [[[]|e] t].
Qed.

(** An entry whose run throws has written nothing on the console. *)
Lemma extractEntry_throws_silent (asar : Codec) (asarFile destDir : string)
    (header : AsarNode) (filename : string) (w w' : World) (err : Js.Error) :
  extractEntry asar asarFile destDir header filename w = (Throw err, w') ->
  console w' = console w.
Proof.
  destruct (isDir (getAsarEntryInfo header (Path.stripLeading filename)))
    eqn:Hd.
  - rewrite (extractEntry_dir asar asarFile destDir header filename w Hd).
    destruct (Fs.existsSync _ (fs w)); [discriminate|].
    now intros [= _ <-].
  - rewrite (extractEntry_file asar asarFile destDir header filename w Hd).
    pose proof (alreadyThere_silent
                  (Path.join destDir (Path.stripLeading filename)) w) as Hc.
    destruct (alreadyThere _ w) as [[[|]|e|] w1]; cbn [snd] in Hc;
      try discriminate.
    + destruct (isUnpacked _); [discriminate|].
      destruct (extractRegular_caught asar asarFile
                  (Path.stripLeading filename)
                  (Path.join destDir (Path.stripLeading filename)) w1)
        as (w2 & -> & _).
      discriminate.
    + now intros [= _ <-].
Qed.




(** ** The copy of the unpacked files *)

Lemma inaccessible_spec (err : Js.Error) :
  inaccessible err = true <-> notFoundOrDenied err.
Proof.
  unfold inaccessible, notFoundOrDenied.
  now rewrite !orb_true_iff, !codeIs_spec, or_assoc.
Qed.

Lemma copyItems_returned (recur : string -> string -> M unit)
    (srcDir destDir item : string) (rest : list string) (w w' : World) :
  copyItem recur srcDir destDir item w = (Ok tt, w') ->
  copyItems recur srcDir destDir (item :: rest) w =
  copyItems recur srcDir destDir rest w'.
Proof.
  intros H. unfold copyItems at 1. simpl. unfold bind, try_catch.
  now rewrite H.
Qed.

Lemma copyItems_caught (recur : string -> string -> M unit)
    (srcDir destDir item : string) (rest : list string) (w w' : World)
    (err : Js.Error) :
  copyItem recur srcDir destDir item w = (Throw err, w') ->
  copyItems recur srcDir destDir (item :: rest) w =
  if inaccessible err
  then copyItems recur srcDir destDir rest
         (mkWorld (fs w')
            (console w' ++ [skippingInaccessible (Path.join srcDir item)]))
  else (Throw err, w').
Proof.
  intros H. unfold copyItems at 1. simpl. unfold bind, try_catch.
  rewrite H. destruct (inaccessible err); reflexivity.
Qed.

Lemma copyItems_throws (recur : string -> string -> M unit)
    (srcDir destDir : string) (items : list string) (w w' : World)
    (err : Js.Error) :
  copyItems recur srcDir destDir items w = (Throw err, w') ->
  inaccessible err = false.
Proof.
  revert w; induction items as [|item rest IH]; intros w; [discriminate|].
  unfold copyItems in *. simpl. unfold bind, try_catch.
  destruct (copyItem recur srcDir destDir item w) as [[[]|e|] w1].
  - apply IH.
  - destruct (inaccessible e) eqn:E.
    + unfold warn. apply IH.
    + unfold throw. now intros [= <- _].
  - discriminate.
Qed.

Lemma copyUnpackedFiles_absent (fuel : nat) (srcDir destDir : string)
    (w : World) :
  Fs.existsSync srcDir (fs w) = false ->
  copyUnpackedFiles (S fuel) srcDir destDir w = (Ok tt, w).
Proof.
  intros H. simpl. unfold bind, existsSync, reading. simpl. now rewrite H.
Qed.

Lemma copyUnpackedFiles_unread (fuel : nat) (srcDir destDir : string)
    (err : Js.Error) (w : World) :
  Fs.existsSync srcDir (fs w) = true ->
  Fs.readdirSync srcDir (fs w) = Throws err ->
  copyUnpackedFiles (S fuel) srcDir destDir w = (Throw err, w).
Proof.
  intros Hex Hrd. simpl.
  unfold bind, existsSync, readdirSync, reading. simpl.
  rewrite Hex. simpl. now rewrite Hrd.
Qed.

Lemma copyUnpackedFiles_loop (fuel : nat) (srcDir destDir : string)
    (items : list string) (w : World) :
  Fs.existsSync srcDir (fs w) = true ->
  Fs.readdirSync srcDir (fs w) = Returns items ->
  copyUnpackedFiles (S fuel) srcDir destDir w =
  copyItems (copyUnpackedFiles fuel) srcDir destDir items w.
Proof.
  intros Hex Hrd. simpl.
  unfold bind, existsSync, readdirSync, reading. simpl.
  rewrite Hex. simpl. now rewrite Hrd.
Qed.

(** C7: [copyUnpackedFiles] returns at once, with nothing changed, when
    the source directory does not exist.  Otherwise the copy is the loop
    over the entries the directory is read to hold, from the world as it
    is, and what the loop leaves and returns or throws is what the copy
    leaves and returns or throws; the copy of a directory among the
    entries is the same function, a level further down.  At every level,
    the loop goes on from what an entry that was copied leaves; an entry
    whose copy fails with ENOENT, EPERM or EACCES is reported with one
    warning and the loop goes on with the entries after it; a failure
    with any other code ends the loop with that error.  So no error with
    one of the three codes ever leaves a loop, and an error with another
    code leaves every loop around it. *)
Theorem copyUnpackedFiles_skips_inaccessible :
  (forall fuel srcDir destDir w,
     Fs.existsSync srcDir (fs w) = false ->
     copyUnpackedFiles (S fuel) srcDir destDir w = (Ok tt, w)) /\
  (forall fuel srcDir destDir items w,
     Fs.existsSync srcDir (fs w) = true ->
     Fs.readdirSync srcDir (fs w) = Returns items ->
     copyUnpackedFiles (S fuel) srcDir destDir w =
     copyItems (copyUnpackedFiles fuel) srcDir destDir items w) /\
  (forall recur srcDir destDir w,
     copyItems recur srcDir destDir [] w = (Ok tt, w)) /\
  (forall recur srcDir destDir item rest w w',
     copyItem recur srcDir destDir item w = (Ok tt, w') ->
     copyItems recur srcDir destDir (item :: rest) w =
     copyItems recur srcDir destDir rest w') /\
  (forall recur srcDir destDir item rest w w' err,
     copyItem recur srcDir destDir item w = (Throw err, w') ->
     (notFoundOrDenied err ->
      copyItems recur srcDir destDir (item :: rest) w =
      copyItems recur srcDir destDir rest
        (mkWorld (fs w')
           (console w' ++ [skippingInaccessible (Path.join srcDir item)]))) /\
     (~ notFoundOrDenied err ->
      copyItems recur srcDir destDir (item :: rest) w = (Throw err, w'))) /\
  (forall recur srcDir destDir item w st,
     Fs.statSync (Path.join srcDir item) (fs w) = Returns st ->
     Fs.isDirectory st = true ->
     forall made,
       Fs.ensureDirSync (Path.join destDir item) (fs w) = (Returns tt, made) ->
       copyItem recur srcDir destDir item w =
       recur (Path.join srcDir item) (Path.join destDir item)
         (mkWorld made (console w))) /\
  (forall recur srcDir destDir items w w' err,
     copyItems recur srcDir destDir items w = (Throw err, w') ->
     ~ notFoundOrDenied err).
Proof.
  split; [|split; [|split; [|split; [|split; [|split]]]]].
  - intros. now apply copyUnpackedFiles_absent.
  - intros. now apply copyUnpackedFiles_loop.
  - reflexivity.
  - intros. now apply copyItems_returned.
  - intros recur srcDir destDir item rest w w' err H.
    rewrite (copyItems_caught _ _ _ _ rest _ _ _ H).
    rewrite <- inaccessible_spec.
    destruct (inaccessible err); split; congruence.
  - intros recur srcDir destDir item w st Hst Hd made Hm.
    unfold copyItem, bind, statSync, ensureDirSync, reading, writing.
    simpl. rewrite Hst. simpl. rewrite Hd, Hm. reflexivity.
  - intros recur srcDir destDir items w w' err H.
    rewrite <- inaccessible_spec.
    now rewrite (copyItems_throws _ _ _ _ _ _ _ H).
Qed.

Lemma copyUnpackedFiles_skips_inaccessible_witness :
  let src := "app.asar.unpacked" in
  let w := Sample.start Sample.locked in
  copyUnpackedFiles 2 "nowhere" "out" w = (Ok tt, w) /\
  copyUnpackedFiles 2 src "out" w =
  copyItems (copyUnpackedFiles 1) src "out" ["addon.node"]
    (mkWorld Sample.locked
       ["Warning: Skipping inaccessible file: app.asar.unpacked/secret"]) /\
  (let failed := Js.sysError "EEXIST" "mkdir" "out" in
   let w := Sample.start Sample.blocked in
   copyUnpackedFiles 2 src "out" w = (Throw failed, w)).
Proof.
  destruct copyUnpackedFiles_skips_inaccessible
    as (Hnone & Hall & _ & _ & Hitem & _ & _).
  split;
    [exact (Hnone 1 "nowhere" "out" (Sample.start Sample.locked) eq_refl)|].
  split.
  - rewrite (Hall 1 "app.asar.unpacked" "out" ["secret"; "addon.node"]
               (Sample.start Sample.locked) eq_refl eq_refl).
    refine (proj1 (Hitem (copyUnpackedFiles 1) "app.asar.unpacked" "out"
                     "secret" ["addon.node"] (Sample.start Sample.locked)
                     (Sample.start Sample.locked)
                     (Js.sysError "EACCES" "stat" "app.asar.unpacked/secret")
                     eq_refl) _).
    right. right. reflexivity.
  - cbv zeta.
    rewrite (Hall 1 "app.asar.unpacked" "out" ["addon.node"; "later.node"]
               (Sample.start Sample.blocked) eq_refl eq_refl).
    refine (proj2 (Hitem (copyUnpackedFiles 1) "app.asar.unpacked" "out"
                     "addon.node" ["later.node"] (Sample.start Sample.blocked)
                     (Sample.start Sample.blocked)
                     (Js.sysError "EEXIST" "mkdir" "out") eq_refl) _).
    intros [H | [H | H]]; discriminate.
Defined.

(** ** The diff patch *)

(** C2: when the hunks of a unit do not apply to the text of the old
    file, [patchDirWithPatch] throws an error whose message names the old
    file, and nothing is written or removed: the world after the call is
    the world before it, so the old file still holds its text. *)
Theorem failed_patch_writes_nothing (host : Host) (this : Patcher.t)
    (patch : ParsedDiff) (old : string) (w : World) (sourceData : string) :
  let oldPath := Path.join (Patcher.dir this) old in
  let out := Patcher.patchDirWithPatch host this patch w in
  oldFileName patch = Some old ->
  Fs.readFileSync oldPath (fs w) = Returns sourceData ->
  applyPatch host sourceData patch = None ->
  out = (Throw (Js.newError ("Can't patch " ++ old)), w) /\
  (exists err,
     fst out = Throw err /\ Js.includes old (Js.message err) = true) /\
  fs (snd out) = fs w /\
  Fs.readFileSync oldPath (fs (snd out)) = Returns sourceData.
Proof.
  intros oldPath out Hold Hread Happly.
  assert (H : out = (Throw (Js.newError ("Can't patch " ++ old)), w)).
  { unfold out, Patcher.patchDirWithPatch, Patcher.joinName, bind,
      readFileSync, reading.
    rewrite Hold. simpl. fold oldPath. rewrite Hread. simpl.
    now rewrite Happly. }
  rewrite H. cbn [fst snd]. repeat split; try assumption.
  eexists. split; [reflexivity|]. cbn [Js.message Js.newError].
  apply includes_spec. exists "Can't patch ", EmptyString.
  now rewrite append_empty_r.
Qed.

Lemma failed_patch_writes_nothing_witness :
  let w := Sample.start (Sample.extracted "x") in
  let text := "one" ++ Node.newline ++ "two" ++ Node.newline ++ "three" in
  let out := Patcher.patchDirWithPatch Sample.host Sample.patcher
               Sample.twoHunks w in
  applyPatch Sample.host text Sample.twoHunks = None /\
  out = (Throw (Js.newError "Can't patch src/a.js"), w) /\
  (exists err,
     fst out = Throw err /\ Js.includes "src/a.js" (Js.message err) = true) /\
  fs (snd out) = fs w /\
  Fs.readFileSync "app/src/a.js" (fs (snd out)) = Returns text.
Proof.
  split; [reflexivity|].
  exact (failed_patch_writes_nothing Sample.host Sample.patcher Sample.twoHunks
           "src/a.js" (Sample.start (Sample.extracted "x"))
           ("one" ++ Node.newline ++ "two" ++ Node.newline ++ "three")
           eq_refl eq_refl eq_refl).
Defined.

(** ** The pattern patch *)

(** A file that was read can be written, and then holds what was
    written. *)
Lemma writeFileSync_over (p d d0 : string) (t : Fs.node) :
  Fs.readFileSync p t = Returns d0 ->
  exists t',
    Fs.writeFileSync p d t = (Returns tt, t') /\
    Fs.readFileSync p t' = Returns d.
Proof.
  intros Hread. destruct (readFileSync_names _ _ _ Hread) as [Hres Hget].
  destruct (write_over_file _ d _ _ Hget) as [t' Hw].
  assert (H : Fs.writeFileSync p d t = (Returns tt, t'))
    by (unfold Fs.writeFileSync, Fs.writeAt; now rewrite Hres, Hw).
  exists t'. split; [exact H | now apply writeFileSync_read in H].
Qed.

(** C3: when the replacement leaves the text as it is, the pattern patch
    throws and leaves the world as it is; the error is the one of a patch
    already applied exactly when the marker occurs in the text, and the
    one of a pattern not found exactly when it does not.  When the
    replacement changes the text, the file is overwritten with the new
    text; it is overwritten in no other case. *)
Theorem pattern_patch_outcomes (host : Host) (this : Patcher.t) (w : World)
    (sourceData : string) :
  let bundlePath :=
    Path.join (Patcher.dir this) "src/main/static/main.bundle.js" in
  let patched := replaceSearchValue host sourceData in
  let out := Patcher.patchDirWithPro host this w in
  Fs.readFileSync bundlePath (fs w) = Returns sourceData ->
  (patched = sourceData ->
   snd out = w /\
   (fst out = Throw (Js.newError Patcher.alreadyPatched) <->
    Js.includes Patcher.patchedPattern sourceData = true) /\
   (fst out = Throw (Js.newError Patcher.patternMatchFailed) <->
    Js.includes Patcher.patchedPattern sourceData = false)) /\
  (patched <> sourceData ->
   fst out = Ok tt /\
   Fs.readFileSync bundlePath (fs (snd out)) = Returns patched /\
   console (snd out) = console w) /\
  (fs (snd out) <> fs w -> patched <> sourceData).
Proof.
  intros bundlePath patched out Hread.
  assert (Hsame : patched = sourceData ->
            out = (Throw (Js.newError
                            (if Js.includes Patcher.patchedPattern sourceData
                             then Patcher.alreadyPatched
                             else Patcher.patternMatchFailed)), w)).
  { intros Heq.
    unfold out, Patcher.patchDirWithPro, bind, readFileSync, reading.
    fold bundlePath. rewrite Hread. simpl. fold patched. rewrite Heq.
    rewrite String.eqb_refl.
    destruct (Js.includes Patcher.patchedPattern sourceData); reflexivity. }
  split; [|split].
  - intros Heq. rewrite (Hsame Heq). simpl. split; [reflexivity|].
    destruct (Js.includes Patcher.patchedPattern sourceData);
      split; split; intros H; try reflexivity; try discriminate.
  - intros Hne.
    destruct (writeFileSync_over bundlePath patched _ _ Hread)
      as (t' & Hw & Hnew).
    assert (Hout : out = (Ok tt, mkWorld t' (console w))).
    { unfold out, Patcher.patchDirWithPro, bind, readFileSync, reading.
      fold bundlePath. rewrite Hread. simpl. fold patched.
      destruct (String.eqb_spec sourceData patched) as [E|_];
        [now destruct Hne|].
      unfold writeFileSync, writing. now rewrite Hw. }
    rewrite Hout. simpl. now repeat split.
  - intros Hfs Heq. rewrite (Hsame Heq) in Hfs. now apply Hfs.
Qed.

Lemma pattern_patch_outcomes_witness :
  let run bundle :=
    Patcher.patchDirWithPro Sample.host Sample.patcher
      (Sample.start (Sample.extracted bundle)) in
  let done := "function f(){" ++ Sample.replaceValue in
  (snd (run done) = Sample.start (Sample.extracted done) /\
   fst (run done) = Throw (Js.newError Patcher.alreadyPatched)) /\
  (snd (run "x") = Sample.start (Sample.extracted "x") /\
   fst (run "x") = Throw (Js.newError Patcher.patternMatchFailed)) /\
  (fst (run "function f(){return decode()};") = Ok tt /\
   Fs.readFileSync "app/src/main/static/main.bundle.js"
     (fs (snd (run "function f(){return decode()};"))) = Returns done).
Proof.
  split; [|split].
  - destruct (proj1 (pattern_patch_outcomes Sample.host Sample.patcher
                       (Sample.start
                          (Sample.extracted
                             ("function f(){" ++ Sample.replaceValue)))
                       ("function f(){" ++ Sample.replaceValue) eq_refl)
                eq_refl) as (Hw & Hdone & _).
    split; [exact Hw | now apply Hdone].
  - destruct (proj1 (pattern_patch_outcomes Sample.host Sample.patcher
                       (Sample.start (Sample.extracted "x")) "x" eq_refl)
                eq_refl) as (Hw & _ & Hmiss).
    split; [exact Hw | now apply Hmiss].
  - destruct (proj1 (proj2 (pattern_patch_outcomes Sample.host Sample.patcher
                       (Sample.start
                          (Sample.extracted "function f(){return decode()};"))
                       "function f(){return decode()};" eq_refl)))
      as (Hok & Hnew & _); [vm_compute; discriminate|].
    split; [exact Hok | exact Hnew].
Defined.

(** ** The constructor *)

Lemma findAsarUnix_reads (candidates : list string) (w : World) :
  Patcher.findAsarUnix candidates w =
  (Ok (find (fun file => Fs.existsSync file (fs w)) candidates), w).
Proof. reflexivity. Qed.

(** Looking for the archive changes nothing and does not run out of
    fuel. *)
Lemma resolveAsar_reads (host : Host) (options : Patcher.IPatcherOptions)
    (w : World) :
  (exists found, resolveAsar host options w = (Ok found, w)) \/
  (exists err, resolveAsar host options w = (Throw err, w)).
Proof.
  unfold resolveAsar.
  destruct (Js.orElse (Patcher.opt_asar options) None) as [a|];
    [left; now eexists|].
  unfold Patcher.findAsar.
  destruct (Js.orElse (Patcher.opt_dir options) None) as [d|];
    [left; now eexists|].
  destruct (CURRENT_PLATFORM host) as [[| |]|];
    try (left; now eexists).
  unfold Patcher.findAsarWindows, bind, existsSync, readdirSync, reading, ret.
  simpl.
  destruct (Fs.existsSync _ (fs w)); simpl; [|left; now eexists].
  destruct (Fs.readdirSync _ (fs w)) as [items|e]; simpl;
    [|right; now eexists].
  destruct (natsortDesc host (filter Patcher.isAppDir items)) as [|app apps];
    [left; now eexists|].
  destruct (Js.truthy app); simpl; left; now eexists.
Qed.

(** C10: the constructor throws when the options resolve to no archive
    (none is named and none is found, or the search itself throws), it
    throws when an archive is resolved and the list of features is empty,
    and in every other case it returns, with the getters giving the
    archive resolved, the directory resolved and the features as given.
    An archive or a directory named in the options always resolves. *)
Theorem constructor_outcomes (host : Host) (options : Patcher.IPatcherOptions)
    (w : World) :
  let new := Patcher.constructor host options w in
  let resolved := resolveAsar host options w in
  ((exists found, resolved = (Ok found, w)) \/
   (exists err, resolved = (Throw err, w))) /\
  (forall err, resolved = (Throw err, w) -> new = (Throw err, w)) /\
  (forall found,
     resolved = (Ok found, w) -> Js.orElse found None = None ->
     new = (Throw cantFind, w)) /\
  (forall a,
     resolved = (Ok (Some a), w) -> Js.truthy a = true ->
     Patcher.opt_features options = [] ->
     new = (Throw featuresEmpty, w)) /\
  (forall a,
     resolved = (Ok (Some a), w) -> Js.truthy a = true ->
     Patcher.opt_features options <> [] ->
     exists this,
       new = (Ok this, w) /\
       Patcher.asar this = a /\
       Patcher.dir this = resolveDir host options a /\
       Patcher.features this = Patcher.opt_features options) /\
  (forall a,
     Patcher.opt_asar options = Some a -> Js.truthy a = true ->
     resolved = (Ok (Some a), w)) /\
  (forall d,
     Js.orElse (Patcher.opt_asar options) None = None ->
     Patcher.opt_dir options = Some d -> Js.truthy d = true ->
     resolved = (Ok (Some (normalize host d ++ ".asar")), w)).
Proof.
  intros new resolved.
  assert (Hnew : new =
            match resolved with
            | (Ok found, w') =>
                match Js.orElse found None with
                | None => (Throw cantFind, w')
                | Some a =>
                    if Nat.eqb (List.length (Patcher.opt_features options)) 0
                    then (Throw featuresEmpty, w')
                    else (Ok (Patcher.mk a (resolveDir host options a)
                                (Patcher.opt_features options)), w')
                end
            | (Throw e, w') => (Throw e, w')
            | (Timeout, w') => (Timeout, w')
            end).
  { unfold new, Patcher.constructor, bind. fold (resolveAsar host options).
    fold resolved. destruct resolved as [[found|e|] w']; try reflexivity.
    destruct (Js.orElse found None) as [a|]; [|reflexivity].
    unfold Patcher.features. cbn [Patcher._features].
    destruct (Nat.eqb (List.length (Patcher.opt_features options)) 0);
      reflexivity. }
  split; [apply resolveAsar_reads|].
  repeat split.
  - intros err H. now rewrite Hnew, H.
  - intros found H Hnone. now rewrite Hnew, H, Hnone.
  - intros a H Ha Hf. rewrite Hnew, H. simpl. now rewrite Ha, Hf.
  - intros a H Ha Hf. rewrite Hnew, H. simpl. rewrite Ha.
    destruct (Patcher.opt_features options); [now destruct Hf|].
    simpl. now eexists.
  - intros a H Ha. unfold resolved, resolveAsar. rewrite H. simpl.
    now rewrite Ha.
  - intros d Hasar H Hd. unfold resolved, resolveAsar. rewrite Hasar.
    unfold Patcher.findAsar. rewrite H. simpl. now rewrite Hd.
Qed.

Lemma constructor_outcomes_witness :
  let w := Sample.start Sample.bare in
  let new options := Patcher.constructor Sample.host options w in
  new (Patcher.mkOptions None None ["pro"]) = (Throw cantFind, w) /\
  new (Patcher.mkOptions (Some "/x/app.asar") None []) =
    (Throw featuresEmpty, w) /\
  (exists this,
     new (Patcher.mkOptions None (Some "/x/app") ["pro"]) = (Ok this, w) /\
     Patcher.asar this = "/x/app.asar" /\
     Patcher.dir this = "/x/app" /\
     Patcher.features this = ["pro"]) /\
  (exists this,
     new (Patcher.mkOptions (Some "/y/app.asar") None ["pro"]) = (Ok this, w) /\
     Patcher.asar this = "/y/app.asar" /\
     Patcher.dir this = "/y/app" /\
     Patcher.features this = ["pro"]).
Proof.
  split; [|split; [|split]].
  - exact (proj1 (proj2 (proj2 (constructor_outcomes Sample.host
             (Patcher.mkOptions None None ["pro"]) (Sample.start Sample.bare))))
             None eq_refl eq_refl).
  - exact (proj1 (proj2 (proj2 (proj2 (constructor_outcomes Sample.host
             (Patcher.mkOptions (Some "/x/app.asar") None [])
             (Sample.start Sample.bare)))))
             "/x/app.asar" eq_refl eq_refl eq_refl).
  - refine (proj1 (proj2 (proj2 (proj2 (proj2 (constructor_outcomes Sample.host
             (Patcher.mkOptions None (Some "/x/app") ["pro"])
             (Sample.start Sample.bare))))))
             "/x/app.asar" eq_refl eq_refl _).
    discriminate.
  - refine (proj1 (proj2 (proj2 (proj2 (proj2 (constructor_outcomes Sample.host
             (Patcher.mkOptions (Some "/y/app.asar") None ["pro"])
             (Sample.start Sample.bare))))))
             "/y/app.asar" eq_refl eq_refl _).
    discriminate.
Defined.

(** ** A pass of the manual extraction *)

Lemma split_pieces (s : string) :
  forallb Path.sepFree (Path.pieces s) = true -> Path.split s = Path.pieces s.
Proof.
  induction s as [|c s IH]; [reflexivity|]. simpl. unfold Path.is_sep.
  destruct (Ascii.eqb c "/") eqn:E1; simpl.
  - intros H. now rewrite IH.
  - destruct (Path.pieces s) as [|p ps] eqn:Ep;
      [now destruct (pieces_not_nil s)|].
    simpl. unfold Path.is_sep. rewrite E1. simpl.
    destruct (Ascii.eqb c "\") eqn:E2; simpl; [discriminate|].
    intros H. apply andb_true_iff in H as [Hp Hps]. rewrite IH; [reflexivity|].
    simpl. now rewrite Hp, Hps.
Qed.

Lemma filter_all {A} (f : A -> bool) (l : list A) :
  forallb f l = true -> filter f l = l.
Proof.
  induction l as [|x l IH]; simpl; [reflexivity|].
  intros H. apply andb_true_iff in H as [-> H]. now rewrite IH.
Qed.

(** The split of the header lookup and the file system read a tidy name
    alike. *)
Lemma tidy_segments (b : string) :
  Path.tidy b = true -> Path.segments b = Path.pieces b.
Proof.
  unfold Path.tidy, Path.segments. intros H.
  rewrite split_pieces.
  - apply filter_all. rewrite forallb_forall in *. intros x Hx.
    specialize (H x Hx). apply andb_true_iff in H as [H _].
    now apply isName_truthy.
  - rewrite forallb_forall in *. intros x Hx. specialize (H x Hx).
    now apply andb_true_iff in H.
Qed.

Lemma destOf_parts (destDir filename : string) :
  Path.tidy (Path.stripLeading filename) = true ->
  destOf destDir filename = (Path.names destDir ++ partsOf filename)%list.
Proof.
  intros H. unfold destOf, partsOf.
  now rewrite (join_names _ _ (tidy_descends _ H)), (tidy_segments _ H).
Qed.

Lemma destOf_straight (destDir filename : string) :
  Path.tidy (Path.stripLeading filename) = true ->
  straight (Path.join destDir (Path.stripLeading filename)).
Proof. apply straight_dest. Qed.

Lemma existsSync_kind (p : string) (t : Fs.node) :
  straight p ->
  Fs.existsSync p t = true <->
  kindAt (Path.names p) t = KDir \/
  exists d, kindAt (Path.names p) t = KFile d.
Proof.
  intros Hs. rewrite (existsSync_straight p t Hs). unfold kindAt.
  destruct (Fs.get (Path.names p) t) as [[d|es|c]|]; simpl; split;
    try discriminate; try (intros [H | [d' H]]; discriminate);
    try reflexivity.
  - intros _. right. now exists d.
  - intros _. now left.
Qed.

(** What [alreadyThere] makes of a straight path. *)
Lemma alreadyThere_straight (dest : string) (w : World) :
  straight dest ->
  alreadyThere dest w =
  match Fs.get (Path.names dest) (fs w) with
  | Some (Fs.File _) => (Ok true, w)
  | Some (Fs.Dir es) =>
      match Fs.rm (Fs.Dir es) with
      | None =>
          (Ok false, mkWorld (Fs.del (Path.names dest) (fs w)) (console w))
      | Some (c, rel, rest) =>
          (Throw (Js.sysError c "lstat" (fold_left Path.join rel dest)),
           mkWorld (Fs.put (Path.names dest) rest (fs w)) (console w))
      end
  | _ => (Ok false, w)
  end.
Proof.
  intros Hs. pose proof (statSync_straight dest (fs w) Hs) as Hst.
  pose proof (existsSync_straight dest (fs w) Hs) as Hex.
  destruct (Fs.get (Path.names dest) (fs w)) as [[d|es|c]|] eqn:E.
  - now apply (alreadyThere_isFile _ _ _ Hst).
  - rewrite (alreadyThere_isDirectory dest _ w
               (fst (Fs.removeSync dest (fs w)))
               (snd (Fs.removeSync dest (fs w))) Hst eq_refl)
      by now destruct (Fs.removeSync dest (fs w)).
    rewrite (removeSync_straight _ _ _ Hs E).
    now destruct (Fs.rm (Fs.Dir es)) as [[[c rel] rest]|].
  - now apply alreadyThere_absent.
  - now apply alreadyThere_absent.
Qed.

Section ManualPass.

Variable asar : Codec.
Variables asarFile destDir : string.
Variable header : AsarNode.
Hypothesis Hfile :
  forall name t t',
    isUnpacked (getAsarEntryInfo header name) = false ->
    extractFile asar asarFile name t = extractFile asar asarFile name t'.

Lemma obstacle_not_none (k : Kind) : obstacle k -> k <> KNone.
Proof. intros [[d ->]|[c ->]]; discriminate. Qed.

Lemma settled_mkdirp (q : list string) (t t' : Fs.node) (g : string) :
  Fs.mkdirp q t = inr t' ->
  settled asar asarFile destDir header t g ->
  (isDir (getAsarEntryInfo header (Path.stripLeading g)) = false ->
   ~ above (destOf destDir g) q) ->
  settled asar asarFile destDir header t' g.
Proof.
  intros Hm Hs Hx. unfold settled in *.
  set (dest := destOf destDir g) in *.
  assert (Hkeep : forall p, kindAt p t <> KNone -> kindAt p t' = kindAt p t).
  { intros p Hp. destruct (kind_mkdirp _ p _ _ Hm) as [H | (H & _)];
      [exact H | now destruct Hp]. }
  destruct (isDir _).
  - rewrite Hkeep; [exact Hs|]. destruct Hs as [H | [d H]]; now rewrite H.
  - specialize (Hx eq_refl).
    destruct Hs as [[d H] | [Hv Halt]].
    + left. exists d. rewrite Hkeep; [exact H | now rewrite H].
    + right.
      assert (Hhere : kindAt dest t' = kindAt dest t).
      { destruct (kind_mkdirp _ dest _ _ Hm) as [H | (_ & _ & H)];
          [exact H | now destruct Hx]. }
      rewrite Hhere. split; [exact Hv|].
      destruct Halt as [H | [H | [H | [H1 H2]]]].
      * now left.
      * destruct (isUnpacked _) eqn:Hu; [now left|].
        right. left. now rewrite (Hfile _ t' t Hu).
      * right. right. left. destruct H as (r & Hr & Ho). exists r.
        split; [exact Hr|]. rewrite Hkeep; [exact Ho|].
        now apply obstacle_not_none.
      * right. right. right. split; [exact H1|].
        rewrite Hkeep; [exact H2 | now rewrite H2].
Qed.

Lemma settled_write (q : list string) (b : string) (t t' : Fs.node)
    (g : string) :
  Fs.write q b t = inr t' ->
  settled asar asarFile destDir header t g ->
  settled asar asarFile destDir header t' g.
Proof.
  intros Hw Hs. unfold settled in *.
  set (dest := destOf destDir g) in *.
  assert (Hobs : forall p, obstacle (kindAt p t) -> obstacle (kindAt p t')).
  { intros p Hp. destruct (kind_write _ _ p _ _ Hw) as [[_ H] | [_ H]];
      rewrite H; [left; now exists b | exact Hp]. }
  destruct (isDir _).
  - destruct (kind_write _ _ dest _ _ Hw) as [[_ H] | [_ H]]; rewrite H;
      [right; now exists b | exact Hs].
  - destruct (kind_write _ _ dest _ _ Hw) as [[_ H] | [_ H]]; rewrite H;
      [left; now exists b|].
    destruct Hs as [Hf | [Hv Halt]]; [now left|]. right.
    split; [exact Hv|].
    destruct Halt as [Hu | [Hn | [Hb | [H1 H2]]]].
    + now left.
    + destruct (isUnpacked _) eqn:Hu; [now left|].
      right. left. now rewrite (Hfile _ t' t Hu).
    + right. right. left. destruct Hb as (r & Hr & Ho). exists r.
      split; [exact Hr | now apply Hobs].
    + right. right. right. split; [exact H1|].
      destruct (kind_write _ _ (removelast dest) _ _ Hw) as [[E _] | [_ E]].
      * exfalso. rewrite <- E in Hw.
        destruct (write_target _ _ _ _ Hw) as [Hk | [d Hk]];
          rewrite H2 in Hk; discriminate.
      * now rewrite E.
Qed.

Lemma settled_del (q : list string) (t : Fs.node) (g : string) :
  q <> [] ->
  settled asar asarFile destDir header t g ->
  ~ above q (destOf destDir g) ->
  settled asar asarFile destDir header (Fs.del q t) g.
Proof.
  intros Hq Hs Hx. unfold settled in *.
  set (dest := destOf destDir g) in *.
  assert (Hkeep : forall p, above p dest -> kindAt p (Fs.del q t) = kindAt p t).
  { intros p Hp. apply (kind_del q p t Hq). intros H. apply Hx.
    now apply (above_trans _ p). }
  assert (Hhere : kindAt dest (Fs.del q t) = kindAt dest t)
    by (apply Hkeep; now exists []; rewrite app_nil_r).
  rewrite Hhere. destruct (isDir _); [exact Hs|].
  destruct Hs as [Hf | [Hv Halt]]; [now left|]. right. split; [exact Hv|].
  destruct Halt as [Hu | [Hn | [Hb | [H1 H2]]]].
  - now left.
  - destruct (isUnpacked _) eqn:Hu; [now left|].
    right. left. now rewrite (Hfile _ (Fs.del q t) t Hu).
  - right. right. left. destruct Hb as (r & Hr & Ho). exists r.
    split; [exact Hr|]. rewrite Hkeep; [exact Ho|].
    apply (above_trans _ _ _ Hr), above_removelast.
  - right. right. right. split; [exact H1|].
    rewrite Hkeep; [exact H2 | apply above_removelast].
Qed.

Lemma listed_tidy (f : string) :
  listed header f -> Path.tidy (Path.stripLeading f) = true.
Proof. now intros [H _]. Qed.

Lemma destOf_not_nil (f : string) : listed header f -> destOf destDir f <> [].
Proof.
  intros H. now destruct (destOf_straight destDir f (listed_tidy f H)).
Qed.

Lemma same_parts_info (f g : string) :
  partsOf f = partsOf g ->
  getAsarEntryInfo header (Path.stripLeading f)
    = getAsarEntryInfo header (Path.stripLeading g).
Proof. unfold getAsarEntryInfo, partsOf. now intros ->. Qed.

Lemma above_dest_parts (f g : string) (r : list string) :
  listed header f -> listed header g ->
  destOf destDir f = (destOf destDir g ++ r)%list ->
  partsOf f = (partsOf g ++ r)%list.
Proof.
  intros Hf Hg.
  rewrite !destOf_parts by now apply listed_tidy.
  rewrite <- app_assoc. apply app_inv_head.
Qed.

Lemma listed_below_isDir (f g : string) (r : list string) :
  listed header f -> partsOf f = (partsOf g ++ r)%list -> r <> [] ->
  isDir (getAsarEntryInfo header (Path.stripLeading g)) = true.
Proof.
  unfold listed, getAsarEntryInfo, partsOf.
  intros [_ Hl] Hp Hr. rewrite Hp in Hl. now apply (walkParts_above_isDir _ r).
Qed.

(** A file entry is not above a directory entry that is listed. *)
Lemma file_not_above_dir (f g : string) :
  listed header f -> listed header g ->
  isDir (getAsarEntryInfo header (Path.stripLeading f)) = true ->
  isDir (getAsarEntryInfo header (Path.stripLeading g)) = false ->
  ~ above (destOf destDir g) (destOf destDir f).
Proof.
  intros Hl Hlg Hf Hg [r Hr]. apply above_dest_parts in Hr; try assumption.
  destruct r as [|x r].
  - rewrite app_nil_r in Hr. rewrite (same_parts_info _ _ Hr) in Hf.
    congruence.
  - rewrite (listed_below_isDir f g (x :: r)) in Hg; congruence.
Qed.

(** A file entry is not above the directory of a listed entry. *)
Lemma file_not_above_parent (f g : string) :
  listed header f -> listed header g ->
  isDir (getAsarEntryInfo header (Path.stripLeading g)) = false ->
  ~ above (destOf destDir g) (removelast (destOf destDir f)).
Proof.
  intros Hl Hlg Hg H.
  destruct (above_removelast_strict _ _ (destOf_not_nil f Hl) H)
    as (r & Hr & Hne).
  apply above_dest_parts in Hr; try assumption.
  rewrite (listed_below_isDir f g r) in Hg; congruence.
Qed.

(** A file entry with a directory in its place is not above a settled
    entry. *)
Lemma stale_not_above_settled (f g : string) (t : Fs.node) :
  listed header f ->
  isDir (getAsarEntryInfo header (Path.stripLeading f)) = false ->
  kindAt (destOf destDir f) t = KDir ->
  listed header g -> settled asar asarFile destDir header t g ->
  ~ above (destOf destDir f) (destOf destDir g).
Proof.
  intros Hlf Hf Hk Hl Hs [r Hr].
  pose proof (above_dest_parts _ _ _ Hl Hlf Hr) as Hp.
  destruct r as [|x r].
  - rewrite app_nil_r in Hr, Hp. unfold settled in Hs.
    rewrite (same_parts_info _ _ Hp), Hf, Hr, Hk in Hs.
    destruct Hs as [[d H] | [[H | [c H]] _]]; discriminate.
  - rewrite (listed_below_isDir g f (x :: r)) in Hf; congruence.
Qed.

Lemma kindAt_cleared (dest : string) (t : Fs.node) :
  Path.names dest <> [] ->
  (forall d, kindAt (Path.names dest) t <> KFile d) ->
  vacant (kindAt (Path.names dest) (cleared dest t)).
Proof.
  intros Hne Hno. unfold cleared. unfold kindAt in Hno.
  destruct (Fs.get (Path.names dest) t) as [[d|es|c]|] eqn:E.
  - now destruct (Hno d).
  - left.
    apply (kind_del (Path.names dest) (Path.names dest) t Hne).
    exists []. now rewrite app_nil_r.
  - right. unfold kindAt. rewrite E. now exists c.
  - left. unfold kindAt. now rewrite E.
Qed.

Lemma settled_cleared (f g : string) (t : Fs.node) :
  listed header f ->
  isDir (getAsarEntryInfo header (Path.stripLeading f)) = false ->
  listed header g -> settled asar asarFile destDir header t g ->
  settled asar asarFile destDir header
    (cleared (Path.join destDir (Path.stripLeading f)) t) g.
Proof.
  intros Hlf Hf Hl Hs. unfold cleared.
  destruct (Fs.get _ t) as [[d|es|c]|] eqn:E; try exact Hs.
  apply settled_del; try assumption.
  - now apply (destOf_not_nil f).
  - apply (stale_not_above_settled f g t); try assumption.
    unfold kindAt, destOf. now rewrite E.
Qed.

(** The directory entry: what its run does to the tree. *)
Lemma directory_entry (f : string) (w w' : World) :
  listed header f ->
  isDir (getAsarEntryInfo header (Path.stripLeading f)) = true ->
  extractEntry asar asarFile destDir header f w = (Ok tt, w') ->
  (kindAt (destOf destDir f) (fs w') = KDir \/
   exists d, kindAt (destOf destDir f) (fs w') = KFile d) /\
  (fs w' = fs w \/ Fs.mkdirp (destOf destDir f) (fs w) = inr (fs w')).
Proof.
  intros Hl Hd.
  pose proof (destOf_straight destDir f (listed_tidy f Hl)) as Hs.
  rewrite (extractEntry_dir asar asarFile destDir header f w Hd).
  destruct (Fs.existsSync _ (fs w)) eqn:E.
  - intros [= <-]. split; [now apply existsSync_kind | now left].
  - rewrite (ensureDirSync_names _ _ (straight_truthy _ Hs)).
    fold (destOf destDir f).
    destruct (Fs.mkdirp (destOf destDir f) (fs w)) as [c|t'] eqn:Hm;
      [discriminate|].
    intros [= <-]. simpl. split; [|now right].
    left. now apply kind_mkdirp_target in Hm.
Qed.

(** The [try] block on a straight destination. *)
Lemma extractRegular_straight (name dest : string) (w : World) :
  straight dest ->
  try_catch (extractRegular asar asarFile name dest)
    (fun err => warn (failedToExtract name err)) w =
  match extractFile asar asarFile name (fs w) with
  | Returns (Js.VBuffer b) =>
      match Fs.mkdirp (Path.names (Path.dirname dest)) (fs w) with
      | inl c =>
          (Ok tt,
           mkWorld (fs w)
             (console w ++
              [failedToExtract name
                 (Js.sysError c "mkdir" (Path.dirname dest))]))
      | inr t2 =>
          match Fs.write (Path.names dest) b t2 with
          | inl c =>
              (Ok tt,
               mkWorld t2
                 (console w ++
                  [failedToExtract name (Js.sysError c "open" dest)]))
          | inr t3 => (Ok tt, mkWorld t3 (console w))
          end
      end
  | Returns _ => (Ok tt, w)
  | Throws e =>
      (Ok tt, mkWorld (fs w) (console w ++ [failedToExtract name e]))
  end.
Proof.
  intros Hs. unfold try_catch, extractRegular, bind, reading.
  destruct (extractFile asar asarFile name (fs w)) as [[|b|]|e]; simpl;
    try reflexivity.
  unfold ensureDirSync, writeFileSync, writing.
  rewrite (ensureDirSync_names _ _ (dirname_truthy dest)).
  destruct (Fs.mkdirp (Path.names (Path.dirname dest)) (fs w)) as [c|t2];
    simpl; [reflexivity|].
  rewrite (writeFileSync_straight _ _ _ Hs).
  now destruct (Fs.write (Path.names dest) b t2).
Qed.

Lemma dirname_destOf (f : string) :
  listed header f ->
  Path.names (Path.dirname (Path.join destDir (Path.stripLeading f)))
  = removelast (destOf destDir f).
Proof.
  intros Hl. pose proof (tidy_descends _ (listed_tidy f Hl)) as Hd.
  unfold destOf. now rewrite (dirname_join _ _ Hd), (join_names _ _ Hd).
Qed.

(** The file entry: what its run does to the tree. *)
Lemma file_entry (f : string) (w w' : World) :
  listed header f ->
  isDir (getAsarEntryInfo header (Path.stripLeading f)) = false ->
  extractEntry asar asarFile destDir header f w = (Ok tt, w') ->
  let name := Path.stripLeading f in
  let dest := destOf destDir f in
  let t1 := cleared (Path.join destDir name) (fs w) in
  ((exists d, kindAt dest (fs w) = KFile d) /\ fs w' = fs w) \/
  (vacant (kindAt dest t1) /\
   ((fs w' = t1 /\
     (isUnpacked (getAsarEntryInfo header (Path.stripLeading f)) = true \/
      noBuffer (extractFile asar asarFile name t1) \/
      blocked (removelast dest) t1)) \/
    (exists t2 b,
       Fs.mkdirp (removelast dest) t1 = inr t2 /\
       ((fs w' = t2 /\ exists c, Fs.write dest b t2 = inl c) \/
        Fs.write dest b t2 = inr (fs w'))))).
Proof.
  intros Hl Hd Hrun. cbv zeta.
  pose proof (destOf_straight destDir f (listed_tidy f Hl)) as Hs.
  rewrite (extractEntry_file asar asarFile destDir header f w Hd) in Hrun.
  rewrite (alreadyThere_straight _ w Hs) in Hrun.
  pose proof (kindAt_cleared (Path.join destDir (Path.stripLeading f)) (fs w)
                (destOf_not_nil f Hl)) as Hv.
  unfold cleared in *. fold (destOf destDir f) in *.
  set (dest := destOf destDir f) in *.
  unfold kindAt in Hv at 1.
  destruct (Fs.get dest (fs w)) as [[d|es|c]|] eqn:E.
  { injection Hrun as <-. left. split; [|reflexivity]. exists d.
    unfold kindAt. now rewrite E. }
  all: specialize (Hv ltac:(intros d'; discriminate)).
  all: right; split; [exact Hv|].
  1: destruct (Fs.rm (Fs.Dir es)) as [[[c rel] rest]|]; [discriminate|].
  all: set (w1 := mkWorld _ _) in Hrun || set (w1 := w) in Hrun.
  all: destruct (isUnpacked (getAsarEntryInfo header (Path.stripLeading f)));
         [injection Hrun as <-; left; split; [reflexivity | now left]|].
  all: rewrite (extractRegular_straight _ _ w1 Hs) in Hrun.
  all: rewrite (dirname_destOf f Hl) in Hrun.
  all: fold (destOf destDir f) in Hrun; fold dest in Hrun.
  all: subst w1; cbn [fs console] in Hrun.
  all: match type of Hrun with
       | context [extractFile asar asarFile ?n ?t] =>
           destruct (extractFile asar asarFile n t) as [[|b|]|e] eqn:Hx
       end.
  all: try (injection Hrun as <-; left; split;
            [reflexivity | right; left; intros b'; discriminate]).
  all: match type of Hrun with
       | context [Fs.mkdirp ?q ?t] =>
           destruct (Fs.mkdirp q t) as [c0|t2] eqn:Hm
       end.
  all: try (injection Hrun as <-; left; split; [reflexivity|];
            right; right; now apply mkdirp_fails_blocked in Hm).
  all: right; exists t2, b; split; [reflexivity|].
  all: destruct (Fs.write dest b t2) as [c1|t3] eqn:Hw;
         injection Hrun as <-; simpl;
         [left; split; [reflexivity | now exists c1] | now right].
Qed.

Lemma vacant_not_dir (k : Kind) : vacant k -> k <> KDir.
Proof. intros [-> | [c ->]]; discriminate. Qed.

(** Once its run has returned, an entry is settled. *)
Lemma entry_settles (f : string) (w w' : World) :
  listed header f ->
  extractEntry asar asarFile destDir header f w = (Ok tt, w') ->
  settled asar asarFile destDir header (fs w') f.
Proof.
  intros Hl Hrun. unfold settled.
  destruct (isDir (getAsarEntryInfo header (Path.stripLeading f))) eqn:Hd.
  - now destruct (directory_entry f w w' Hl Hd Hrun).
  - destruct (file_entry f w w' Hl Hd Hrun)
      as [[Hf Hw] | [Hv [[Hw Halt] | (t2 & b & Hm & Hrest)]]].
    + left. now rewrite Hw.
    + right. rewrite Hw. split; [exact Hv|].
      destruct Halt as [H | [H | H]]; auto.
    + destruct Hrest as [[Hw [c Hc]] | Hwr].
      * right. rewrite Hw.
        pose proof (kind_mkdirp_target _ _ _ Hm) as Hparent.
        destruct (exists_last (destOf_not_nil f Hl))
          as (q & s & Hq).
        rewrite Hq in *. rewrite removelast_last in *.
        assert (Hsame : kindAt (q ++ [s]) t2 =
                        kindAt (q ++ [s])
                          (cleared (Path.join destDir (Path.stripLeading f))
                             (fs w))).
        { destruct (kind_mkdirp _ (q ++ [s]) _ _ Hm) as [H | (_ & _ & H)];
            [exact H | now apply above_longer in H]. }
        destruct (write_fails_under_dir _ _ _ _ _ Hc Hparent) as [Hk | [c' Hk]].
        -- rewrite Hsame in Hk. now apply vacant_not_dir in Hv.
        -- split; [right; now exists c'|].
           right. right. right. split; [now exists c' | exact Hparent].
      * left. exists b.
        destruct (kind_write _ _ (destOf destDir f) _ _ Hwr) as [[_ H] | [H _]];
          [exact H | now destruct H].
Qed.

(** The run of a listed entry leaves the settled entries settled. *)
Lemma entry_keeps_settled (f g : string) (w w' : World) :
  listed header f ->
  extractEntry asar asarFile destDir header f w = (Ok tt, w') ->
  listed header g -> settled asar asarFile destDir header (fs w) g ->
  settled asar asarFile destDir header (fs w') g.
Proof.
  intros Hlf Hrun Hlg Hs.
  destruct (isDir (getAsarEntryInfo header (Path.stripLeading f))) eqn:Hd.
  - destruct (directory_entry f w w' Hlf Hd Hrun)
      as [_ [Hw | Hm]]; [now rewrite Hw|].
    apply (settled_mkdirp _ _ _ _ Hm Hs).
    intros Hg. now apply file_not_above_dir.
  - pose proof (settled_cleared f g (fs w) Hlf Hd Hlg Hs) as Hs1.
    destruct (file_entry f w w' Hlf Hd Hrun)
      as [[Hf Hw] | [Hv [[Hw Halt] | (t2 & b & Hm & Hrest)]]].
    + now rewrite Hw.
    + now rewrite Hw.
    + assert (Hs2 : settled asar asarFile destDir header t2 g).
      { apply (settled_mkdirp _ _ _ _ Hm Hs1).
        intros Hg. now apply file_not_above_parent. }
      destruct Hrest as [[Hw _] | Hwr]; [now rewrite Hw|].
      apply (settled_write _ _ _ _ _ Hwr Hs2).
Qed.

Lemma forOf_returns {A} (x : A) (xs : list A) (run : A -> M unit)
    (w w' : World) :
  forOf (x :: xs) run w = (Ok tt, w') ->
  exists w1, run x w = (Ok tt, w1) /\ forOf xs run w1 = (Ok tt, w').
Proof.
  simpl. unfold bind. destruct (run x w) as [[[]| |] w1]; try discriminate.
  intros H. now exists w1.
Qed.

(** A manual pass that returns leaves every listed entry settled. *)
Lemma pass_settles (names done : list string) (w w' : World) :
  Forall (listed header) names -> Forall (listed header) done ->
  Forall (settled asar asarFile destDir header (fs w)) done ->
  forOf names (extractEntry asar asarFile destDir header) w = (Ok tt, w') ->
  Forall (settled asar asarFile destDir header (fs w')) (done ++ names).
Proof.
  revert done w; induction names as [|f names IH]; intros done w Hn Hd Hs.
  - intros [= <-]. now rewrite app_nil_r.
  - intros Hrun. apply forOf_returns in Hrun as (w1 & Hf & Hrest).
    inversion Hn as [|? ? Hlf Hn']; subst.
    replace (done ++ f :: names)%list with ((done ++ [f]) ++ names)%list
      by now rewrite <- app_assoc.
    apply (IH (done ++ [f])%list w1); try assumption.
    + apply Forall_app. split; [assumption | now constructor].
    + apply Forall_app. split.
      * rewrite Forall_forall in *. intros g Hg.
        apply (entry_keeps_settled f g w w1); auto.
      * constructor; [|constructor]. now apply (entry_settles f w).
Qed.

(** The run of a settled entry returns and leaves the tree as it is. *)
Lemma settled_entry_again (f : string) (w : World) :
  listed header f ->
  settled asar asarFile destDir header (fs w) f ->
  exists w',
    extractEntry asar asarFile destDir header f w = (Ok tt, w') /\
    fs w' = fs w.
Proof.
  intros Hl.
  pose proof (destOf_straight destDir f (listed_tidy f Hl)) as Hs.
  unfold settled. cbv zeta.
  destruct (isDir (getAsarEntryInfo header (Path.stripLeading f))) eqn:Hd.
  - intros H.
    rewrite (extractEntry_dir asar asarFile destDir header f w Hd).
    unfold destOf in H. apply (existsSync_kind _ _ Hs) in H. rewrite H.
    now exists w.
  - rewrite (extractEntry_file asar asarFile destDir header f w Hd).
    rewrite (alreadyThere_straight _ w Hs).
    fold (destOf destDir f). unfold kindAt.
    destruct (Fs.get (destOf destDir f) (fs w)) as [[d|es|c]|] eqn:E; simpl.
    + intros _. now exists w.
    + intros [[d H] | [[H | [c H]] _]]; discriminate.
    + intros [[d H] | [_ Halt]]; [discriminate|].
      destruct (isUnpacked (getAsarEntryInfo header (Path.stripLeading f)));
        [now eexists|].
      rewrite (extractRegular_straight _ _ w Hs), (dirname_destOf f Hl).
      fold (destOf destDir f).
      destruct (extractFile asar asarFile _ (fs w)) as [[|b|]|e] eqn:Hx;
        try (now eexists).
      destruct Halt as [H | [H | [H | [_ H]]]];
        [discriminate | now destruct (H b) | |].
      * destruct (blocked_mkdirp_fails _ _ H) as [c0 ->]. now eexists.
      * rewrite (mkdirp_there_kind _ _ H).
        rewrite (write_denied _ b c) by (unfold kindAt; now rewrite E).
        now eexists.
    + intros [[d H] | [_ Halt]]; [discriminate|].
      destruct (isUnpacked (getAsarEntryInfo header (Path.stripLeading f)));
        [now eexists|].
      rewrite (extractRegular_straight _ _ w Hs), (dirname_destOf f Hl).
      fold (destOf destDir f).
      destruct (extractFile asar asarFile _ (fs w)) as [[|b|]|e] eqn:Hx;
        try (now eexists).
      destruct Halt as [H | [H | [H | [[c H] _]]]];
        [discriminate | now destruct (H b) | | discriminate].
      destruct (blocked_mkdirp_fails _ _ H) as [c0 ->]. now eexists.
Qed.

Lemma settled_entries_again (names : list string) (w : World) :
  Forall (listed header) names ->
  Forall (settled asar asarFile destDir header (fs w)) names ->
  exists w',
    forOf names (extractEntry asar asarFile destDir header) w = (Ok tt, w') /\
    fs w' = fs w.
Proof.
  revert w; induction names as [|f names IH]; intros w Hl H.
  - now exists w.
  - inversion H as [|? ? Hf Hrest]; subst.
    inversion Hl as [|? ? Hlf Hlrest]; subst.
    destruct (settled_entry_again _ _ Hlf Hf) as (w1 & Hrun & Hfs).
    rewrite <- Hfs in Hrest.
    destruct (IH w1 Hlrest Hrest) as (w2 & Hloop & Hfs2).
    exists w2. split; [|congruence].
    now rewrite (forOf_step _ _ _ _ _ Hrun).
Qed.

End ManualPass.

(** A manual pass that returns leaves a tree in which every entry of the
    listing is settled. *)
Lemma manual_pass_settles (asar : Codec)
    (asarFile destDir unpackedDir : string) (w w1 : World) :
  steady asar asarFile -> faithful asar asarFile ->
  extractAsarManually asar asarFile destDir unpackedDir w = (Ok tt, w1) ->
  forall t, exists names header,
    listPackage asar asarFile t = Returns names /\
    readArchiveHeaderSync asar asarFile t = Returns header /\
    Forall (listed header) names /\
    Forall (settled asar asarFile destDir header (fs w1)) names.
Proof.
  intros (Hlist & Hhead & Hfile) Hfaith Hrun t.
  unfold extractAsarManually, getAsarHeader, bind, reading in Hrun.
  simpl in Hrun.
  destruct (listPackage asar asarFile (fs w)) as [names|e] eqn:El;
    [|discriminate].
  simpl in Hrun.
  destruct (readArchiveHeaderSync asar asarFile (fs w)) as [header|e] eqn:Eh;
    [|discriminate].
  simpl in Hrun. exists names, header.
  split; [now rewrite (Hlist t (fs w))|].
  split; [now rewrite (Hhead t (fs w))|].
  pose proof (Hfaith names header (fs w) El Eh) as Hlisted.
  split; [exact Hlisted|].
  apply (pass_settles asar asarFile destDir header
           (fun name t t' => Hfile header name t t'
                               (eq_trans (Hhead t (fs w)) Eh))
           names [] w w1); try constructor; assumption.
Qed.

Lemma reference_steady (a : Reference.Archive) (asarFile : string) :
  steady (Reference.codec a) asarFile.
Proof.
  repeat split.
  intros header name t t' [= <-] Hu. simpl. unfold Reference.readFile.
  rewrite Hu. reflexivity.
Qed.

(** * Further properties *)

(** ** What stays outside the destination *)

Lemma above_refl (p : list string) : above p p.
Proof. exists []. now rewrite app_nil_r. Qed.

Lemma above_app (p r : list string) : above p (p ++ r).
Proof. now exists r. Qed.

(** Two paths above the same path: one is above the other. *)
Lemma above_comparable (p q x : list string) :
  above p x -> above q x -> above p q \/ above q p.
Proof.
  revert q x; induction p as [|a p IH]; intros q x Hp Hq.
  - left. apply above_nil.
  - destruct q as [|b q]; [right; apply above_nil|].
    destruct Hp as [r1 ->]. destruct Hq as [r2 H].
    simpl in H. injection H as <- H.
    destruct (IH q (p ++ r1)%list) as [H1|H1];
      [apply above_app | now exists r2 | |].
    + left. now apply above_cons.
    + right. now apply above_cons.
Qed.

Lemma confined_refl (root : list string) (t : Fs.node) : confined root t t.
Proof. intros p _. now left. Qed.

Lemma confined_trans (root : list string) (t t1 t2 : Fs.node) :
  confined root t t1 -> confined root t1 t2 -> confined root t t2.
Proof.
  intros H1 H2 p Hp.
  destruct (H1 p Hp) as [E1 | (N1 & D1 & A1)];
    destruct (H2 p Hp) as [E2 | (N2 & D2 & A2)].
  - left. congruence.
  - right. repeat split; congruence || assumption.
  - right. repeat split; congruence || assumption.
  - congruence.
Qed.

Lemma confined_weaken (root root' : list string) (t t' : Fs.node) :
  above root root' -> confined root' t t' -> confined root t t'.
Proof.
  intros Ha H p Hp.
  destruct (H p) as [E | (N & D & A)].
  - intros Hc. apply Hp. exact (above_trans _ _ _ Ha Hc).
  - now left.
  - right. repeat split; try assumption.
    destruct (above_comparable _ _ _ A Ha) as [H1|H1];
      [exact H1 | contradiction].
Qed.

Lemma confined_mkdirp (root q : list string) (t t' : Fs.node) :
  above root q \/ above q root ->
  Fs.mkdirp q t = inr t' -> confined root t t'.
Proof.
  intros Hq Hm p Hp.
  destruct (kind_mkdirp q p _ _ Hm) as [E | (N & D & A)]; [now left|].
  right. repeat split; try assumption.
  destruct Hq as [Hq|Hq].
  - destruct (above_comparable _ _ _ A Hq) as [H1|H1];
      [exact H1 | contradiction].
  - exact (above_trans _ _ _ A Hq).
Qed.

Lemma confined_write (root q : list string) (b : string) (t t' : Fs.node) :
  above root q -> Fs.write q b t = inr t' -> confined root t t'.
Proof.
  intros Hq Hw p Hp.
  destruct (kind_write q b p _ _ Hw) as [[-> _] | [_ E]];
    [contradiction | now left].
Qed.

Lemma confined_del (root q : list string) (t : Fs.node) :
  above root q -> confined root t (Fs.del q t).
Proof.
  intros Hq p Hp. left.
  destruct q as [|s q].
  - apply above_nil_inv in Hq. subst root. destruct Hp. apply above_nil.
  - apply kind_del; [discriminate|].
    intros Hc. apply Hp. exact (above_trans _ _ _ Hq Hc).
Qed.

(** Putting a node in the place of another changes nothing beside it. *)
Lemma kind_put (q p : list string) (new t : Fs.node) :
  ~ above q p -> kindAt p (Fs.put q new t) = kindAt p t.
Proof.
  unfold kindAt.
  revert p t; induction q as [|s q IH]; intros p t Hp.
  - destruct Hp. apply above_nil.
  - simpl. destruct t as [d|es|c]; try reflexivity.
    destruct (Fs.alookup s es) as [ch|] eqn:E; [|reflexivity].
    destruct p as [|x p]; [reflexivity|]. simpl.
    destruct (String.eqb_spec x s) as [->|Hne].
    + rewrite alookup_ainsert, E. apply IH.
      intros H. apply Hp. now apply above_cons.
    + now rewrite alookup_ainsert_ne.
Qed.

Lemma confined_put (root q : list string) (new t : Fs.node) :
  above root q -> confined root t (Fs.put q new t).
Proof.
  intros Hq p Hp. left. apply kind_put.
  intros Hc. apply Hp. exact (above_trans _ _ _ Hq Hc).
Qed.

(** *** Computations that stay inside *)

Lemma confines_ret {A} (root : list string) (a : A) : confines root (ret a).
Proof. intros w. apply confined_refl. Qed.

Lemma confines_throw {A} (root : list string) (e : Js.Error) :
  confines root (@throw A e).
Proof. intros w. apply confined_refl. Qed.

Lemma confines_warn (root : list string) (line : string) :
  confines root (warn line).
Proof. intros w. apply confined_refl. Qed.

Lemma confines_reading {A} (root : list string) (f : Fs.node -> Returned A) :
  confines root (reading f).
Proof. intros w. apply confined_refl. Qed.

Lemma confines_bind {A B} (root : list string) (m : M A) (k : A -> M B) :
  confines root m -> (forall a, confines root (k a)) ->
  confines root (bind m k).
Proof.
  intros Hm Hk w. unfold bind. specialize (Hm w).
  destruct (m w) as [[a|e|] w1]; simpl in *; try exact Hm.
  exact (confined_trans _ _ _ _ Hm (Hk a w1)).
Qed.

Lemma confines_try {A} (root : list string) (m : M A) (h : Js.Error -> M A) :
  confines root m -> (forall e, confines root (h e)) ->
  confines root (try_catch m h).
Proof.
  intros Hm Hh w. unfold try_catch. specialize (Hm w).
  destruct (m w) as [[a|e|] w1]; simpl in *; try exact Hm.
  exact (confined_trans _ _ _ _ Hm (Hh e w1)).
Qed.

Lemma confines_forOf {A} (root : list string) (xs : list A)
    (body : A -> M unit) :
  Forall (fun x => confines root (body x)) xs ->
  confines root (forOf xs body).
Proof.
  intros Hb. induction Hb as [|x xs Hx _ IH]; simpl.
  - apply confines_ret.
  - apply confines_bind; [exact Hx | intros _; exact IH].
Qed.

Lemma confines_ensureDirSync (root : list string) (p : string) :
  above root (Path.names p) \/ above (Path.names p) root ->
  confines root (ensureDirSync p).
Proof.
  intros Hp w. unfold ensureDirSync, writing, Fs.ensureDirSync.
  destruct p as [|a p]; [apply confined_refl|].
  destruct (Fs.mkdirp _ (fs w)) as [c|t'] eqn:Hm; simpl.
  - apply confined_refl.
  - exact (confined_mkdirp _ _ _ _ Hp Hm).
Qed.

Lemma confined_writeAt (root : list string) (p d : string) (t t' : Fs.node) :
  above root (Path.names p) -> Fs.writeAt p d t = inr t' ->
  confined root t t'.
Proof.
  intros Hp. unfold Fs.writeAt.
  destruct (Fs.resolve p t) as [c|q] eqn:E; [discriminate|].
  apply resolve_names in E. subst q. now apply confined_write.
Qed.

Lemma confines_writeFileSync (root : list string) (p d : string) :
  above root (Path.names p) -> confines root (writeFileSync p d).
Proof.
  intros Hp w. unfold writeFileSync, writing, Fs.writeFileSync.
  destruct (Fs.writeAt p d (fs w)) as [c|t'] eqn:Hw; simpl.
  - apply confined_refl.
  - exact (confined_writeAt _ _ _ _ _ Hp Hw).
Qed.

Lemma confines_removeSync (root : list string) (p : string) :
  above root (Path.names p) -> confines root (removeSync p).
Proof.
  intros Hp w. unfold removeSync, writing, Fs.removeSync.
  destruct (Fs.resolve p (fs w)) as [c|q] eqn:E.
  - destruct (String.eqb c "ENOENT"); apply confined_refl.
  - apply resolve_names in E. subst q.
    destruct (Fs.get (Path.names p) (fs w)) as [n|]; [|apply confined_refl].
    destruct (Fs.rm n) as [[[c rel] rest]|]; simpl.
    + now apply confined_put.
    + now apply confined_del.
Qed.

Lemma confines_copyFileSync (root : list string) (src dest : string) :
  above root (Path.names dest) -> confines root (copyFileSync src dest).
Proof.
  intros Hp w. unfold copyFileSync, writing, Fs.copyFileSync.
  destruct (Fs.find src (fs w)) as [c|[d|es|c]]; simpl;
    try apply confined_refl.
  destruct (Fs.writeAt dest d (fs w)) as [c|t'] eqn:Hw; simpl.
  - apply confined_refl.
  - exact (confined_writeAt _ _ _ _ _ Hp Hw).
Qed.

Lemma confines_weaken {A} (root root' : list string) (m : M A) :
  above root root' -> confines root' m -> confines root m.
Proof. intros Ha H w. exact (confined_weaken _ _ _ _ Ha (H w)). Qed.

Lemma above_join (a b : string) :
  descends b -> above (Path.names a) (Path.names (Path.join a b)).
Proof. intros H. rewrite (join_names a b H). apply above_app. Qed.

Lemma comparable_dirname_join (a b : string) :
  descends b ->
  above (Path.names a) (Path.names (Path.dirname (Path.join a b))) \/
  above (Path.names (Path.dirname (Path.join a b))) (Path.names a).
Proof.
  intros H. rewrite (dirname_join a b H), <- (join_names a b H).
  apply (above_comparable _ _ (Path.names (Path.join a b))).
  - now apply above_join.
  - apply above_removelast.
Qed.

Lemma confines_extractEntry (asar : Codec) (asarFile destDir : string)
    (header : AsarNode) (filename : string) :
  Path.tidy (Path.stripLeading filename) = true ->
  confines (Path.names destDir)
    (extractEntry asar asarFile destDir header filename).
Proof.
  intros Ht. pose proof (tidy_descends _ Ht) as Hd.
  unfold extractEntry.
  destruct (isDir _).
  - apply confines_bind; [apply confines_reading|]. intros found.
    destruct found; simpl; [apply confines_ret|].
    apply confines_ensureDirSync. left. now apply above_join.
  - apply confines_bind.
    + unfold alreadyThere. apply confines_bind; [apply confines_reading|].
      intros found. destruct found; [|apply confines_ret].
      apply confines_bind; [apply confines_reading|]. intros stat.
      destruct (Fs.isFile stat); [apply confines_ret|].
      apply confines_bind; [|intros _; apply confines_ret].
      destruct (Fs.isDirectory stat); [|apply confines_ret].
      now apply confines_removeSync, above_join.
    + intros satisfied. destruct satisfied; [apply confines_ret|].
      destruct (isUnpacked _); [apply confines_warn|].
      apply confines_try; [|intros e; apply confines_warn].
      unfold extractRegular. apply confines_bind; [apply confines_reading|].
      intros file. destruct file; try apply confines_ret.
      apply confines_bind.
      * now apply confines_ensureDirSync, comparable_dirname_join.
      * intros _. now apply confines_writeFileSync, above_join.
Qed.

Lemma confined_extractAsarManually (asar : Codec)
    (asarFile destDir unpackedDir : string) (w : World) :
  wellNamed asar asarFile ->
  confined (Path.names destDir) (fs w)
    (fs (snd (extractAsarManually asar asarFile destDir unpackedDir w))).
Proof.
  intros Hnames.
  unfold extractAsarManually, getAsarHeader, bind, reading. simpl.
  destruct (listPackage asar asarFile (fs w)) as [names|e] eqn:El; simpl;
    [|apply confined_refl].
  destruct (readArchiveHeaderSync asar asarFile (fs w)) as [header|e]; simpl;
    [|apply confined_refl].
  apply (confines_forOf (Path.names destDir) names
           (extractEntry asar asarFile destDir header)).
  apply (Forall_impl _ (fun f => confines_extractEntry asar asarFile destDir
                                   header f)).
  exact (Hnames _ _ El).
Qed.

(** X4: whatever its outcome and whatever the library does, the manual
    extraction of a listing whose names are made of names changes nothing
    outside the destination directory, but for the directories it makes on
    the way to it.  Inside, it does remove: a directory standing where the
    archive has a file goes with all it holds. *)
Theorem manual_extraction_stays_inside (asar : Codec)
    (asarFile destDir unpackedDir : string) (w : World) (p : list string) :
  let out := extractAsarManually asar asarFile destDir unpackedDir w in
  wellNamed asar asarFile ->
  ~ above (Path.names destDir) p ->
  kindAt p (fs (snd out)) = kindAt p (fs w) \/
  (kindAt p (fs w) = KNone /\ kindAt p (fs (snd out)) = KDir /\
   above p (Path.names destDir)).
Proof.
  intros out Hnames.
  apply (confined_extractAsarManually asar asarFile destDir unpackedDir w
           Hnames).
Qed.

Lemma reference_wellNamed_app :
  wellNamed (Reference.codec Sample.app) "app.asar".
Proof. intros t names [= <-]. now repeat constructor. Qed.

Lemma manual_extraction_stays_inside_witness :
  let out :=
    extractAsarManually (Reference.codec Sample.app) "app.asar" "out"
      "app.asar.unpacked" (Sample.start Sample.stale) in
  kindAt ["app.asar"] (fs (snd out)) = KFile "asar" /\
  kindAt ["out"; "main.js"; "old"] Sample.stale = KFile "x" /\
  kindAt ["out"; "main.js"; "old"] (fs (snd out)) = KNone.
Proof.
  split; [|split; reflexivity].
  destruct (manual_extraction_stays_inside (Reference.codec Sample.app)
              "app.asar" "out" "app.asar.unpacked" (Sample.start Sample.stale)
              ["app.asar"] reference_wellNamed_app) as [H|(H & _)].
  - intros [r H]. discriminate.
  - exact H.
  - discriminate H.
Defined.

(** The manual extraction does leave the destination when a name of the
    listing climbs out of it: [path.join] reads the [..]. *)
Example climbing_name_leaves_the_destination :
  let out :=
    extractAsarManually Sample.climbing "app.asar" "out" "app.asar.unpacked"
      (Sample.start Sample.bare) in
  Path.join "out" "../evil.js" = "evil.js" /\
  kindAt ["evil.js"] Sample.bare = KNone /\
  kindAt ["evil.js"] (fs (snd out)) = KFile "boo".
Proof. now vm_compute. Qed.

(** *** Trees whose entries have names *)

Lemma named_dir (es : list (string * Fs.node)) :
  named (Fs.Dir es) =
  forallb (fun kc => Path.isName (fst kc) && named (snd kc)) es.
Proof. reflexivity. Qed.

Lemma named_alookup (k : string) (c : Fs.node)
    (es : list (string * Fs.node)) :
  named (Fs.Dir es) = true -> Fs.alookup k es = Some c -> named c = true.
Proof.
  rewrite named_dir. induction es as [|[k' v] es IH]; simpl; [discriminate|].
  rewrite !andb_true_iff. intros [[_ Hv] Hes].
  destruct (String.eqb k' k); [now intros [= <-] | now apply IH].
Qed.

Lemma named_ainsert (k : string) (v : Fs.node)
    (es : list (string * Fs.node)) :
  Path.isName k = true -> named v = true -> named (Fs.Dir es) = true ->
  named (Fs.Dir (Fs.ainsert k v es)) = true.
Proof.
  rewrite !named_dir. intros Hk Hv.
  induction es as [|[k' v'] es IH]; simpl.
  - now rewrite Hk, Hv.
  - rewrite !andb_true_iff. intros [[Hk' Hv'] Hes].
    destruct (String.eqb k' k); simpl.
    + now rewrite Hk, Hv, Hes.
    + now rewrite Hk', Hv', IH.
Qed.

Lemma named_get (p : list string) (t n : Fs.node) :
  named t = true -> Fs.get p t = Some n -> named n = true.
Proof.
  revert t; induction p as [|s p IH]; intros t Ht; simpl.
  - now intros [= <-].
  - destruct t as [|es|]; try discriminate.
    destruct (Fs.alookup s es) as [c|] eqn:E; [|discriminate].
    apply IH. exact (named_alookup _ _ _ Ht E).
Qed.

Lemma named_mkdirp (q : list string) (t t' : Fs.node) :
  Forall (fun n => Path.isName n = true) q ->
  named t = true -> Fs.mkdirp q t = inr t' -> named t' = true.
Proof.
  intros Hq. revert t t'; induction Hq as [|s q Hs _ IH]; intros t t' Ht;
    simpl.
  - destruct t; intros [= <-] || discriminate. exact Ht.
  - destruct t as [|es|]; try discriminate.
    destruct (Fs.mkdirp q _) as [|c'] eqn:Hm; [discriminate|].
    intros [= <-]. apply named_ainsert; try assumption.
    refine (IH _ _ _ Hm).
    destruct (Fs.alookup s es) as [c|] eqn:E; [|reflexivity].
    exact (named_alookup _ _ _ Ht E).
Qed.

Lemma named_write (q : list string) (d : string) (t t' : Fs.node) :
  Forall (fun n => Path.isName n = true) q ->
  named t = true -> Fs.write q d t = inr t' -> named t' = true.
Proof.
  intros Hq. revert t t'; induction Hq as [|s q Hs _ IH]; intros t t' Ht;
    simpl.
  - destruct t; intros [= <-] || discriminate. reflexivity.
  - destruct t as [|es|]; try discriminate.
    destruct (Fs.alookup s es) as [c|] eqn:E.
    + destruct (Fs.write q d c) as [|c'] eqn:Hw; [discriminate|].
      intros [= <-]. apply named_ainsert; try assumption.
      exact (IH _ _ (named_alookup _ _ _ Ht E) Hw).
    + destruct q; [|discriminate]. intros [= <-].
      now apply named_ainsert.
Qed.

Lemma named_readdirSync (p : string) (t : Fs.node) (items : list string) :
  named t = true -> Fs.readdirSync p t = Returns items ->
  Forall (fun n => Path.isName n = true) items.
Proof.
  intros Ht. unfold Fs.readdirSync.
  destruct (Fs.find p t) as [c|[d|es|c]] eqn:E; try discriminate.
  intros [= <-]. destruct (find_names _ _ _ E) as [Hg _].
  pose proof (named_get _ _ _ Ht Hg) as Hn. rewrite named_dir in Hn.
  rewrite forallb_forall in Hn. apply Forall_forall. intros n Hin.
  apply in_map_iff in Hin as ([k v] & <- & Hin).
  specialize (Hn _ Hin). now apply andb_true_iff in Hn.
Qed.

(** *** Computations that stay inside and keep the names *)

Lemma keeps_same {A} (root : list string) (m : M A) :
  (forall w, fs (snd (m w)) = fs w) -> keeps root m.
Proof. intros H w Hn. rewrite H. split; [exact Hn | apply confined_refl]. Qed.

Lemma keeps_ret {A} (root : list string) (a : A) : keeps root (ret a).
Proof. now apply keeps_same. Qed.

Lemma keeps_throw {A} (root : list string) (e : Js.Error) :
  keeps root (@throw A e).
Proof. now apply keeps_same. Qed.

Lemma keeps_warn (root : list string) (line : string) :
  keeps root (warn line).
Proof. now apply keeps_same. Qed.

Lemma keeps_reading {A} (root : list string) (f : Fs.node -> Returned A) :
  keeps root (reading f).
Proof. now apply keeps_same. Qed.

Lemma keeps_bind {A B} (root : list string) (m : M A) (k : A -> M B) :
  keeps root m -> (forall a, keeps root (k a)) -> keeps root (bind m k).
Proof.
  intros Hm Hk w Hn. unfold bind. specialize (Hm w Hn).
  destruct (m w) as [[a|e|] w1]; simpl in *; try exact Hm.
  destruct Hm as [Hn1 Hc1]. destruct (Hk a w1 Hn1) as [Hn2 Hc2].
  split; [exact Hn2 | exact (confined_trans _ _ _ _ Hc1 Hc2)].
Qed.

Lemma keeps_try {A} (root : list string) (m : M A) (h : Js.Error -> M A) :
  keeps root m -> (forall e, keeps root (h e)) -> keeps root (try_catch m h).
Proof.
  intros Hm Hh w Hn. unfold try_catch. specialize (Hm w Hn).
  destruct (m w) as [[a|e|] w1]; simpl in *; try exact Hm.
  destruct Hm as [Hn1 Hc1]. destruct (Hh e w1 Hn1) as [Hn2 Hc2].
  split; [exact Hn2 | exact (confined_trans _ _ _ _ Hc1 Hc2)].
Qed.

Lemma keeps_forOf {A} (root : list string) (xs : list A)
    (body : A -> M unit) :
  Forall (fun x => keeps root (body x)) xs -> keeps root (forOf xs body).
Proof.
  intros Hb. induction Hb as [|x xs Hx _ IH]; simpl.
  - apply keeps_ret.
  - apply keeps_bind; [exact Hx | intros _; exact IH].
Qed.

Lemma keeps_ensureDirSync (root : list string) (p : string) :
  above root (Path.names p) \/ above (Path.names p) root ->
  keeps root (ensureDirSync p).
Proof.
  intros Hp w Hn. split; [|now apply confines_ensureDirSync].
  unfold ensureDirSync, writing, Fs.ensureDirSync.
  destruct p as [|a p]; [exact Hn|].
  destruct (Fs.mkdirp _ (fs w)) as [c|t'] eqn:Hm; simpl; [exact Hn|].
  exact (named_mkdirp _ _ _ (names_isName _) Hn Hm).
Qed.

Lemma keeps_copyFileSync (root : list string) (src dest : string) :
  above root (Path.names dest) -> keeps root (copyFileSync src dest).
Proof.
  intros Hp w Hn. split; [|now apply confines_copyFileSync].
  unfold copyFileSync, writing, Fs.copyFileSync.
  destruct (Fs.find src (fs w)) as [c|[d|es|c]]; simpl; try exact Hn.
  unfold Fs.writeAt.
  destruct (Fs.resolve dest (fs w)) as [c|q] eqn:E; simpl; [exact Hn|].
  apply resolve_names in E. subst q.
  destruct (Fs.write _ d (fs w)) as [c|t'] eqn:Hw; simpl; [exact Hn|].
  exact (named_write _ _ _ _ (names_isName _) Hn Hw).
Qed.

Lemma keeps_weaken {A} (root root' : list string) (m : M A) :
  above root root' -> keeps root' m -> keeps root m.
Proof.
  intros Ha H w Hn. destruct (H w Hn) as [H1 H2].
  split; [exact H1 | exact (confined_weaken _ _ _ _ Ha H2)].
Qed.

Lemma keeps_copyItem (recur : string -> string -> M unit)
    (srcDir destDir item : string) :
  Path.isName item = true ->
  (forall s, keeps (Path.names (Path.join destDir item))
               (recur s (Path.join destDir item))) ->
  keeps (Path.names destDir) (copyItem recur srcDir destDir item).
Proof.
  intros Hi Hrec. pose proof (isName_descends _ Hi) as Hd.
  unfold copyItem. apply keeps_bind; [apply keeps_reading|].
  intros stat. destruct (Fs.isDirectory stat).
  - apply keeps_bind.
    + apply keeps_ensureDirSync. left. now apply above_join.
    + intros _. apply (keeps_weaken _ _ _ (above_join destDir item Hd)).
      apply Hrec.
  - apply keeps_bind.
    + apply keeps_ensureDirSync. now apply comparable_dirname_join.
    + intros _. apply keeps_copyFileSync. now apply above_join.
Qed.

Lemma keeps_copyUnpackedFiles (fuel : nat) (srcDir destDir : string) :
  keeps (Path.names destDir) (copyUnpackedFiles fuel srcDir destDir).
Proof.
  revert srcDir destDir; induction fuel as [|fuel IH]; intros srcDir destDir.
  - now apply keeps_same.
  - intros w Hn.
    destruct (Fs.existsSync srcDir (fs w)) eqn:Hex.
    2: { rewrite (copyUnpackedFiles_absent fuel srcDir destDir w Hex).
         split; [exact Hn | apply confined_refl]. }
    destruct (Fs.readdirSync srcDir (fs w)) as [items|e] eqn:Hr.
    2: { rewrite (copyUnpackedFiles_unread fuel srcDir destDir e w Hex Hr).
         split; [exact Hn | apply confined_refl]. }
    rewrite (copyUnpackedFiles_loop fuel srcDir destDir items w Hex Hr).
    pose proof (named_readdirSync _ _ _ Hn Hr) as Hitems.
    apply (keeps_forOf (Path.names destDir) items); [|exact Hn].
    apply (Forall_impl _ (P := fun n => Path.isName n = true));
      [|exact Hitems].
    intros item Hi. apply keeps_try.
    + apply keeps_copyItem; [exact Hi | intros s; apply IH].
    + intros e. destruct (inaccessible e);
        [apply keeps_warn | apply keeps_throw].
Qed.



(** ** The copy of the unpacked files, entry by entry *)

Lemma plain_cons (n : string) (ch : Fs.node) (l : list (string * Fs.node)) :
  plain (Fs.Dir ((n, ch) :: l)) = true ->
  Path.isName n = true /\ ~ In n (map fst l) /\ plain ch = true /\
  plain (Fs.Dir l) = true.
Proof.
  simpl. rewrite !andb_true_iff, negb_true_iff.
  intros [[[H1 H2] H3] H4]. repeat split; try assumption.
  intros Hin. assert (existsb (String.eqb n) (map fst l) = true) as E.
  { apply existsb_exists. exists n.
    split; [exact Hin | apply String.eqb_refl]. }
  congruence.
Qed.

Lemma depth_cons (n : string) (ch : Fs.node) (l : list (string * Fs.node))
    (k : nat) :
  depth (Fs.Dir ((n, ch) :: l)) <= S k ->
  depth ch <= k /\ depth (Fs.Dir l) <= S k.
Proof. simpl. lia. Qed.

Lemma fits_none (s : Fs.node) :
  plain s = true -> fits s None = true.
Proof. destruct s; simpl; congruence. Qed.

Lemma fits_entries (l ds : list (string * Fs.node)) (n : string)
    (ch : Fs.node) :
  fits (Fs.Dir l) (Some (Fs.Dir ds)) = true -> In (n, ch) l ->
  fits ch (Fs.alookup n ds) = true.
Proof.
  induction l as [|[m c] l IH]; simpl; [easy|].
  rewrite andb_true_iff. intros [H1 H2] [[= -> ->]|Hin]; [exact H1|].
  now apply IH.
Qed.

(** What is at the destination of a child fits the child. *)
Lemma fits_child (l : list (string * Fs.node)) (q : list string)
    (t : Fs.node) (n : string) (ch : Fs.node) :
  plain (Fs.Dir l) = true ->
  fits (Fs.Dir l) (Fs.get q t) = true -> In (n, ch) l ->
  fits ch (Fs.get (q ++ [n]) t) = true.
Proof.
  intros Hp Hf Hin. rewrite get_snoc.
  destruct (Fs.get q t) as [[d|ds|c]|]; try discriminate.
  - now apply (fits_entries l).
  - apply fits_none. clear Hf.
    induction l as [|[m c] l IH]; [easy|].
    apply plain_cons in Hp. destruct Hp as (_ & _ & Hc & Hl).
    destruct Hin as [[= -> ->]|Hin]; [exact Hc | now apply IH].
Qed.

(** *** What [mkdir -p] and a write leave as it was *)

Lemma get_mkdirp_frame (q p : list string) (t t' : Fs.node) :
  Fs.mkdirp q t = inr t' -> ~ above p q -> Fs.get p t' = Fs.get p t.
Proof.
  revert p t t'; induction q as [|s q IH]; intros p t t'; simpl.
  - destruct t; intros [= <-] || discriminate. reflexivity.
  - destruct t as [|es|]; try discriminate.
    destruct (Fs.mkdirp q _) as [|c'] eqn:Hm; [discriminate|].
    intros [= <-] Hp. destruct p as [|x p]; [destruct Hp; apply above_nil|].
    simpl. destruct (String.eqb_spec x s) as [->|Hne].
    + rewrite alookup_ainsert.
      assert (~ above p q) as Hp' by (intros H; apply Hp; now apply above_cons).
      rewrite (IH p _ _ Hm Hp').
      destruct (Fs.alookup s es) as [c|]; [reflexivity|].
      destruct p as [|y p]; [destruct Hp'; apply above_nil | reflexivity].
    + now rewrite alookup_ainsert_ne.
Qed.

Lemma get_write_frame (q p : list string) (b : string) (t t' : Fs.node) :
  Fs.write q b t = inr t' -> ~ above p q -> Fs.get p t' = Fs.get p t.
Proof.
  revert p t t'; induction q as [|s q IH]; intros p t t'; simpl.
  - destruct t; intros [= <-] || discriminate. intros Hp.
    destruct p; [destruct Hp; apply above_nil | reflexivity].
  - destruct t as [|es|]; try discriminate.
    intros Hw Hp. destruct p as [|x p]; [destruct Hp; apply above_nil|].
    assert (x = s -> ~ above p q) as Hp'.
    { intros -> H. apply Hp. now apply above_cons. }
    destruct (Fs.alookup s es) as [c|] eqn:E.
    + destruct (Fs.write q b c) as [|c'] eqn:Hc; [discriminate|].
      injection Hw as <-. simpl.
      destruct (String.eqb_spec x s) as [->|Hne].
      * rewrite alookup_ainsert, E. apply (IH p c c' Hc). now apply Hp'.
      * now rewrite alookup_ainsert_ne.
    + destruct q; [|discriminate]. injection Hw as <-. simpl.
      destruct (String.eqb_spec x s) as [->|Hne].
      * rewrite alookup_ainsert, E.
        destruct p; [destruct (Hp' eq_refl); apply above_nil | reflexivity].
      * now rewrite alookup_ainsert_ne.
Qed.

Lemma get_at (p r : list string) (t : Fs.node) :
  Fs.get (p ++ r) t =
  match Fs.get p t with Some n => Fs.get r n | None => None end.
Proof.
  revert t; induction p as [|s p IH]; intros t; simpl; [reflexivity|].
  destruct t as [|es|]; try reflexivity.
  destruct (Fs.alookup s es); [apply IH | reflexivity].
Qed.

Lemma above_snoc_inv (r q : list string) (n : string) :
  above r (q ++ [n]) -> above r q \/ r = (q ++ [n])%list.
Proof.
  intros [x H]. destruct x as [|a x] using rev_ind.
  - right. now rewrite app_nil_r in H.
  - left. rewrite app_assoc in H. apply app_inj_tail in H.
    destruct H as [-> _]. apply above_app.
Qed.

Lemma not_above_longer (p r : list string) (n : string) :
  ~ above (p ++ n :: r) p.
Proof.
  intros [x H]. apply (f_equal (@List.length string)) in H.
  rewrite !length_app in H. simpl in H. lia.
Qed.

Lemma not_blocked_mkdirp (q : list string) (t : Fs.node) :
  ~ blocked q t -> exists t', Fs.mkdirp q t = inr t'.
Proof.
  intros H. destruct (Fs.mkdirp q t) as [c|t'] eqn:E; [|now eexists].
  destruct H. exact (mkdirp_fails_blocked _ _ _ E).
Qed.

Lemma mkdirp_not_blocked (q : list string) (t t' : Fs.node) :
  Fs.mkdirp q t = inr t' -> ~ blocked q t.
Proof.
  intros H Hb. destruct (blocked_mkdirp_fails _ _ Hb) as [c Hc]. congruence.
Qed.

Lemma kindAt_dir_not_blocked (q : list string) (t : Fs.node) :
  kindAt q t = KDir -> ~ blocked q t.
Proof.
  intros H. apply (mkdirp_not_blocked q t t). now apply mkdirp_there_kind.
Qed.

(** What is above a directory is a directory. *)
Lemma kindAt_above_dir (p q : list string) (t : Fs.node) :
  above p q -> kindAt q t = KDir -> kindAt p t = KDir.
Proof.
  intros [r ->]. unfold kindAt. rewrite get_at.
  destruct (Fs.get p t) as [n|]; [|discriminate].
  destruct r as [|s r]; [easy|].
  destruct n as [|es|]; simpl; try discriminate. reflexivity.
Qed.

Lemma not_blocked_snoc (q : list string) (n : string) (t : Fs.node) :
  ~ blocked q t -> ~ obstacle (kindAt (q ++ [n]) t) ->
  ~ blocked (q ++ [n]) t.
Proof.
  intros Hq Hn (r & Hr & Ho).
  destruct (above_snoc_inv _ _ _ Hr) as [H| ->]; [|contradiction].
  apply Hq. now exists r.
Qed.

Lemma alookup_In {V} (n : string) (v : V) (l : list (string * V)) :
  Fs.alookup n l = Some v -> In (n, v) l.
Proof.
  induction l as [|[m c] l IH]; simpl; [discriminate|].
  destruct (String.eqb_spec m n) as [->|Hne].
  - intros [= ->]. now left.
  - intros H. right. now apply IH.
Qed.

Lemma alookup_None {V} (n : string) (l : list (string * V)) :
  Fs.alookup n l = None -> ~ In n (map fst l).
Proof.
  induction l as [|[m c] l IH]; simpl; [easy|].
  destruct (String.eqb_spec m n) as [->|Hne]; [discriminate|].
  intros H [E|Hin]; [contradiction | now apply IH].
Qed.

Lemma plain_alookup (l : list (string * Fs.node)) (n : string) (ch : Fs.node) :
  plain (Fs.Dir l) = true -> In (n, ch) l -> Fs.alookup n l = Some ch.
Proof.
  induction l as [|[m c] l IH]; [easy|].
  intros Hp. apply plain_cons in Hp. destruct Hp as (_ & Hn & _ & Hl).
  intros [[= -> ->]|Hin]; simpl.
  - now rewrite String.eqb_refl.
  - destruct (String.eqb_spec m n) as [->|Hne]; [|now apply IH].
    destruct Hn. apply (in_map fst) in Hin. exact Hin.
Qed.

Lemma kind_none (o : option Fs.node) : kind o = KNone <-> o = None.
Proof. destruct o as [[| |]|]; simpl; split; congruence. Qed.

(** *** Single calls *)

Lemma statSync_file (p d : string) (w : World) :
  straight p ->
  Fs.get (Path.names p) (fs w) = Some (Fs.File d) ->
  statSync p w = (Ok (Fs.mkStats true false), w).
Proof.
  intros Hs H. unfold statSync, reading.
  pose proof (statSync_straight p (fs w) Hs) as E. rewrite H in E.
  now rewrite E.
Qed.

Lemma statSync_dir (p : string) (es : list (string * Fs.node)) (w : World) :
  straight p ->
  Fs.get (Path.names p) (fs w) = Some (Fs.Dir es) ->
  statSync p w = (Ok (Fs.mkStats false true), w).
Proof.
  intros Hs H. unfold statSync, reading.
  pose proof (statSync_straight p (fs w) Hs) as E. rewrite H in E.
  now rewrite E.
Qed.

Lemma ensureDirSync_ok (p : string) (t' : Fs.node) (w : World) :
  p <> EmptyString ->
  Fs.mkdirp (Path.names p) (fs w) = inr t' ->
  ensureDirSync p w = (Ok tt, mkWorld t' (console w)).
Proof.
  intros Hp H. unfold ensureDirSync, writing.
  now rewrite (ensureDirSync_names _ _ Hp), H.
Qed.

Lemma copyFileSync_ok (src dest d : string) (t' : Fs.node) (w : World) :
  straight src -> straight dest ->
  Fs.get (Path.names src) (fs w) = Some (Fs.File d) ->
  Fs.write (Path.names dest) d (fs w) = inr t' ->
  copyFileSync src dest w = (Ok tt, mkWorld t' (console w)).
Proof.
  intros Hs Hd Hr Hw. unfold copyFileSync, writing.
  now rewrite (copyFileSync_straight _ _ _ _ Hs Hd Hr), Hw.
Qed.

Lemma join_name_straight (a n : string) :
  Path.isName n = true -> straight (Path.join a n).
Proof. intros H. now apply join_straight, isName_descends. Qed.

Lemma dirname_join_name (a n : string) :
  Path.isName n = true ->
  Path.names (Path.dirname (Path.join a n)) = Path.names a.
Proof.
  intros H. rewrite (dirname_join _ _ (isName_descends _ H)).
  rewrite (pieces_slashFree _ (isName_slashFree _ H)).
  apply removelast_last.
Qed.

(** *** Paths that are apart *)

Lemma apart_snoc_dest (src dest : list string) (n : string) :
  ~ above src dest -> ~ above (src ++ [n]) dest.
Proof.
  intros H [r Hr]. apply H. exists (n :: r).
  now rewrite Hr, <- app_assoc.
Qed.

Lemma apart_snoc (src dest : list string) (n : string) :
  ~ above src dest -> ~ above dest src ->
  ~ above (src ++ [n]) (dest ++ [n]).
Proof.
  intros H1 H2 H.
  assert (above src (dest ++ [n])) as H'.
  { exact (above_trans _ _ _ (above_app src [n]) H). }
  destruct (above_snoc_inv _ _ _ H') as [H3|H3]; [contradiction|].
  apply H2. rewrite H3. apply above_app.
Qed.

Lemma source_beside (src dest : list string) (m n : string) (r : list string) :
  ~ above src dest -> ~ above dest src ->
  (src ++ [m])%list <> (dest ++ n :: r)%list.
Proof.
  intros H1 H2 E.
  assert (above dest (src ++ [m])) as H by (rewrite E; apply above_app).
  destruct (above_snoc_inv _ _ _ H) as [H3|H3]; [contradiction|].
  rewrite H3 in E. apply (f_equal (@List.length string)) in E.
  rewrite !length_app in E. simpl in E. lia.
Qed.

Lemma copiedInto_nil (dest : list string) (t : Fs.node) :
  copiedInto dest [] t t.
Proof.
  repeat split; try easy.
Qed.

Lemma copiedInto_cons (dest : list string) (n : string) (ch : Fs.node)
    (l : list (string * Fs.node)) (t t1 t' : Fs.node) :
  ~ In n (map fst l) ->
  copiedInto dest [(n, ch)] t t1 -> copiedInto dest l t1 t' ->
  copiedInto dest ((n, ch) :: l) t t'.
Proof.
  intros Hn (A1 & A2 & A3 & A4 & _) (B1 & B2 & B3 & B4 & B5).
  assert (forall r, Fs.get (dest ++ n :: r) t' = Fs.get (dest ++ n :: r) t1)
    as Hkeep.
  { intros r. apply B3; [apply not_above_longer|].
    intros m r' Hm E. apply app_inv_head in E. injection E as -> _.
    contradiction. }
  assert (forall m r, In m (map fst l) ->
            Fs.get (dest ++ m :: r) t1 = Fs.get (dest ++ m :: r) t) as Hlater.
  { intros m r Hm. apply A3; [apply not_above_longer|].
    intros n' r' [<-|[]] E. apply app_inv_head in E. injection E as -> _.
    contradiction. }
  repeat split.
  - intros m c r [[= <- <-]|Hin] Hk.
    + unfold kindAt. rewrite Hkeep. apply (A1 n ch r); [now left | exact Hk].
    + now apply (B1 m c r).
  - intros m c r [[= <- <-]|Hin] Hk.
    + unfold kindAt. rewrite Hkeep. apply (A2 n ch r); [now left | exact Hk].
    + rewrite (B2 m c r Hin Hk). unfold kindAt. rewrite Hlater; [easy|].
      now apply (in_map fst) in Hin.
  - intros p Hp Hne. rewrite B3, A3; try assumption; try reflexivity.
    + intros m r [<-|[]]. apply Hne. now left.
    + intros m r Hm. apply Hne. now right.
  - intros _ p Hp. destruct l as [|e l].
    + rewrite (B5 eq_refl). now apply A4.
    + now apply B4.
  - discriminate.
Qed.

(** A file of the source directory: its bytes go to the destination. *)
Lemma copyItem_file (recur : string -> string -> M unit)
    (srcDir destDir n d : string) (t : Fs.node) (c : list string) :
  let src := Path.names srcDir in
  let dest := Path.names destDir in
  Path.isName n = true ->
  Fs.get (src ++ [n]) t = Some (Fs.File d) ->
  ~ above src dest ->
  ~ blocked dest t ->
  fits (Fs.File d) (Fs.get (dest ++ [n]) t) = true ->
  exists t',
    copyItem recur srcDir destDir n (mkWorld t c) = (Ok tt, mkWorld t' c) /\
    copiedInto dest [(n, Fs.File d)] t t'.
Proof.
  intros src dest Hn Hsrc Hapart Hopen Hfits.
  destruct (not_blocked_mkdirp _ _ Hopen) as [t1 Hm].
  assert (Fs.get (src ++ [n]) t1 = Some (Fs.File d)) as Hsrc1.
  { rewrite (get_mkdirp_frame _ _ _ _ Hm); [exact Hsrc|].
    now apply apart_snoc_dest. }
  assert (Fs.get (dest ++ [n]) t1 = Fs.get (dest ++ [n]) t) as Hd1.
  { apply (get_mkdirp_frame _ _ _ _ Hm), above_longer. }
  pose proof (kind_mkdirp_target _ _ _ Hm) as Hdir.
  assert (exists t2, Fs.write (dest ++ [n]) d t1 = inr t2) as [t2 Hw].
  { destruct (Fs.get (dest ++ [n]) t) as [[d0|ds|c0]|] eqn:E;
      try discriminate.
    - now apply (write_over_file _ _ d0).
    - unfold kindAt in Hdir.
      destruct (Fs.get dest t1) as [[|es1|]|] eqn:E1; try discriminate.
      apply (write_new _ _ _ _ es1 E1).
      rewrite get_snoc, E1 in Hd1. exact Hd1. }
  exists t2. split.
  - unfold copyItem, bind.
    rewrite (statSync_file _ d); simpl;
      [|now apply join_name_straight | now rewrite (join_name _ _ Hn)].
    rewrite (ensureDirSync_ok _ t1); simpl;
      [|apply dirname_truthy | now rewrite (dirname_join_name _ _ Hn)].
    rewrite (copyFileSync_ok _ _ d t2); simpl; try reflexivity;
      try (now apply join_name_straight);
      now rewrite (join_name _ _ Hn).
  - assert (forall p, ~ above p (dest ++ [n]) -> ~ above p dest ->
              Fs.get p t2 = Fs.get p t) as Hframe.
    { intros p H1 H2. rewrite (get_write_frame _ _ _ _ _ Hw H1).
      exact (get_mkdirp_frame _ _ _ _ Hm H2). }
    repeat split.
    + intros m ch r [[= <- <-]|[]] Hk. destruct r as [|x r]; [|now destruct Hk].
      unfold kindAt. now rewrite (write_get _ _ _ _ Hw).
    + intros m ch r [[= <- <-]|[]] Hk. destruct r as [|x r]; [discriminate|].
      unfold kindAt. rewrite Hframe; [reflexivity | | apply not_above_longer].
      intros [y Hy]. rewrite <- app_assoc in Hy. apply app_inv_head in Hy.
      discriminate.
    + intros p Hp Hne. apply Hframe; [|exact Hp].
      intros H. destruct (above_snoc_inv _ _ _ H) as [H1| ->];
        [contradiction|].
      now apply (Hne n []); [left|].
    + intros _ p Hp.
      destruct (kind_write _ _ p _ _ Hw) as [[-> _]|[_ ->]].
      * now destruct (above_longer dest n).
      * exact (kindAt_above_dir _ _ _ Hp Hdir).
    + discriminate.
Qed.

(** A directory of the source directory: it is made at the destination
    and copied in turn. *)
Lemma copyItem_dir (fuel : nat) (srcDir destDir n : string)
    (es : list (string * Fs.node)) (t : Fs.node) (c : list string) :
  let src := Path.names srcDir in
  let dest := Path.names destDir in
  copies fuel ->
  Path.isName n = true ->
  Fs.get (src ++ [n]) t = Some (Fs.Dir es) ->
  plain (Fs.Dir es) = true ->
  depth (Fs.Dir es) <= fuel ->
  ~ above src dest -> ~ above dest src ->
  ~ blocked dest t ->
  fits (Fs.Dir es) (Fs.get (dest ++ [n]) t) = true ->
  exists t',
    copyItem (copyUnpackedFiles fuel) srcDir destDir n (mkWorld t c)
      = (Ok tt, mkWorld t' c) /\
    copiedInto dest [(n, Fs.Dir es)] t t'.
Proof.
  intros src dest IH Hn Hsrc Hplain Hdepth Hsd Hds Hopen Hfits.
  assert (~ blocked (dest ++ [n]) t) as Hopen'.
  { apply not_blocked_snoc; [exact Hopen|]. unfold kindAt.
    destruct (Fs.get (dest ++ [n]) t) as [[|ds|]|]; try discriminate;
      intros [[x H]|[x H]]; discriminate. }
  destruct (not_blocked_mkdirp _ _ Hopen') as [t1 Hm].
  pose proof (kind_mkdirp_target _ _ _ Hm) as Hdir.
  assert (forall p, ~ above p (dest ++ [n]) -> Fs.get p t1 = Fs.get p t)
    as Hframe1 by (intros p; apply (get_mkdirp_frame _ _ _ _ Hm)).
  pose proof (join_name srcDir n Hn) as Es. fold src in Es.
  pose proof (join_name destDir n Hn) as Ed. fold dest in Ed.
  pose proof (join_name_straight srcDir n Hn) as Ss.
  pose proof (join_name_straight destDir n Hn) as Sd.
  specialize (IH (Path.join srcDir n) (Path.join destDir n) es t1 c).
  cbv zeta in IH. rewrite Es, Ed in IH.
  destruct IH as (t' & Hrun & C1 & C2 & C3 & C4 & C5).
  - pose proof (find_straight _ t1 Ss) as Hf. rewrite Es in Hf.
    rewrite Hframe1 in Hf by now apply apart_snoc.
    now rewrite Hsrc in Hf.
  - exact Hplain.
  - exact Hdepth.
  - now apply apart_snoc.
  - now apply apart_snoc.
  - now apply kindAt_dir_not_blocked.
  - intros m ch Hin. rewrite Hframe1 by apply above_longer.
    now apply (fits_child es).
  - 
    assert (kindAt (dest ++ [n]) t' = KDir) as Hdir'.
    { destruct es as [|e es]; [now rewrite (C5 eq_refl)|].
      apply C4; [discriminate | apply above_refl]. }
    assert (forall x r, (dest ++ n :: x :: r)%list
                        = ((dest ++ [n]) ++ x :: r)%list) as Hassoc.
    { intros x r. now rewrite <- app_assoc. }
    exists t'. split.
    + unfold copyItem, bind.
      rewrite (statSync_dir _ es); simpl; [|exact Ss | now rewrite Es].
      rewrite (ensureDirSync_ok _ t1); simpl;
        [|now apply straight_truthy | now rewrite Ed].
      exact Hrun.
    + repeat split.
      * intros m ch r [[= <- <-]|[]] Hk. destruct r as [|x r]; [exact Hdir'|].
        simpl in Hk |- *.
        destruct (Fs.alookup x es) as [ch|] eqn:E; [|now destruct Hk].
        rewrite Hassoc. apply C1; [now apply alookup_In | exact Hk].
      * intros m ch r [[= <- <-]|[]] Hk. destruct r as [|x r]; [discriminate|].
        simpl in Hk. rewrite Hassoc.
        transitivity (kindAt ((dest ++ [n]) ++ x :: r) t1).
        -- destruct (Fs.alookup x es) as [ch|] eqn:E.
           ++ apply C2 with (ch := ch); [now apply alookup_In | exact Hk].
           ++ unfold kindAt.
              rewrite C3; [reflexivity | apply not_above_longer|].
              intros y r' Hy E'. apply app_inv_head in E'. injection E' as <- _.
              exact (alookup_None _ _ E Hy).
        -- unfold kindAt. now rewrite Hframe1 by apply not_above_longer.
      * intros p Hp Hne.
        assert (~ above p (dest ++ [n])) as Hp'.
        { intros H. destruct (above_snoc_inv _ _ _ H) as [H1| ->];
            [contradiction|].
          now apply (Hne n []); [left|]. }
        rewrite C3, Hframe1; try assumption; try reflexivity.
        intros y r' _ E. rewrite <- app_assoc in E. simpl in E.
        now apply (Hne n (y :: r')); [left|].
      * intros _ p Hp.
        apply (kindAt_above_dir p (dest ++ [n])); [|exact Hdir'].
        exact (above_trans _ _ _ Hp (above_app dest [n])).
      * discriminate.
Qed.

Lemma copyItems_step (recur : string -> string -> M unit)
    (srcDir destDir item : string) (rest : list string) (w w' : World) :
  copyItem recur srcDir destDir item w = (Ok tt, w') ->
  copyItems recur srcDir destDir (item :: rest) w
    = copyItems recur srcDir destDir rest w'.
Proof.
  intros H. unfold copyItems. simpl. unfold bind, try_catch. now rewrite H.
Qed.

(** The loop over the entries of a directory. *)
Lemma copyItems_copies (fuel : nat) (srcDir destDir : string)
    (l : list (string * Fs.node)) :
  let src := Path.names srcDir in
  let dest := Path.names destDir in
  copies fuel ->
  ~ above src dest -> ~ above dest src ->
  plain (Fs.Dir l) = true ->
  depth (Fs.Dir l) <= S fuel ->
  forall t c,
    (forall n ch, In (n, ch) l -> Fs.get (src ++ [n]) t = Some ch) ->
    ~ blocked dest t ->
    (forall n ch, In (n, ch) l -> fits ch (Fs.get (dest ++ [n]) t) = true) ->
    exists t',
      copyItems (copyUnpackedFiles fuel) srcDir destDir (map fst l)
        (mkWorld t c) = (Ok tt, mkWorld t' c) /\
      copiedInto dest l t t'.
Proof.
  intros src dest IH Hsd Hds.
  induction l as [|[n ch] l IHl]; intros Hplain Hdepth t c Hsrc Hopen Hfits.
  - exists t. split; [reflexivity | apply copiedInto_nil].
  - apply plain_cons in Hplain. destruct Hplain as (Hn & Hfresh & Hch & Hl).
    apply depth_cons in Hdepth. destruct Hdepth as [Hdch Hdl].
    assert (exists t1,
              copyItem (copyUnpackedFiles fuel) srcDir destDir n (mkWorld t c)
                = (Ok tt, mkWorld t1 c) /\
              copiedInto dest [(n, ch)] t t1) as (t1 & Hrun1 & Hone).
    { destruct ch as [d|es|c0]; [| |discriminate].
      - apply copyItem_file; try assumption.
        + apply Hsrc. now left.
        + apply Hfits. now left.
      - apply copyItem_dir; try assumption.
        + apply Hsrc. now left.
        + apply Hfits. now left. }
    pose proof Hone as (_ & _ & A3 & A4 & _).
    destruct (IHl Hl Hdl t1 c) as (t' & Hrun & Hrest).
    + intros m ch' Hin. rewrite A3; [apply Hsrc; now right | |].
      * now apply apart_snoc_dest.
      * intros n' r _. now apply source_beside.
    + apply kindAt_dir_not_blocked, A4; [discriminate | apply above_refl].
    + intros m ch' Hin. rewrite A3; [apply Hfits; now right | |].
      * apply above_longer.
      * intros n' r [<-|[]] E. apply app_inv_head in E. injection E as -> _.
        apply Hfresh. now apply (in_map fst) in Hin.
    + exists t'. split.
      * simpl map. rewrite (copyItems_step _ _ _ _ _ _ _ Hrun1). exact Hrun.
      * now apply (copiedInto_cons _ _ _ _ _ t1).
Qed.

Lemma copies_all (fuel : nat) : copies fuel.
Proof.
  induction fuel as [|fuel IH];
    intros srcDir destDir es t c src dest Hsrc Hplain Hdepth Hsd Hds Hopen
      Hfits;
    subst src dest.
  - simpl in Hdepth. lia.
  - destruct (find_names _ _ _ Hsrc) as [Hget _].
    destruct (copyItems_copies fuel srcDir destDir es IH Hsd Hds Hplain Hdepth
                t c) as (t' & Hrun & Hpost); try assumption.
    + intros n ch Hin. rewrite get_snoc, Hget. now apply plain_alookup.
    + exists t'. split; [|exact Hpost].
      rewrite (copyUnpackedFiles_loop fuel srcDir destDir (map fst es));
        [exact Hrun | |].
      * unfold Fs.existsSync. cbn [fs]. now rewrite Hsrc.
      * unfold Fs.readdirSync. cbn [fs]. now rewrite Hsrc.
Qed.

Lemma kind_file (o : option Fs.node) (d : string) :
  kind o = KFile d -> o = Some (Fs.File d).
Proof. destruct o as [[| |]|]; simpl; congruence. Qed.



(** ** The whole extraction *)

Lemma confines_writing {A} (root : list string)
    (f : Fs.node -> Returned A * Fs.node) :
  (forall t, confined root t (snd (f t))) -> confines root (writing f).
Proof.
  intros H w. unfold writing. specialize (H (fs w)).
  destruct (f (fs w)) as [r t']. exact H.
Qed.

Lemma confines_extractAsarManually (asar : Codec)
    (asarFile destDir unpackedDir : string) :
  wellNamed asar asarFile ->
  confines (Path.names destDir)
    (extractAsarManually asar asarFile destDir unpackedDir).
Proof. intros H w. now apply confined_extractAsarManually. Qed.

(** After a first step that stays inside, the steps that follow do. *)
Lemma confined_bind {A B} (root : list string) (m : M A) (k : A -> M B)
    (w : World) :
  confined root (fs w) (fs (snd (m w))) ->
  (forall a, confines root (k a)) ->
  confined root (fs w) (fs (snd (bind m k w))).
Proof.
  intros Hm Hk. unfold bind.
  destruct (m w) as [[a|e|] w1]; simpl in *; try exact Hm.
  exact (confined_trans _ _ _ _ Hm (Hk a w1)).
Qed.

Lemma confined_extractAsarWithUnpacked (asar : Codec) (fuel : nat)
    (asarFile destDir : string) (w : World) :
  (forall t,
     confined (Path.names destDir) t
       (snd (extractAll asar asarFile destDir t))) ->
  wellNamed asar asarFile ->
  named (fs w) = true ->
  confined (Path.names destDir) (fs w)
    (fs (snd (extractAsarWithUnpacked asar fuel asarFile destDir w))).
Proof.
  intros Hall Hnames Hn. unfold extractAsarWithUnpacked.
  unfold bind at 1, existsSync, reading. cbn [called fs fst snd].
  apply confined_bind.
  - destruct (Fs.existsSync (asarFile ++ ".unpacked") (fs w)).
    + now apply keeps_copyUnpackedFiles.
    + apply confined_refl.
  - intros _. apply confines_try; [now apply confines_writing|].
    intros e. destruct (missingUnpacked e); [|apply confines_throw].
    apply confines_bind; [apply confines_warn|]. intros _.
    now apply confines_extractAsarManually.
Qed.


Lemma confines_extractAllM (a : Reference.Archive) (asarFile dest : string) :
  Forall (fun f => Path.tidy (Path.stripLeading f) = true)
    (Reference.listFiles "/" (Reference.header a)) ->
  confines (Path.names dest) (Reference.extractAllM a asarFile dest).
Proof.
  intros Hnames. unfold Reference.extractAllM. apply confines_bind.
  - apply confines_ensureDirSync. left. apply above_refl.
  - intros _. apply confines_forOf.
    apply (Forall_impl _ (P := fun f =>
                            Path.tidy (Path.stripLeading f) = true));
      [|exact Hnames].
    intros f Hf. pose proof (tidy_descends _ Hf) as Hd.
    destruct (isDir _).
    + apply confines_ensureDirSync. left. now apply above_join.
    + apply confines_bind; [apply confines_reading|]. intros v.
      destruct v; try apply confines_ret.
      now apply confines_writeFileSync, above_join.
Qed.

Lemma reference_extractAll_confined (a : Reference.Archive)
    (asarFile dest : string) (t : Fs.node) :
  Forall (fun f => Path.tidy (Path.stripLeading f) = true)
    (Reference.listFiles "/" (Reference.header a)) ->
  confined (Path.names dest) t
    (snd (extractAll (Reference.codec a) asarFile dest t)).
Proof.
  intros Hnames.
  pose proof (confines_extractAllM a asarFile dest Hnames (mkWorld t []))
    as H.
  simpl in *.
  destruct (Reference.extractAllM a asarFile dest _) as [[u|e|] w']; exact H.
Qed.

Lemma app_listing_tidy :
  Forall (fun f => Path.tidy (Path.stripLeading f) = true)
    (Reference.listFiles "/" (Reference.header Sample.app)).
Proof. now repeat constructor. Qed.


(** ** A directory entry *)

(** X6: for a directory entry the manual extraction looks at nothing
    but the destination: when something exists there, a regular file
    included, the entry is left as it is without a warning; when nothing
    does, the directory is made with the ones above it; and when it
    cannot be made the error is not caught: the loop ends there and the
    entries that follow are not processed. *)
Theorem directory_entry_made_or_left (asar : Codec)
    (asarFile destDir : string) (header : AsarNode) (filename : string)
    (rest : list string) (w : World) :
  let name := Path.stripLeading filename in
  let dest := Path.join destDir name in
  let run := extractEntry asar asarFile destDir header in
  isDir (getAsarEntryInfo header name) = true ->
  (Fs.existsSync dest (fs w) = true -> run filename w = (Ok tt, w)) /\
  (Fs.existsSync dest (fs w) = false ->
   forall t',
     Fs.ensureDirSync dest (fs w) = (Returns tt, t') ->
     run filename w = (Ok tt, mkWorld t' (console w)) /\
     kindAt (Path.names dest) t' = KDir) /\
  (Fs.existsSync dest (fs w) = false ->
   forall err t',
     Fs.ensureDirSync dest (fs w) = (Throws err, t') ->
     t' = fs w /\
     forOf (filename :: rest) run w = (Throw err, w)).
Proof.
  intros name dest run Hdir.
  assert (forall w',
            (found <- existsSync dest ;;
             if negb found then ensureDirSync dest else ret tt) w = w' ->
            run filename w = w') as Hone.
  { intros w' <-. unfold run, extractEntry. fold name. fold dest.
    now rewrite Hdir. }
  unfold bind, existsSync, reading, ensureDirSync, writing in Hone.
  cbn in Hone.
  split; [|split].
  - intros Hthere. apply Hone. now rewrite Hthere.
  - intros Hnone t' Hmade. split.
    + apply Hone. rewrite Hnone. cbn. now rewrite Hmade.
    + unfold Fs.ensureDirSync in Hmade.
      destruct dest as [|a0 dest0] eqn:Ed; [discriminate|]. rewrite <- Ed in *.
      destruct (Fs.mkdirp (Path.names dest) (fs w)) as [c|t1] eqn:Hm;
        [discriminate|].
      injection Hmade as <-. exact (kind_mkdirp_target _ _ _ Hm).
  - intros Hnone err t' Hfails.
    assert (t' = fs w) as ->.
    { unfold Fs.ensureDirSync in Hfails.
      destruct dest as [|a0 dest0]; [congruence|].
      destruct (Fs.mkdirp _ (fs w)); congruence. }
    split; [reflexivity|].
    cbn. unfold bind. rewrite (Hone (Throw err, w)); [reflexivity|].
    rewrite Hnone. cbn. rewrite Hfails. now destruct w.
Qed.

Lemma directory_entry_made_or_left_witness :
  let header := Reference.header Sample.native in
  let run :=
    extractEntry (Reference.codec Sample.native) "app.asar" "out" header in
  run "/native" (Sample.start Sample.withFile)
    = (Ok tt, Sample.start Sample.withFile) /\
  (exists t',
     run "/native" (Sample.start Sample.bare) = (Ok tt, mkWorld t' []) /\
     kindAt ["out"; "native"] t' = KDir) /\
  forOf ["/native"; "/main.js"] run (Sample.start Sample.blocked)
    = (Throw (Js.sysError "ENOTDIR" "mkdir" "out/native"),
       Sample.start Sample.blocked).
Proof.
  intros header run. split; [|split].
  - exact (proj1 (directory_entry_made_or_left (Reference.codec Sample.native)
                    "app.asar" "out" header "/native" []
                    (Sample.start Sample.withFile) eq_refl) eq_refl).
  - eexists.
    exact (proj1 (proj2 (directory_entry_made_or_left
                           (Reference.codec Sample.native)
                           "app.asar" "out" header "/native" []
                           (Sample.start Sample.bare) eq_refl))
             eq_refl _ eq_refl).
  - exact (proj2 (proj2 (proj2 (directory_entry_made_or_left
                                  (Reference.codec Sample.native)
                                  "app.asar" "out" header "/native" ["/main.js"]
                                  (Sample.start Sample.blocked) eq_refl))
                    eq_refl _ _ eq_refl)).
Defined.

(** X7: the ways through [extractAsarWithUnpacked] that do not reach the
    fallback.  Without a directory of unpacked files the pre-seed does
    nothing and a bulk extraction that returns is the whole result, with
    no line on the console; an error of the pre-seed copy is thrown
    before the bulk extraction is tried; and after a pre-seed that
    returned, a bulk extraction that returns ends the call. *)
Theorem extraction_without_fallback (asar : Codec) (fuel : nat)
    (asarFile destDir : string) (w : World) :
  let unpackedDir := asarFile ++ ".unpacked" in
  let out := extractAsarWithUnpacked asar fuel asarFile destDir w in
  (Fs.existsSync unpackedDir (fs w) = false ->
   forall tree2,
     extractAll asar asarFile destDir (fs w) = (Returns tt, tree2) ->
     out = (Ok tt, mkWorld tree2 (console w))) /\
  (Fs.existsSync unpackedDir (fs w) = true ->
   forall err w1,
     copyUnpackedFiles fuel unpackedDir destDir w = (Throw err, w1) ->
     out = (Throw err, w1)) /\
  (Fs.existsSync unpackedDir (fs w) = true ->
   forall w1 tree2,
     copyUnpackedFiles fuel unpackedDir destDir w = (Ok tt, w1) ->
     extractAll asar asarFile destDir (fs w1) = (Returns tt, tree2) ->
     out = (Ok tt, mkWorld tree2 (console w1))).
Proof.
  intros unpackedDir out. subst unpackedDir out.
  unfold extractAsarWithUnpacked, bind, existsSync, reading, try_catch,
    writing.
  cbn [called]. repeat split.
  - intros Hno tree2 Hall. rewrite Hno. cbn. now rewrite Hall.
  - intros Hyes err w1 Hcopy. rewrite Hyes. now rewrite Hcopy.
  - intros Hyes w1 tree2 Hcopy Hall. rewrite Hyes, Hcopy. now rewrite Hall.
Qed.

Lemma extraction_without_fallback_witness :
  let extract codec tree :=
    extractAsarWithUnpacked codec 2 "app.asar" "out" (Sample.start tree) in
  let packed :=
    Reference.mkArchive (ANode (Some [("main.js", Sample.leaf)]) None)
      [("main.js", "console.log(1)")] in
  let one :=
    Reference.mkArchive
      (ANode (Some [("helper.node", Sample.external)]) None) [] in
  extract (Reference.codec packed) Sample.bare =
    (Ok tt,
     mkWorld
       (Fs.Dir [("app.asar", Fs.File "asar");
                ("out", Fs.Dir [("main.js", Fs.File "console.log(1)")])]) []) /\
  extract (Reference.codec Sample.app) Sample.blocked =
    (Throw (Js.sysError "EEXIST" "mkdir" "out"),
     Sample.start Sample.blocked) /\
  extract (Reference.codec one) Sample.seeded =
    (Ok tt, mkWorld Sample.halfway []).
Proof.
  intros extract packed one. subst extract. cbv beta. split; [|split].
  - apply (proj1 (extraction_without_fallback (Reference.codec packed) 2
                    "app.asar" "out" (Sample.start Sample.bare)));
      reflexivity.
  - apply (proj1 (proj2 (extraction_without_fallback
                           (Reference.codec Sample.app) 2 "app.asar" "out"
                           (Sample.start Sample.blocked)))); reflexivity.
  - apply (proj2 (proj2 (extraction_without_fallback (Reference.codec one) 2
                           "app.asar" "out" (Sample.start Sample.seeded)))
             eq_refl (Sample.start Sample.halfway)); reflexivity.
Defined.

(** ** More on the header lookup *)

Lemma walkParts_app (p q : list string) (h : AsarNode) :
  walkParts (p ++ q) h =
  match fold_left descend p (Some h) with
  | Some n => walkParts q n
  | None => notFound
  end.
Proof.
  revert h; induction p as [|x p IH]; intros h; simpl; [reflexivity|].
  destruct (files h) as [children|].
  - destruct (property children x) as [child|]; [apply IH|].
    now rewrite fold_descend_none.
  - now rewrite fold_descend_none.
Qed.

Lemma walkParts_not_found (p : list string) (h : AsarNode) :
  exists_ (walkParts p h) = false -> walkParts p h = notFound.
Proof.
  revert h; induction p as [|x p IH]; intros h; simpl; [discriminate|].
  destruct (files h) as [children|]; [|reflexivity].
  destruct (property children x) as [child|]; [apply IH | reflexivity].
Qed.

Lemma walkParts_isDir_exists (p : list string) (h : AsarNode) :
  isDir (walkParts p h) = true -> exists_ (walkParts p h) = true.
Proof.
  destruct (exists_ (walkParts p h)) eqn:E; [reflexivity|].
  now rewrite (walkParts_not_found _ _ E).
Qed.

Lemma segments_slash (a b : string) :
  Path.segments (a ++ "/" ++ b) = (Path.segments a ++ Path.segments b)%list.
Proof.
  change (a ++ "/" ++ b) with (a ++ String "/"%char b).
  now apply segments_app_sep.
Qed.

(** X14: the lookup goes down the header one name at a time: looking up
    [a/b] is looking up [b] from what [a] leads to, own or inherited, and
    nothing is found when [a] leads nowhere. *)
Theorem lookup_goes_down_by_names (header : AsarNode) (a b : string) :
  getAsarEntryInfo header (a ++ "/" ++ b) =
  match nodeAt header a with
  | Some node => getAsarEntryInfo node b
  | None => notFound
  end.
Proof.
  unfold getAsarEntryInfo, nodeAt. rewrite segments_slash.
  apply walkParts_app.
Qed.

(** X13: what is above an entry that the lookup finds is a directory
    that it finds; so nothing is found below a file entry, below an
    inherited property or below a path that is not found. *)
Theorem entries_above_are_directories (header : AsarNode) (a b : string) :
  Path.segments b <> [] ->
  (exists_ (getAsarEntryInfo header (a ++ "/" ++ b)) = true ->
   isDir (getAsarEntryInfo header a) = true /\
   exists_ (getAsarEntryInfo header a) = true) /\
  (isDir (getAsarEntryInfo header a) = false ->
   getAsarEntryInfo header (a ++ "/" ++ b) = notFound).
Proof.
  intros Hb. unfold getAsarEntryInfo. rewrite segments_slash.
  assert (exists_ (walkParts (Path.segments a ++ Path.segments b) header)
            = true -> isDir (walkParts (Path.segments a) header) = true) as H.
  { now apply walkParts_above_isDir. }
  split.
  - intros He. split; [now apply H|]. now apply walkParts_isDir_exists, H.
  - intros Hd. apply walkParts_not_found.
    destruct (exists_ _) eqn:E; [|reflexivity].
    rewrite (H eq_refl) in Hd. discriminate.
Qed.

Lemma entries_above_are_directories_witness :
  let header := Reference.header Sample.native in
  (exists_ (getAsarEntryInfo header "native/x") = true ->
   isDir (getAsarEntryInfo header "native") = true /\
   exists_ (getAsarEntryInfo header "native") = true) /\
  getAsarEntryInfo header "main.js/x/y" = notFound /\
  getAsarEntryInfo header "constructor/name" = notFound.
Proof.
  split; [|split].
  - exact (proj1 (entries_above_are_directories (Reference.header Sample.native)
                    "native" "x" ltac:(discriminate))).
  - apply (proj2 (entries_above_are_directories (Reference.header Sample.native)
                    "main.js" "x/y" ltac:(discriminate))).
    reflexivity.
  - apply (proj2 (entries_above_are_directories (Reference.header Sample.native)
                    "constructor" "name" ltac:(discriminate))).
    reflexivity.
Defined.

Lemma segments_stripLeading (s : string) :
  Path.segments (Path.stripLeading s) = Path.segments s.
Proof.
  induction s as [|c s IH]; [reflexivity|]. simpl.
  destruct (Path.is_sep c) eqn:E; [|reflexivity].
  rewrite IH. unfold Path.segments. simpl. now rewrite E.
Qed.

(** X15: the lookup reads both separators alike and takes repeated,
    leading and trailing separators for nothing: the normalisation that
    [extractAsarManually] applies to a name before the lookup does not
    change its result. *)
Theorem lookup_reads_separators_alike (header : AsarNode) (a b : string) :
  getAsarEntryInfo header (a ++ "\" ++ b)
    = getAsarEntryInfo header (a ++ "/" ++ b) /\
  getAsarEntryInfo header (a ++ "//" ++ b)
    = getAsarEntryInfo header (a ++ "/" ++ b) /\
  getAsarEntryInfo header ("/" ++ a) = getAsarEntryInfo header a /\
  getAsarEntryInfo header (a ++ "/") = getAsarEntryInfo header a /\
  getAsarEntryInfo header (Path.stripLeading a) = getAsarEntryInfo header a.
Proof.
  unfold getAsarEntryInfo. split; [|split; [|split; [|split]]].
  - change (a ++ "\" ++ b) with (a ++ String "\"%char b).
    change (a ++ "/" ++ b) with (a ++ String "/"%char b).
    now rewrite !segments_app_sep.
  - change (a ++ "/" ++ b) with (a ++ String "/"%char b).
    change (a ++ "//" ++ b) with (a ++ String "/"%char ("/" ++ b)).
    rewrite (segments_app_sep a ("/" ++ b)) by reflexivity.
    change ("/" ++ b) with (EmptyString ++ String "/"%char b).
    rewrite (segments_app_sep EmptyString b) by reflexivity.
    now rewrite (segments_app_sep a b).
  - reflexivity.
  - rewrite (segments_app_sep a EmptyString) by reflexivity.
    now rewrite app_nil_r.
  - now rewrite segments_stripLeading.
Qed.

(** ** Patches applied *)

Lemma forOf_app {A} (xs ys : list A) (body : A -> M unit) (w w1 : World) :
  forOf xs body w = (Ok tt, w1) ->
  forOf (xs ++ ys) body w = forOf ys body w1.
Proof.
  revert w; induction xs as [|x xs IH]; intros w; simpl.
  - now intros [= <-].
  - unfold bind. destruct (body x w) as [[[]|e|] w0]; try discriminate.
    apply IH.
Qed.

Lemma writeFileSync_file (p d d0 : string) (t : Fs.node) :
  Fs.readFileSync p t = Returns d0 ->
  exists t',
    Fs.writeFileSync p d t = (Returns tt, t') /\
    Fs.write (Path.names p) d t = inr t'.
Proof.
  intros Hread. destruct (readFileSync_names _ _ _ Hread) as [Hres Hget].
  destruct (write_over_file _ d _ _ Hget) as [t' Hw].
  exists t'. split; [|exact Hw].
  unfold Fs.writeFileSync, Fs.writeAt. now rewrite Hres, Hw.
Qed.

(** The run of a unit that has its names and applies, once the old file
    is read. *)
Lemma patchDirWithPatch_applied (host : Host) (this : Patcher.t)
    (patch : ParsedDiff) (old new : string) (w : World)
    (sourceData patched : string) :
  oldFileName patch = Some old -> newFileName patch = Some new ->
  Fs.readFileSync (Path.join (Patcher.dir this) old) (fs w)
    = Returns sourceData ->
  applyPatch host sourceData patch = Some patched ->
  Patcher.patchDirWithPatch host this patch w =
  ((if negb (String.eqb old new)
    then unlinkSync (Path.join (Patcher.dir this) old)
    else ret tt) ;;
   writeFileSync (Path.join (Patcher.dir this) new) patched) w.
Proof.
  intros Hold Hnew Hread Happly.
  unfold Patcher.patchDirWithPatch, Patcher.joinName, Patcher.differ.
  rewrite Hold, Hnew. unfold bind at 1. cbn [ret].
  unfold bind at 1, readFileSync, reading. rewrite Hread. cbn [called].
  rewrite Happly. unfold bind.
  destruct (negb (String.eqb old new)); cbn [ret]; reflexivity.
Qed.



(** X8: a patch unit that applies and renames its file removes the old
    file before it writes the new one.  When the write returns, the new
    path holds the patched text; when it throws (the directory of the new
    file is missing, say), the error is thrown with the old file gone and
    the patched text written nowhere. *)
Theorem rename_removes_before_writing (host : Host) (this : Patcher.t)
    (patch : ParsedDiff) (old new : string) (w : World)
    (sourceData patched : string) :
  let oldPath := Path.join (Patcher.dir this) old in
  let newPath := Path.join (Patcher.dir this) new in
  let removed := snd (Fs.unlinkSync oldPath (fs w)) in
  let out := Patcher.patchDirWithPatch host this patch w in
  oldFileName patch = Some old -> newFileName patch = Some new ->
  Fs.readFileSync oldPath (fs w) = Returns sourceData ->
  applyPatch host sourceData patch = Some patched ->
  old <> new ->
  Path.names oldPath <> [] ->
  Fs.existsSync oldPath removed = false /\
  (forall t',
     Fs.writeFileSync newPath patched removed = (Returns tt, t') ->
     out = (Ok tt, mkWorld t' (console w)) /\
     Fs.readFileSync newPath t' = Returns patched) /\
  (forall err t',
     Fs.writeFileSync newPath patched removed = (Throws err, t') ->
     out = (Throw err, mkWorld removed (console w))).
Proof.
  intros oldPath newPath removed out Hold Hnew Hread Happly Hne Hsegs.
  subst out.
  destruct (readFileSync_names _ _ _ Hread) as [Hres Hget].
  assert (Hunlink : Fs.unlinkSync oldPath (fs w) =
                    (Returns tt, Fs.del (Path.names oldPath) (fs w)))
    by (unfold Fs.unlinkSync; now rewrite Hres, Hget).
  assert (Hremoved : removed = Fs.del (Path.names oldPath) (fs w))
    by (unfold removed; now rewrite Hunlink).
  assert (Patcher.patchDirWithPatch host this patch w =
          writeFileSync newPath patched (mkWorld removed (console w))) as Hrun.
  { rewrite (patchDirWithPatch_applied host this patch old new w sourceData
               patched Hold Hnew Hread Happly).
    destruct (String.eqb_spec old new) as [E|_]; [contradiction|].
    unfold bind. cbn [negb]. fold oldPath newPath.
    unfold unlinkSync, writing. rewrite Hunlink. cbn [called].
    now rewrite Hremoved. }
  split; [|split].
  - destruct (exists_last Hsegs) as (q & s & Hq).
    unfold Fs.existsSync, Fs.find. rewrite Hremoved.
    destruct (Fs.resolve oldPath (Fs.del (Path.names oldPath) (fs w)))
      as [c|q'] eqn:E; [reflexivity|].
    apply resolve_names in E. subst q'. rewrite Hq in *.
    now rewrite (del_last_gone _ _ _ _ Hget).
  - intros t' Hw. rewrite Hrun. unfold writeFileSync, writing. cbn.
    rewrite Hw. split; [reflexivity|].
    exact (writeFileSync_read _ _ _ _ Hw).
  - intros err t' Hw. rewrite Hrun. unfold writeFileSync, writing. cbn.
    rewrite Hw. cbn. unfold Fs.writeFileSync in Hw.
    destruct (Fs.writeAt newPath patched removed); [|discriminate].
    now injection Hw as _ <-.
Qed.

Lemma rename_removes_before_writing_witness :
  let w := Sample.start Sample.installed in
  let removed := snd (Fs.unlinkSync "app/src/a.js" Sample.installed) in
  Fs.existsSync "app/src/a.js" Sample.installed = true /\
  Fs.existsSync "app/src/a.js" removed = false /\
  Patcher.patchDirWithPatch Sample.twoUnits Sample.themed Sample.moving w =
    (Throw (Js.sysError "ENOENT" "open" "app/lib/a.js"), mkWorld removed []) /\
  fst (Patcher.patchDirWithPatch Sample.host Sample.patcher Sample.goodHunks
         (Sample.start (Sample.extracted "x"))) = Ok tt.
Proof.
  intros w removed. split; [reflexivity|].
  destruct (rename_removes_before_writing Sample.twoUnits Sample.themed
              Sample.moving "src/a.js" "lib/a.js" w Sample.threeLines
              ("ONE" ++ Node.newline ++ "two" ++ Node.newline ++ "three")
              eq_refl eq_refl eq_refl eq_refl) as (H1 & _ & H3).
  - discriminate.
  - discriminate.
  - split; [exact H1|]. split; [|reflexivity].
    apply (H3 (Js.sysError "ENOENT" "open" "app/lib/a.js") removed).
    reflexivity.
Defined.

(** X10: nothing is rolled back.  When a unit of a diff does not apply,
    [patchDirWithFeature] throws in the world the units before it left,
    with their files patched, and the units after it are not applied;
    when a feature fails, [patchDir] throws in the world the features
    before it (and the failing one) left. *)
Theorem patching_is_not_rolled_back (host : Host) (this : Patcher.t) :
  (forall feature w text done bad old later w1 sourceData,
     Fs.readFileSync (diffPath host feature) (fs w) = Returns text ->
     parsePatch host text = Returns (done ++ bad :: later)%list ->
     forOf done (Patcher.patchDirWithPatch host this) w = (Ok tt, w1) ->
     oldFileName bad = Some old ->
     Fs.readFileSync (Path.join (Patcher.dir this) old) (fs w1)
       = Returns sourceData ->
     applyPatch host sourceData bad = None ->
     Patcher.patchDirWithFeature host this feature w =
     (Throw (Js.newError ("Can't patch " ++ old)), w1)) /\
  (forall w done bad later w1 w2 err,
     Patcher.features this = (done ++ bad :: later)%list ->
     forOf done (patchFeature host this) w = (Ok tt, w1) ->
     patchFeature host this bad w1 = (Throw err, w2) ->
     Patcher.patchDir host this w = (Throw err, w2)).
Proof.
  split.
  - intros feature w text done bad old later w1 sourceData Hread Hparse Hdone
      Hname Hold Happly.
    unfold Patcher.patchDirWithFeature, bind, readFileSync, reading.
    fold (diffPath host feature). rewrite Hread. cbn. rewrite Hparse. cbn.
    rewrite (forOf_app _ _ _ _ _ Hdone). simpl. unfold bind.
    unfold Patcher.patchDirWithPatch at 1.
    unfold Patcher.joinName, bind, readFileSync, reading.
    rewrite Hname. cbn. rewrite Hold. cbn. now rewrite Happly.
  - intros w done bad later w1 w2 err Hfeatures Hdone Hbad.
    unfold Patcher.patchDir. rewrite Hfeatures.
    change (fun feature : string =>
              if (feature =? "pro")%string
              then Patcher.patchDirWithPro host this
              else Patcher.patchDirWithFeature host this feature)
      with (patchFeature host this).
    rewrite (forOf_app _ _ _ _ _ Hdone). simpl. unfold bind. now rewrite Hbad.
Qed.

Lemma patching_is_not_rolled_back_witness :
  let w := Sample.start Sample.installed in
  let out := Patcher.patchDir Sample.twoUnits Sample.themed w in
  fst out = Throw (Js.newError "Can't patch src/c.js") /\
  Fs.readFileSync "app/src/a.js" (fs (snd out)) =
    Returns ("ONE" ++ Node.newline ++ "two" ++ Node.newline ++ "three") /\
  Fs.readFileSync "app/src/a.js" Sample.installed = Returns Sample.threeLines.
Proof.
  intros w out.
  pose proof (proj1 (patching_is_not_rolled_back Sample.twoUnits Sample.themed)
                "dark" w "diff" [Sample.firstUnit] Sample.secondUnit
                "src/c.js" []
                (snd (Patcher.patchDirWithPatch Sample.twoUnits Sample.themed
                        Sample.firstUnit w))
                Sample.threeLines eq_refl eq_refl eq_refl eq_refl eq_refl
                eq_refl)
    as Hunit.
  pose proof (proj2 (patching_is_not_rolled_back Sample.twoUnits Sample.themed)
                w [] "dark" ["pro"] w _ _ eq_refl eq_refl Hunit) as Hall.
  subst out. rewrite Hall. split; [reflexivity|]. split; reflexivity.
Defined.

(** X11: a feature other than [pro] is read from
    [<baseDir>/patches/<feature>.diff].  When that file cannot be read,
    or cannot be parsed, the error is thrown before anything is changed,
    by [patchDirWithFeature] and by [patchDir].  So is the [TypeError] of
    [path.join] when the first unit of the diff has no old file name, as
    the one unit of a text without the header lines of a file: nothing is
    read or changed for it, and the features after it are not reached. *)
Theorem unusable_diff_changes_nothing (host : Host) (this : Patcher.t)
    (feature : string) (rest : list string) (w : World) :
  let out := Patcher.patchDirWithFeature host this feature w in
  let all :=
    Patcher.patchDir host
      (Patcher.mk (Patcher.asar this) (Patcher.dir this) (feature :: rest)) w in
  feature <> "pro" ->
  (forall err,
     Fs.readFileSync (diffPath host feature) (fs w) = Throws err ->
     out = (Throw err, w) /\ all = (Throw err, w)) /\
  (forall text err,
     Fs.readFileSync (diffPath host feature) (fs w) = Returns text ->
     parsePatch host text = Throws err ->
     out = (Throw err, w) /\ all = (Throw err, w)) /\
  (forall text unit units,
     Fs.readFileSync (diffPath host feature) (fs w) = Returns text ->
     parsePatch host text = Returns (unit :: units) ->
     oldFileName unit = None ->
     out = (Throw Js.pathTypeError, w) /\
     all = (Throw Js.pathTypeError, w)).
Proof.
  intros out all Hne. subst out all.
  assert (forall e,
            Patcher.patchDirWithFeature host this feature w = (Throw e, w) ->
            Patcher.patchDirWithFeature host this feature w = (Throw e, w) /\
            Patcher.patchDir host
              (Patcher.mk (Patcher.asar this) (Patcher.dir this)
                 (feature :: rest)) w = (Throw e, w)) as Hboth.
  { intros e Hr. split; [exact Hr|]. unfold Patcher.patchDir.
    cbn [Patcher.features Patcher._features forOf].
    destruct (String.eqb_spec feature "pro") as [E|_]; [contradiction|].
    unfold bind.
    change (Patcher.patchDirWithFeature host
              (Patcher.mk (Patcher.asar this) (Patcher.dir this)
                 (feature :: rest)) feature w)
      with (Patcher.patchDirWithFeature host this feature w).
    now rewrite Hr. }
  split; [|split].
  - intros err Hread. apply Hboth.
    unfold Patcher.patchDirWithFeature, bind, readFileSync, reading.
    fold (diffPath host feature). now rewrite Hread.
  - intros text err Hread Hparse. apply Hboth.
    unfold Patcher.patchDirWithFeature, bind, readFileSync, reading.
    fold (diffPath host feature). rewrite Hread. cbn. now rewrite Hparse.
  - intros text unit units Hread Hparse Hname. apply Hboth.
    unfold Patcher.patchDirWithFeature, bind, readFileSync, reading.
    fold (diffPath host feature). rewrite Hread. cbn. rewrite Hparse. cbn.
    unfold bind, Patcher.patchDirWithPatch, Patcher.joinName.
    rewrite Hname. unfold bind. cbn. now destruct w.
Qed.

Lemma unusable_diff_changes_nothing_witness :
  let w := Sample.start Sample.installed in
  Patcher.patchDirWithFeature Sample.twoUnits Sample.themed "light" w =
    (Throw
       (Js.sysError "ENOENT" "open" "/opt/gitcracken/patches/light.diff"),
     w) /\
  Patcher.patchDir Sample.host (Patcher.mk "app.asar" "app" ["dark"; "pro"]) w
    = (Throw Js.pathTypeError, w).
Proof.
  intros w. split.
  - apply (proj1 (unusable_diff_changes_nothing Sample.twoUnits Sample.themed
                    "light" [] w ltac:(discriminate))). reflexivity.
  - destruct (proj2 (proj2 (unusable_diff_changes_nothing Sample.host
                              (Patcher.mk "app.asar" "app" []) "dark" ["pro"]
                              w ltac:(discriminate)))
                "diff" Sample.blank [] eq_refl eq_refl eq_refl)
      as [_ H].
    exact H.
Defined.

(** ** The pattern patch, run twice *)

Lemma patched_pattern_in_replacement (before group1 after : string) :
  Js.includes Patcher.patchedPattern
    (before ++ Patcher.replaceValue group1 ++ after) = true.
Proof.
  apply includes_spec.
  exists (before ++ "var json=" ++ group1 ++ ";" ++
          "(" ++ dquote ++ "licenseExpiresAt" ++ dquote ++ "in json||" ++
          dquote ++ "licensedFeatures" ++ dquote ++ "in json)&&").
  exists ("return json};" ++ after).
  unfold Patcher.replaceValue. now rewrite !append_assoc.
Qed.



(** ** Finding the archive *)

(** X16: without a directory in the options, [findAsar] only reads the
    file system, and an archive it finds exists, on every platform. *)
Theorem found_archive_exists (host : Host) (dir : option string) (w : World) :
  let out := Patcher.findAsar host dir w in
  Js.orElse dir None = None ->
  snd out = w /\
  forall p, fst out = Ok (Some p) -> Fs.existsSync p (fs w) = true.
Proof.
  intros out Hdir. subst out. unfold Patcher.findAsar. rewrite Hdir.
  assert (forall cs,
            snd (Patcher.findAsarUnix cs w) = w /\
            forall p, fst (Patcher.findAsarUnix cs w) = Ok (Some p) ->
                      Fs.existsSync p (fs w) = true) as Hunix.
  { intros cs. rewrite findAsarUnix_reads. cbn.
    split; [reflexivity|].
    intros p [= H]. now apply find_some in H. }
  destruct (CURRENT_PLATFORM host) as [[| |]|].
  - apply Hunix.
  - unfold Patcher.findAsarWindows, bind, existsSync, readdirSync, reading.
    cbn. destruct (Fs.existsSync _ (fs w)); cbn;
      [|split; [reflexivity|discriminate]].
    destruct (Fs.readdirSync _ (fs w)) as [items|e]; cbn;
      [|split; [reflexivity|discriminate]].
    destruct (natsortDesc host _) as [|app apps]; cbn;
      [split; [reflexivity|discriminate]|].
    destruct (Js.truthy app); cbn;
      [|split; [reflexivity|discriminate]].
    destruct (Fs.existsSync _ (fs w)) eqn:E; cbn;
      (split; [reflexivity|]).
    + now intros p [= <-].
    + discriminate.
  - apply Hunix.
  - cbn. split; [reflexivity|discriminate].
Qed.

Lemma found_archive_exists_witness :
  let tree :=
    Fs.Dir [("usr",
             Fs.Dir [("share",
                      Fs.Dir [("gitkraken",
                               Fs.Dir [("resources",
                                        Fs.Dir [("app.asar",
                                                 Fs.File "asar")])])])])] in
  Patcher.findAsar Sample.host None (Sample.start tree) =
    (Ok (Some "/usr/share/gitkraken/resources/app.asar"), Sample.start tree) /\
  Fs.existsSync "/usr/share/gitkraken/resources/app.asar" tree = true /\
  Patcher.findAsar Sample.host (Some "/x/app") (Sample.start tree) =
    (Ok (Some "/x/app.asar"), Sample.start tree) /\
  Fs.existsSync "/x/app.asar" tree = false.
Proof.
  intros tree. split; [reflexivity|]. split; [|split; reflexivity].
  exact (proj2 (found_archive_exists Sample.host None (Sample.start tree)
                  eq_refl) _ eq_refl).
Defined.

(** ** The names of the version directories *)

Lemma skipDigits_allDigits (a r : string) :
  allDigits a = true ->
  match r with
  | String c _ => Patcher.isDigit c = false
  | EmptyString => True
  end ->
  Patcher.digits (a ++ r) = Some r.
Proof.
  intros Ha Hr. destruct a as [|c a]; [discriminate|].
  revert c Ha; induction a as [|c' a IH]; intros c Ha.
  - simpl in *. rewrite Ha. destruct r as [|x r]; [reflexivity|].
    simpl. now rewrite Hr.
  - change (allDigits (String c (String c' a)))
      with (Patcher.isDigit c && allDigits (String c' a)) in Ha.
    apply andb_true_iff in Ha. destruct Ha as [Hc Ha].
    specialize (IH c' Ha). simpl in *. rewrite Hc.
    destruct (Patcher.isDigit c'); [|discriminate]. now injection IH as ->.
Qed.

Lemma digits_allDigits (s r : string) :
  Patcher.digits s = Some r ->
  exists a, allDigits a = true /\ s = a ++ r.
Proof.
  destruct s as [|c s]; [discriminate|]. simpl.
  destruct (Patcher.isDigit c) eqn:Hc; [|discriminate]. intros [= <-].
  revert c Hc; induction s as [|c' s IH]; intros c Hc.
  - exists (String c EmptyString). now split.
  - simpl. destruct (Patcher.isDigit c') eqn:Hc'.
    + destruct (IH c' Hc') as (a & Ha & Hs).
      exists (String c a). split.
      * destruct a as [|x a]; [discriminate|].
        change (Patcher.isDigit c && allDigits (String x a) = true).
        now rewrite Hc.
      * simpl. now rewrite <- Hs.
    + exists (String c EmptyString). now split.
Qed.

Lemma substring_all (s : string) : String.substring 0 (String.length s) s = s.
Proof. induction s as [|c s IH]; simpl; [reflexivity | now rewrite IH]. Qed.

Lemma afterDot_spec (s r : string) :
  Patcher.afterDot s = Some r <-> s = "." ++ r.
Proof.
  destruct s as [|c s]; simpl; [split; discriminate|].
  destruct c as [[] [] [] [] [] [] [] []]; simpl; split;
    try discriminate; try (intros [= ->]; reflexivity);
    intros [= <-]; reflexivity.
Qed.

(** X18: the version directories of the Windows search are the names
    [app-<major>.<minor>.<patch>] with one or more decimal digits in each
    place, and no others. *)
Theorem isAppDir_regex (item : string) :
  Patcher.isAppDir item = true <->
  exists major minor patch,
    allDigits major = true /\ allDigits minor = true /\
    allDigits patch = true /\
    item = "app-" ++ major ++ "." ++ minor ++ "." ++ patch.
Proof.
  unfold Patcher.isAppDir. split.
  - intros H. apply andb_true_iff in H. destruct H as [Hstart H].
    apply startsWith_spec in Hstart. destruct Hstart as [rest ->].
    change (String.substring 4 (String.length ("app-" ++ rest) - 4)
              ("app-" ++ rest))
      with (String.substring 0 (String.length rest - 0) rest) in H.
    rewrite Nat.sub_0_r, substring_all in H.
    destruct (Patcher.digits rest) as [r1|] eqn:E1; [|discriminate].
    destruct (Patcher.afterDot r1) as [r2|] eqn:E2; [|discriminate].
    destruct (Patcher.digits r2) as [r3|] eqn:E3; [|discriminate].
    destruct (Patcher.afterDot r3) as [r4|] eqn:E4; [|discriminate].
    destruct (Patcher.digits r4) as [[|]|] eqn:E5; try discriminate.
    apply digits_allDigits in E1, E3, E5.
    apply afterDot_spec in E2, E4.
    destruct E1 as (a & Ha & ->), E3 as (b & Hb & ->), E5 as (c & Hc & ->).
    subst r1 r3. exists a, b, c. repeat split; try assumption.
    now rewrite append_empty_r.
  - intros (a & b & c & Ha & Hb & Hc & ->).
    change (String.substring 4
              (String.length ("app-" ++ a ++ "." ++ b ++ "." ++ c) - 4)
              ("app-" ++ a ++ "." ++ b ++ "." ++ c))
      with (String.substring 0
              (String.length (a ++ "." ++ b ++ "." ++ c) - 0)
              (a ++ "." ++ b ++ "." ++ c)).
    rewrite Nat.sub_0_r, substring_all.
    change (Js.startsWith "app-" ("app-" ++ a ++ "." ++ b ++ "." ++ c))
      with true.
    cbn [andb].
    rewrite (skipDigits_allDigits a _ Ha) by reflexivity.
    cbn [Patcher.afterDot append].
    rewrite (skipDigits_allDigits b _ Hb) by reflexivity.
    cbn [Patcher.afterDot append].
    rewrite <- (append_empty_r c).
    now rewrite (skipDigits_allDigits c _ Hc).
Qed.

(** X17: on Windows the search looks at one directory only, the first
    of the version directories in descending natural order: the result
    is its archive when that exists and [undefined] when it does not,
    whatever older versions hold.  This is for a sort that returns
    entries of its argument. *)
Theorem windows_search_takes_newest_only (host : Host) (w : World)
    (items : list string) (newest : string) (older : list string) :
  Fs.existsSync (gitkrakenLocal host) (fs w) = true ->
  Fs.readdirSync (gitkrakenLocal host) (fs w) = Returns items ->
  natsortDesc host (filter Patcher.isAppDir items) = newest :: older ->
  (forall l x, In x (natsortDesc host l) -> In x l) ->
  In newest items /\ Patcher.isAppDir newest = true /\
  Patcher.findAsarWindows host w =
    (Ok (if Fs.existsSync (appAsar host newest) (fs w)
         then Some (appAsar host newest) else None), w).
Proof.
  intros Hlocal Hitems Hsort Hperm.
  assert (In newest (filter Patcher.isAppDir items)) as Hin.
  { apply Hperm. rewrite Hsort. now left. }
  apply filter_In in Hin. destruct Hin as [Hin Happ].
  split; [exact Hin|]. split; [exact Happ|].
  unfold Patcher.findAsarWindows, bind, existsSync, readdirSync, reading.
  fold (gitkrakenLocal host). rewrite Hlocal. cbn. rewrite Hitems. cbn.
  rewrite Hsort.
  assert (Js.truthy newest = true) as ->.
  { unfold Patcher.isAppDir in Happ. apply andb_true_iff in Happ.
    destruct Happ as [Hstart _]. now destruct newest. }
  cbn. fold (appAsar host newest). now destruct (Fs.existsSync _ _).
Qed.

Lemma windows_search_takes_newest_only_witness :
  let w := Sample.start Sample.windowsDisk in
  Patcher.findAsarWindows Sample.windowsHost w = (Ok None, w) /\
  Fs.existsSync (appAsar Sample.windowsHost "app-9.0.0") (fs w) = true.
Proof.
  intros w. split; [|reflexivity].
  destruct (windows_search_takes_newest_only Sample.windowsHost w
              ["app-9.0.0"; "app-10.0.0"; "packages"] "app-10.0.0"
              ["app-9.0.0"] eq_refl eq_refl eq_refl) as (_ & _ & H).
  - intros l x Hx. now apply in_rev.
  - exact H.
Defined.

(** ** What a manual pass leaves *)

Lemma mkdirp_denied (q : list string) (c : string) (t : Fs.node) :
  kindAt q t = KDenied c -> exists c', Fs.mkdirp q t = inl c'.
Proof.
  intros H. apply blocked_mkdirp_fails. exists q.
  split; [apply above_refl | right; now exists c].
Qed.

Section Outcome.

Variable asar : Codec.
Variables asarFile destDir : string.
Variable header : AsarNode.
Variable t0 : Fs.node.
Variable names : list string.
Hypothesis Hfile :
  forall name t t',
    isUnpacked (getAsarEntryInfo header name) = false ->
    extractFile asar asarFile name t = extractFile asar asarFile name t'.
Hypothesis Hlisted : Forall (listed header) names.
Hypothesis Hunique :
  forall f g, In f names -> In g names -> partsOf f = partsOf g ->
    Path.stripLeading f = Path.stripLeading g.

(** The directory entry, case by case. *)
Lemma directory_entry_cases (f : string) (w w' : World) :
  listed header f ->
  isDir (getAsarEntryInfo header (Path.stripLeading f)) = true ->
  extractEntry asar asarFile destDir header f w = (Ok tt, w') ->
  ((kindAt (destOf destDir f) (fs w) = KDir \/
    exists d, kindAt (destOf destDir f) (fs w) = KFile d) /\
   fs w' = fs w) \/
  (vacant (kindAt (destOf destDir f) (fs w)) /\
   Fs.mkdirp (destOf destDir f) (fs w) = inr (fs w')).
Proof.
  intros Hl Hd.
  pose proof (destOf_straight destDir f (listed_tidy header f Hl)) as Hs.
  rewrite (extractEntry_dir asar asarFile destDir header f w Hd).
  destruct (Fs.existsSync _ (fs w)) eqn:E.
  - intros [= <-]. left. split; [now apply existsSync_kind | reflexivity].
  - rewrite (ensureDirSync_names _ _ (straight_truthy _ Hs)).
    fold (destOf destDir f).
    destruct (Fs.mkdirp (destOf destDir f) (fs w)) as [c|t'] eqn:Hm;
      [discriminate|].
    intros [= <-]. simpl. right. split; [|reflexivity].
    rewrite (existsSync_straight _ _ Hs) in E. unfold kindAt, destOf.
    destruct (Fs.get _ (fs w)) as [[d|es|c]|]; try discriminate.
    + right. now exists c.
    + now left.
Qed.

(** The file entry, case by case. *)
Lemma file_entry_cases (f : string) (w w' : World) :
  listed header f ->
  isDir (getAsarEntryInfo header (Path.stripLeading f)) = false ->
  extractEntry asar asarFile destDir header f w = (Ok tt, w') ->
  let name := Path.stripLeading f in
  let dest := destOf destDir f in
  let t1 := cleared (Path.join destDir name) (fs w) in
  ((exists d, kindAt dest (fs w) = KFile d) /\ fs w' = fs w) \/
  ((forall d, kindAt dest (fs w) <> KFile d) /\
   ((isUnpacked (getAsarEntryInfo header name) = true /\ fs w' = t1) \/
    (isUnpacked (getAsarEntryInfo header name) = false /\
     ((noBuffer (extractFile asar asarFile name t1) /\ fs w' = t1) \/
      (exists b,
         extractFile asar asarFile name t1 = Returns (Js.VBuffer b) /\
         ((exists c, Fs.mkdirp (removelast dest) t1 = inl c /\ fs w' = t1) \/
          (exists t2,
             Fs.mkdirp (removelast dest) t1 = inr t2 /\
             ((exists c, Fs.write dest b t2 = inl c /\ fs w' = t2) \/
              Fs.write dest b t2 = inr (fs w'))))))))).
Proof.
  intros Hl Hd Hrun. cbv zeta.
  pose proof (destOf_straight destDir f (listed_tidy header f Hl)) as Hs.
  rewrite (extractEntry_file asar asarFile destDir header f w Hd) in Hrun.
  rewrite (alreadyThere_straight _ w Hs) in Hrun.
  unfold cleared, kindAt. fold (destOf destDir f) in *.
  set (dest := destOf destDir f) in *.
  destruct (Fs.get dest (fs w)) as [[d|es|c]|] eqn:E.
  { injection Hrun as <-. left. split; [|reflexivity]. now exists d. }
  all: right; split; [intros d'; discriminate|].
  1: destruct (Fs.rm (Fs.Dir es)) as [[[c rel] rest]|]; [discriminate|].
  all: set (w1 := mkWorld _ _) in Hrun || set (w1 := w) in Hrun.
  all: destruct (isUnpacked (getAsarEntryInfo header (Path.stripLeading f)));
         [injection Hrun as <-; left; split; reflexivity|].
  all: right; split; [reflexivity|].
  all: rewrite (extractRegular_straight asar asarFile _ _ w1 Hs) in Hrun.
  all: rewrite (dirname_destOf destDir header f Hl) in Hrun.
  all: fold (destOf destDir f) in Hrun; fold dest in Hrun.
  all: subst w1; cbn [fs console] in Hrun.
  all: match type of Hrun with
       | context [extractFile asar asarFile ?n ?t] =>
           destruct (extractFile asar asarFile n t) as [[|b|]|e] eqn:Hx
       end.
  all: try (injection Hrun as <-; left; split;
            [intros b'; discriminate | reflexivity]).
  all: right; exists b; split; [reflexivity|].
  all: match type of Hrun with
       | context [Fs.mkdirp ?q ?t] =>
           destruct (Fs.mkdirp q t) as [c0|t2] eqn:Hm
       end.
  all: try (injection Hrun as <-; left; exists c0; split; reflexivity).
  all: right; exists t2; split; [reflexivity|].
  all: destruct (Fs.write dest b t2) as [c1|t3] eqn:Hw;
         injection Hrun as <-; simpl;
         [left; exists c1; split; reflexivity | now right].
Qed.

Lemma above_dec (p q : list string) : above p q \/ ~ above p q.
Proof.
  revert q; induction p as [|a p IH]; intros q.
  - left. apply above_nil.
  - destruct q as [|b q]; [right; intros [r H]; discriminate|].
    destruct (String.eqb_spec a b) as [->|Hne].
    + destruct (IH q) as [H|H]; [left | right].
      * now apply above_cons.
      * intros H'. apply H. now apply above_cons in H'.
    + right. intros [r H]. injection H as H _. now destruct Hne.
Qed.

Lemma not_above_parent (p q : list string) :
  q <> [] -> above q p -> ~ above p (removelast q).
Proof.
  intros Hq [x ->] [y Hy]. destruct (exists_last Hq) as (q0 & s & ->).
  rewrite removelast_last in Hy.
  apply (f_equal (@List.length string)) in Hy.
  rewrite !length_app in Hy. simpl in Hy. lia.
Qed.

(** What clearing the destination of a file entry does elsewhere. *)
Lemma cleared_frame (dest : string) (p : list string) (t : Fs.node) :
  Path.names dest <> [] ->
  kindAt p (cleared dest t) = kindAt p t \/
  (kindAt (Path.names dest) t = KDir /\ above (Path.names dest) p /\
   kindAt p (cleared dest t) = KNone).
Proof.
  intros Hne. unfold cleared, kindAt.
  destruct (Fs.get (Path.names dest) t) as [[d|es|c]|] eqn:E;
    try (now left).
  destruct (above_dec (Path.names dest) p) as [H|H].
  - right. split; [reflexivity|]. split; [exact H|].
    now apply (kind_del (Path.names dest) p t Hne).
  - left. now apply (kind_del (Path.names dest) p t Hne).
Qed.

(** What the run of an entry does away from its destination: nothing,
    or a directory on the way to it, or the removal of what was below a
    directory standing in the place of a file. *)
Lemma step_frame (f : string) (w w' : World) (p : list string) :
  listed header f ->
  extractEntry asar asarFile destDir header f w = (Ok tt, w') ->
  p <> destOf destDir f ->
  kindAt p (fs w') = kindAt p (fs w) \/
  (kindAt p (fs w) = KNone /\ kindAt p (fs w') = KDir /\
   above p (destOf destDir f)) \/
  (isDir (getAsarEntryInfo header (Path.stripLeading f)) = false /\
   kindAt (destOf destDir f) (fs w) = KDir /\
   above (destOf destDir f) p /\ kindAt p (fs w') = KNone).
Proof.
  intros Hl Hrun Hp.
  destruct (isDir (getAsarEntryInfo header (Path.stripLeading f))) eqn:Hd.
  - destruct (directory_entry_cases f w w' Hl Hd Hrun) as [[_ ->]|[_ Hm]];
      [now left|].
    destruct (kind_mkdirp _ p _ _ Hm) as [H|H]; [now left | now right; left].
  - pose proof (destOf_not_nil destDir header f Hl) as Hne.
    pose proof (cleared_frame (Path.join destDir (Path.stripLeading f)) p
                  (fs w) Hne) as Hc.
    fold (destOf destDir f) in Hc.
    assert (forall t2,
              Fs.mkdirp (removelast (destOf destDir f))
                (cleared (Path.join destDir (Path.stripLeading f)) (fs w))
                = inr t2 ->
              kindAt p t2 = kindAt p (fs w) \/
              (kindAt p (fs w) = KNone /\ kindAt p t2 = KDir /\
               above p (destOf destDir f)) \/
              (false = false /\
               kindAt (destOf destDir f) (fs w) = KDir /\
               above (destOf destDir f) p /\ kindAt p t2 = KNone)) as Hmk.
    { intros t2 Hm.
      destruct (kind_mkdirp _ p _ _ Hm) as [H|(H1 & H2 & H3)].
      - rewrite H. destruct Hc as [->|(H1 & H2 & H3)]; [now left|].
        right. right. now repeat split.
      - destruct Hc as [Hc|(H4 & H5 & H6)].
        + right. left. rewrite <- Hc. repeat split; try assumption.
          exact (above_trans _ _ _ H3 (above_removelast _)).
        + now destruct (not_above_parent _ _ Hne H5). }
    destruct (file_entry_cases f w w' Hl Hd Hrun)
      as [[_ ->]|[_ [[_ ->]|[_ [[_ ->]|(b & _ & Hmade)]]]]].
    + now left.
    + destruct Hc as [H|H]; [now left | right; right; now split].
    + destruct Hc as [H|H]; [now left | right; right; now split].
    + destruct Hmade as [(c & _ & ->)|(t2 & Hm & Hw)].
      * destruct Hc as [H|H]; [now left | right; right; now split].
      * destruct Hw as [(c & _ & ->)|Hw]; [now apply Hmk|].
        destruct (kind_write _ _ p _ _ Hw) as [[-> _]|[_ ->]];
          [now destruct Hp | now apply Hmk].
Qed.

Lemma not_above_own_parent (q : list string) :
  q <> [] -> ~ above q (removelast q).
Proof.
  intros Hq. apply not_above_parent; [exact Hq | apply above_refl].
Qed.

Lemma kindAt_parent_dir (q : list string) (t : Fs.node) :
  kindAt q t = KDir -> kindAt (removelast q) t = KDir.
Proof. apply kindAt_above_dir, above_removelast. Qed.

(** What stands at the destination once it has been cleared. *)
Lemma cleared_at (dest : string) (t : Fs.node) :
  Path.names dest <> [] ->
  kindAt (Path.names dest) (cleared dest t) =
  match kindAt (Path.names dest) t with
  | KDir => KNone
  | k => k
  end.
Proof.
  intros Hne. unfold cleared, kindAt.
  destruct (Fs.get (Path.names dest) t) as [[d|es|c]|] eqn:E;
    try (now rewrite E).
  apply (kind_del (Path.names dest) (Path.names dest) t Hne).
  apply above_refl.
Qed.

Lemma cleared_parent (dest : string) (t : Fs.node) :
  Path.names dest <> [] ->
  kindAt (removelast (Path.names dest)) (cleared dest t) =
  kindAt (removelast (Path.names dest)) t.
Proof.
  intros Hne. unfold cleared.
  destruct (Fs.get (Path.names dest) t) as [[d|es|c]|] eqn:E;
    try reflexivity.
  apply (kind_del (Path.names dest) _ t Hne).
  now apply not_above_own_parent.
Qed.

Lemma cleared_same (dest : string) (t : Fs.node) :
  kindAt (Path.names dest) t <> KDir -> cleared dest t = t.
Proof.
  unfold cleared, kindAt.
  destruct (Fs.get (Path.names dest) t) as [[d|es|c]|]; try reflexivity.
  now intros H.
Qed.

Lemma mkdirp_parent_keeps (q : list string) (t t2 : Fs.node) :
  q <> [] -> Fs.mkdirp (removelast q) t = inr t2 ->
  kindAt q t2 = kindAt q t.
Proof.
  intros Hq Hm. destruct (kind_mkdirp _ q _ _ Hm) as [H|(_ & _ & H)];
    [exact H | now destruct (not_above_own_parent q Hq)].
Qed.

Lemma sameObstacles_blocked (t : Fs.node) (g : string) :
  sameObstacles destDir t0 t g ->
  (blocked (removelast (destOf destDir g)) t <->
   blocked (removelast (destOf destDir g)) t0).
Proof.
  intros H. split; intros (r & Hr & Ho); exists r; (split; [exact Hr|]);
    now apply (H r Hr).
Qed.

Lemma mkdirp_fails_iff (t : Fs.node) (g : string) :
  sameObstacles destDir t0 t g ->
  ((exists c, Fs.mkdirp (removelast (destOf destDir g)) t = inl c) <->
   (exists c, Fs.mkdirp (removelast (destOf destDir g)) t0 = inl c)).
Proof.
  intros H. pose proof (sameObstacles_blocked t g H) as Hb.
  split; intros [c Hc]; apply blocked_mkdirp_fails, Hb;
    exact (mkdirp_fails_blocked _ _ _ Hc).
Qed.

(** The run of a directory entry that is on course brings it to its
    outcome. *)
Lemma step_outcome_dir (f : string) (w w' : World) :
  listed header f ->
  isDir (getAsarEntryInfo header (Path.stripLeading f)) = true ->
  extractEntry asar asarFile destDir header f w = (Ok tt, w') ->
  onCourse asar asarFile destDir header t0 (fs w) f ->
  kindAt (destOf destDir f) (fs w')
    = outcome asar asarFile destDir header t0 f.
Proof.
  intros Hl Hd Hrun Hon. unfold onCourse, awaiting, outcome in *.
  cbv zeta in *. rewrite Hd in *.
  destruct (directory_entry_cases f w w' Hl Hd Hrun) as [[Hk ->]|[Hv Hm]].
  - destruct Hon as [H|[H|(_ & H1 & H2)]]; [exact H | |].
    + rewrite <- H.
      destruct Hk as [Hk|[d Hk]]; rewrite Hk; reflexivity.
    + now rewrite H1, H2.
  - rewrite (kind_mkdirp_target _ _ _ Hm).
    assert (forall c, kindAt (destOf destDir f) (fs w) <> KDenied c) as Hnd.
    { intros c Hc. destruct (mkdirp_denied _ _ _ Hc) as [c' Hc']. congruence. }
    destruct Hon as [H|[H|(_ & H1 & H2)]].
    + destruct (kindAt (destOf destDir f) t0) as [ | d | | c ]; try reflexivity.
      * rewrite H in Hv. destruct Hv as [Hv|[c Hv]]; discriminate.
      * now destruct (Hnd c).
    + rewrite <- H.
      destruct Hv as [Hv|[c Hv]]; [now rewrite Hv | now destruct (Hnd c)].
    + rewrite H2 in Hv. destruct Hv as [Hv|[c Hv]]; discriminate.
Qed.

Lemma outcome_open (f : string) :
  isDir (getAsarEntryInfo header (Path.stripLeading f)) = false ->
  kindAt (destOf destDir f) t0 = KNone \/
  kindAt (destOf destDir f) t0 = KDir ->
  outcome asar asarFile destDir header t0 f =
  if isUnpacked (getAsarEntryInfo header (Path.stripLeading f)) then KNone
  else
    match extractFile asar asarFile (Path.stripLeading f) t0,
          Fs.mkdirp (removelast (destOf destDir f)) t0 with
    | Returns (Js.VBuffer bytes), inr _ => KFile bytes
    | _, _ => KNone
    end.
Proof.
  intros Hd Hk. unfold outcome. cbv zeta. rewrite Hd.
  now destruct Hk as [-> | ->].
Qed.

(** The run of a file entry that is on course brings it to its outcome. *)
Lemma step_outcome_file (f : string) (w w' : World) :
  listed header f ->
  isDir (getAsarEntryInfo header (Path.stripLeading f)) = false ->
  extractEntry asar asarFile destDir header f w = (Ok tt, w') ->
  onCourse asar asarFile destDir header t0 (fs w) f ->
  sameObstacles destDir t0 (fs w) f ->
  kindAt (destOf destDir f) (fs w')
    = outcome asar asarFile destDir header t0 f.
Proof.
  intros Hl Hd Hrun Hon Hobs.
  pose proof (destOf_not_nil destDir header f Hl) as Hne.
  assert (kindAt (destOf destDir f) (fs w)
            = outcome asar asarFile destDir header t0 f \/
          kindAt (destOf destDir f) (fs w) = kindAt (destOf destDir f) t0)
    as Hon'.
  { destruct Hon as [H|[H|(H & _)]]; [now left | now right | congruence]. }
  clear Hon.
  pose proof (cleared_at (Path.join destDir (Path.stripLeading f)) (fs w) Hne)
    as Hat1.
  pose proof (cleared_parent (Path.join destDir (Path.stripLeading f)) (fs w)
                Hne) as Hpar1.
  pose proof (cleared_same (Path.join destDir (Path.stripLeading f)) (fs w))
    as Hsame1.
  pose proof (file_entry_cases f w w' Hl Hd Hrun) as Hcases.
  cbv zeta in Hcases.
  fold (destOf destDir f) in Hat1, Hpar1, Hsame1.
  set (dest := destOf destDir f) in *.
  set (name := Path.stripLeading f) in *.
  set (t1 := cleared (Path.join destDir name) (fs w)) in *.
  set (O := outcome asar asarFile destDir header t0 f) in *.
  assert (forall t2, Fs.mkdirp (removelast dest) t1 = inr t2 ->
            kindAt dest t2 = kindAt dest t1) as Hkeep
    by (intros t2; now apply mkdirp_parent_keeps).
  assert (forall t2 b c,
            Fs.mkdirp (removelast dest) t1 = inr t2 ->
            Fs.write dest b t2 = inl c ->
            exists c', kindAt dest t1 = KDenied c') as Hwfail.
  { intros t2 b c Hm Hw. rewrite <- (Hkeep t2 Hm).
    pose proof (kind_mkdirp_target _ _ _ Hm) as Hp.
    destruct (exists_last Hne) as (q & x & Hq). rewrite Hq in *.
    rewrite removelast_last in *.
    destruct (write_fails_under_dir _ _ _ _ _ Hw Hp) as [H|H]; [|exact H].
    rewrite (Hkeep t2 Hm), Hat1 in H.
    destruct (kindAt (q ++ [x]) (fs w)); discriminate. }
  assert (forall t2 b t3,
            Fs.mkdirp (removelast dest) t1 = inr t2 ->
            Fs.write dest b t2 = inr t3 ->
            kindAt dest t3 = KFile b /\
            (kindAt dest t1 = KNone \/ exists d, kindAt dest t1 = KFile d))
    as Hwok.
  { intros t2 b t3 Hm Hw. split.
    - unfold kindAt. now rewrite (write_get _ _ _ _ Hw).
    - rewrite <- (Hkeep t2 Hm). exact (write_target _ _ _ _ Hw). }
  destruct (kindAt dest t0) as [ | d0 | | c0 ] eqn:E0.
  4: { (* an unreadable entry at the start *)
    assert (O = KDenied c0) as HO by (unfold O, outcome; cbv zeta;
      fold dest; now rewrite E0).
    assert (kindAt dest (fs w) = KDenied c0) as Hk
      by (destruct Hon' as [H|H]; congruence).
    rewrite HO. rewrite Hk in Hat1. rewrite Hsame1 in * by congruence.
    destruct Hcases as [[[d H] _]|[_ H]]; [congruence|].
    destruct H as [[_ ->]|[_ [[_ ->]|(b & _ & [(c & _ & ->)|(t2 & Hm & H)])]]];
      try exact Hk.
    destruct H as [(c & _ & ->)|Hw].
    - rewrite (Hkeep t2 Hm). exact Hk.
    - destruct (Hwok t2 b (fs w') Hm Hw) as [_ [H|[d H]]]; congruence. }
  2: { (* a file at the start *)
    assert (O = KFile d0) as HO by (unfold O, outcome; cbv zeta;
      fold dest; now rewrite E0).
    assert (kindAt dest (fs w) = KFile d0) as Hk
      by (destruct Hon' as [H|H]; congruence).
    rewrite HO.
    destruct Hcases as [[_ ->]|[H _]]; [exact Hk | now destruct (H d0)]. }
  all: assert (O =
    if isUnpacked (getAsarEntryInfo header name) then KNone
    else
      match extractFile asar asarFile name t0,
            Fs.mkdirp (removelast dest) t0 with
      | Returns (Js.VBuffer bytes), inr _ => KFile bytes
      | _, _ => KNone
      end) as HO
    by (apply outcome_open; [exact Hd | fold dest; rewrite E0; auto]).
  all: assert (O <> KDir) as HOnd
    by (rewrite HO; destruct (isUnpacked _); [discriminate|];
        destruct (extractFile asar asarFile name t0) as [[ | b | ]|e];
        try discriminate;
        destruct (Fs.mkdirp (removelast dest) t0); discriminate).
  all: assert (forall c, Fs.mkdirp (removelast dest) t1 = inl c ->
                 exists c', Fs.mkdirp (removelast dest) t0 = inl c') as Hfail
    by (intros c Hm;
        destruct (kindAt dest (fs w)) as [ | d | | c1 ] eqn:Ek;
        try (rewrite Hsame1 in Hm by discriminate;
             apply (mkdirp_fails_iff (fs w) f Hobs); now exists c);
        rewrite (mkdirp_there_kind (removelast dest) t1) in Hm;
        [discriminate | rewrite Hpar1; now apply kindAt_parent_dir]).
  all: assert (forall t2, Fs.mkdirp (removelast dest) t1 = inr t2 ->
                 exists t2', Fs.mkdirp (removelast dest) t0 = inr t2')
    as Hsucc
    by (intros t2 Hm;
        destruct (Fs.mkdirp (removelast dest) t0) as [c'|t2'] eqn:Em0;
        [|now exists t2'];
        exfalso;
        destruct (kindAt dest (fs w)) as [ | d | | c1 ] eqn:Ek;
        try (rewrite Hsame1 in Hm by discriminate;
             destruct (proj2 (mkdirp_fails_iff (fs w) f Hobs)) as [c2 Hc2];
             [now exists c' | fold dest in Hc2; congruence]);
        destruct Hon' as [H|H]; [congruence|];
        rewrite (mkdirp_there_kind (removelast dest) t0) in Em0;
        [discriminate | apply kindAt_parent_dir; congruence]).
  all: destruct Hcases as [[[d Hk] ->]|[Hnf Hcases]].
  all: try (destruct Hon' as [H|H]; [now rewrite <- H | congruence]).
  all: assert (kindAt dest t1 = KNone) as Hv.
  all: try (rewrite Hat1;
            destruct (kindAt dest (fs w)) as [ | d | | c ] eqn:Ek;
            try reflexivity; [now destruct (Hnf d)|];
            destruct Hon' as [H|H]; [|discriminate];
            rewrite HO in H;
            destruct (isUnpacked _); [discriminate|];
            destruct (extractFile asar asarFile name t0) as [[ | b | ]|e];
            try discriminate;
            destruct (Fs.mkdirp (removelast dest) t0); discriminate).
  all: destruct Hcases as [[Hu ->]|[Hu Hcases]];
         [now rewrite HO, Hu, Hv|].
  all: rewrite HO, Hu.
  all: rewrite <- (Hfile name t1 t0 Hu).
  all: destruct Hcases as [[Hnb ->]|(b & Hb & Hcases)].
  all: try (rewrite Hv;
            destruct (extractFile asar asarFile name t1) as [[ | b | ]|e];
            try reflexivity; now destruct (Hnb b)).
  all: rewrite Hb.
  all: destruct Hcases as [(c & Hm & ->)|(t2 & Hm & Hcases)].
  all: try (destruct Hcases as [(c & Hw & ->)|Hw];
            [destruct (Hwfail t2 b c Hm Hw) as [c' H]; congruence|]).
  all: try (rewrite (proj1 (Hwok t2 b (fs w') Hm Hw));
            destruct (Hsucc t2 Hm) as [t2' ->]; reflexivity).
  all: rewrite Hv; destruct (Hfail c Hm) as [c' ->]; reflexivity.
Qed.

Lemma listed_name (g : string) : In g names -> listed header g.
Proof. intros H. rewrite Forall_forall in Hlisted. now apply Hlisted. Qed.

(** An entry strictly above a listed one is a directory entry. *)
Lemma strictly_above_isDir (f g : string) (x : list string) :
  In f names -> In g names ->
  destOf destDir g = (destOf destDir f ++ x)%list -> x <> [] ->
  isDir (getAsarEntryInfo header (Path.stripLeading f)) = true.
Proof.
  intros Hf Hg Hx Hne. apply (listed_below_isDir header g f x);
    [now apply listed_name | | exact Hne].
  apply (above_dest_parts destDir header); try assumption;
    now apply listed_name.
Qed.

Lemma above_parent_isDir (f g : string) :
  In f names -> In g names ->
  above (destOf destDir f) (removelast (destOf destDir g)) ->
  isDir (getAsarEntryInfo header (Path.stripLeading f)) = true.
Proof.
  intros Hf Hg Ha.
  destruct (above_removelast_strict _ _
              (destOf_not_nil destDir header g (listed_name g Hg)) Ha)
    as (x & Hx & Hne).
  exact (strictly_above_isDir f g x Hf Hg Hx Hne).
Qed.

Lemma above_other_isDir (f g : string) :
  In f names -> In g names -> destOf destDir g <> destOf destDir f ->
  above (destOf destDir f) (destOf destDir g) ->
  isDir (getAsarEntryInfo header (Path.stripLeading f)) = true.
Proof.
  intros Hf Hg Hne [x Hx]. apply (strictly_above_isDir f g x Hf Hg Hx).
  intros ->. rewrite app_nil_r in Hx. contradiction.
Qed.

Lemma outcome_same (f g : string) :
  Path.stripLeading f = Path.stripLeading g ->
  outcome asar asarFile destDir header t0 f
    = outcome asar asarFile destDir header t0 g.
Proof. unfold outcome, destOf. now intros ->. Qed.

Lemma same_dest_outcome (f g : string) :
  In f names -> In g names -> destOf destDir g = destOf destDir f ->
  outcome asar asarFile destDir header t0 g
    = outcome asar asarFile destDir header t0 f.
Proof.
  intros Hf Hg E. apply outcome_same, Hunique; try assumption.
  rewrite !destOf_parts in E
    by (apply (listed_tidy header); now apply listed_name).
  now apply app_inv_head in E.
Qed.

Lemma outcome_dir_not_none (g : string) :
  isDir (getAsarEntryInfo header (Path.stripLeading g)) = true ->
  outcome asar asarFile destDir header t0 g <> KNone.
Proof.
  intros Hd. unfold outcome. cbv zeta. rewrite Hd.
  destruct (kindAt (destOf destDir g) t0); discriminate.
Qed.

(** The run of a listed entry that is on course, seen from another. *)
Lemma step_outcome (f : string) (w w' : World) :
  listed header f ->
  extractEntry asar asarFile destDir header f w = (Ok tt, w') ->
  onCourse asar asarFile destDir header t0 (fs w) f ->
  (isDir (getAsarEntryInfo header (Path.stripLeading f)) = false ->
   sameObstacles destDir t0 (fs w) f) ->
  kindAt (destOf destDir f) (fs w')
    = outcome asar asarFile destDir header t0 f.
Proof.
  intros Hl Hrun Hon Hobs.
  destruct (isDir (getAsarEntryInfo header (Path.stripLeading f))) eqn:Hd.
  - now apply (step_outcome_dir f w).
  - apply (step_outcome_file f w); auto.
Qed.

Lemma step_elsewhere (f g : string) (w w' : World) :
  In f names -> In g names ->
  extractEntry asar asarFile destDir header f w = (Ok tt, w') ->
  destOf destDir g <> destOf destDir f ->
  kindAt (destOf destDir g) (fs w') = kindAt (destOf destDir g) (fs w) \/
  (isDir (getAsarEntryInfo header (Path.stripLeading g)) = true /\
   kindAt (destOf destDir g) (fs w) = KNone /\
   kindAt (destOf destDir g) (fs w') = KDir).
Proof.
  intros Hf Hg Hrun Hne.
  destruct (step_frame f w w' (destOf destDir g) (listed_name f Hf) Hrun Hne)
    as [H|[(H1 & H2 & H3)|(H1 & _ & H3 & _)]].
  - now left.
  - right. repeat split; try assumption.
    apply (above_other_isDir g f Hg Hf); [congruence | exact H3].
  - rewrite (above_other_isDir f g Hf Hg Hne H3) in H1. discriminate.
Qed.

Lemma step_keeps_outcome (f g : string) (w w' : World) :
  In f names -> In g names ->
  extractEntry asar asarFile destDir header f w = (Ok tt, w') ->
  onCourse asar asarFile destDir header t0 (fs w) f ->
  (isDir (getAsarEntryInfo header (Path.stripLeading f)) = false ->
   sameObstacles destDir t0 (fs w) f) ->
  kindAt (destOf destDir g) (fs w)
    = outcome asar asarFile destDir header t0 g ->
  kindAt (destOf destDir g) (fs w')
    = outcome asar asarFile destDir header t0 g.
Proof.
  intros Hf Hg Hrun Hon Hobs Hk.
  destruct (list_eq_dec string_dec (destOf destDir g) (destOf destDir f))
    as [E|Hne].
  - rewrite (same_dest_outcome f g Hf Hg E), E.
    apply (step_outcome f w); auto using listed_name.
  - destruct (step_elsewhere f g w w' Hf Hg Hrun Hne) as [->|(H1 & H2 & _)];
      [exact Hk|].
    rewrite H2 in Hk. symmetry in Hk.
    now destruct (outcome_dir_not_none g H1).
Qed.

Lemma step_keeps_course (f g : string) (w w' : World) :
  In f names -> In g names ->
  extractEntry asar asarFile destDir header f w = (Ok tt, w') ->
  onCourse asar asarFile destDir header t0 (fs w) f ->
  (isDir (getAsarEntryInfo header (Path.stripLeading f)) = false ->
   sameObstacles destDir t0 (fs w) f) ->
  onCourse asar asarFile destDir header t0 (fs w) g ->
  onCourse asar asarFile destDir header t0 (fs w') g.
Proof.
  intros Hf Hg Hrun Hon Hobs [Hk|Hk].
  - left. now apply (step_keeps_outcome f g w).
  - destruct (list_eq_dec string_dec (destOf destDir g) (destOf destDir f))
      as [E|Hne].
    + left. rewrite (same_dest_outcome f g Hf Hg E), E.
      apply (step_outcome f w); auto using listed_name.
    + right. unfold awaiting in *.
      destruct (step_elsewhere f g w w' Hf Hg Hrun Hne)
        as [->|(H1 & H2 & H3)]; [exact Hk|].
      right. repeat split; try assumption.
      destruct Hk as [Hk|(_ & _ & Hk)]; congruence.
Qed.

Lemma step_keeps_obstacles (f g : string) (w w' : World) :
  In f names -> In g names ->
  extractEntry asar asarFile destDir header f w = (Ok tt, w') ->
  sameObstacles destDir t0 (fs w) g ->
  sameObstacles destDir t0 (fs w') g.
Proof.
  intros Hf Hg Hrun Hobs r Hr. rewrite <- (Hobs r Hr).
  assert (forall k, k = KNone \/ k = KDir -> ~ obstacle k) as Hfree.
  { intros k [-> | ->] [[d H]|[c H]]; discriminate. }
  destruct (list_eq_dec string_dec r (destOf destDir f)) as [->|Hne].
  - pose proof (above_parent_isDir f g Hf Hg Hr) as Hd.
    destruct (directory_entry_cases f w w' (listed_name f Hf) Hd Hrun)
      as [[_ ->]|[Hv Hm]];
      [reflexivity|].
    rewrite (kind_mkdirp_target _ _ _ Hm).
    destruct Hv as [Hv|[c Hv]].
    + rewrite Hv. split; intros H; exfalso; revert H; apply Hfree; auto.
    + destruct (mkdirp_denied _ _ _ Hv) as [c' Hc']. congruence.
  - destruct (step_frame f w w' r (listed_name f Hf) Hrun Hne)
      as [->|[(H1 & H2 & _)|(H1 & _ & H3 & _)]]; [reflexivity| |].
    + rewrite H1, H2. split; intros H; exfalso; revert H; apply Hfree; auto.
    + rewrite (above_parent_isDir f g Hf Hg (above_trans _ _ _ H3 Hr)) in H1.
      discriminate.
Qed.

(** A pass that returns brings every entry it runs to its outcome, and
    leaves there the entries that were. *)
Lemma pass_outcome (rest done : list string) (w w' : World) :
  incl rest names -> incl done names ->
  (forall g, In g names ->
     onCourse asar asarFile destDir header t0 (fs w) g) ->
  (forall g, In g names -> sameObstacles destDir t0 (fs w) g) ->
  (forall g, In g done ->
     kindAt (destOf destDir g) (fs w)
       = outcome asar asarFile destDir header t0 g) ->
  forOf rest (extractEntry asar asarFile destDir header) w = (Ok tt, w') ->
  forall g, In g (done ++ rest) ->
    kindAt (destOf destDir g) (fs w')
      = outcome asar asarFile destDir header t0 g.
Proof.
  revert done w; induction rest as [|f rest IH];
    intros done w Hrest Hdone Hon Hobs Hout.
  - intros [= <-] g. rewrite app_nil_r. apply Hout.
  - intros Hrun. apply forOf_returns in Hrun as (w1 & Hf & Hloop).
    assert (In f names) as Hfn by (apply Hrest; now left).
    intros g Hg.
    replace (done ++ f :: rest)%list with ((done ++ [f]) ++ rest)%list in Hg
      by now rewrite <- app_assoc.
    revert g Hg. apply (IH (done ++ [f])%list w1); try assumption.
    + intros g Hg. apply Hrest. now right.
    + intros g Hg. apply in_app_or in Hg. destruct Hg as [Hg|[<-|[]]];
        [now apply Hdone | exact Hfn].
    + intros g Hg. apply (step_keeps_course f g w); auto.
    + intros g Hg. apply (step_keeps_obstacles f g w); auto.
    + intros g Hg. apply in_app_or in Hg. destruct Hg as [Hg|[<-|[]]].
      * apply (step_keeps_outcome f g w); auto.
      * apply (step_outcome f w); auto using listed_name.
Qed.

End Outcome.



(** ** What is written on the console *)

(** What the run of one entry writes, whatever it returns. *)
Lemma entry_reports (asar : Codec) (asarFile destDir : string)
    (header : AsarNode) (f : string) (w : World) :
  exists lines,
    console (snd (extractEntry asar asarFile destDir header f w))
      = (console w ++ lines)%list /\
    reports (Path.stripLeading f) lines.
Proof.
  assert (forall w' : World, console w' = console w ->
            exists lines,
              console w' = (console w ++ lines)%list /\
              reports (Path.stripLeading f) lines) as Hsilent.
  { intros w' ->. exists []. split; [now rewrite app_nil_r | now left]. }
  unfold extractEntry. cbv zeta.
  destruct (isDir _).
  - apply Hsilent. unfold bind, existsSync, reading, ensureDirSync, writing.
    cbn. destruct (Fs.existsSync _ (fs w)); cbn; [reflexivity|].
    destruct (Fs.ensureDirSync _ (fs w)) as [[u|e] t']; reflexivity.
  - unfold bind at 1.
    pose proof (alreadyThere_silent
                  (Path.join destDir (Path.stripLeading f)) w) as Hc.
    destruct (alreadyThere (Path.join destDir (Path.stripLeading f)) w)
      as [[[|]|e|] [t' c']]; cbn in Hc; subst c';
      try (apply Hsilent; reflexivity).
    destruct (isUnpacked _).
    + exists [skippingMissing (Path.stripLeading f)].
      split; [reflexivity | right; now left].
    + unfold try_catch, extractRegular, bind, reading. cbn.
      destruct (extractFile asar asarFile _ t') as [[ | bytes | ]|e]; cbn;
        try (apply Hsilent; reflexivity).
      * unfold ensureDirSync, writeFileSync, writing. cbn.
        destruct (Fs.ensureDirSync _ t') as [[u|e] t2]; cbn.
        -- destruct (Fs.writeFileSync _ _ t2) as [[u'|e] t3]; cbn;
             [apply Hsilent; reflexivity|].
           eexists. split; [reflexivity | right; right; now exists e].
        -- eexists. split; [reflexivity | right; right; now exists e].
      * eexists. split; [reflexivity | right; right; now exists e].
Qed.

(** What the loop writes: the reports of the entries it ran, in turn. *)
Lemma pass_reports (asar : Codec) (asarFile destDir : string)
    (header : AsarNode) (names : list string) (w : World) :
  let out := forOf names (extractEntry asar asarFile destDir header) w in
  exists ran rest ls,
    names = (ran ++ rest)%list /\
    Forall2 (fun f lines => reports (Path.stripLeading f) lines) ran ls /\
    console (snd out) = (console w ++ concat ls)%list /\
    (fst out = Ok tt -> rest = []).
Proof.
  revert w; induction names as [|f names IH]; intros w.
  - exists [], [], []. cbn. rewrite app_nil_r. repeat split; constructor.
  - cbn. unfold bind.
    destruct (entry_reports asar asarFile destDir header f w)
      as (lines & Hc & Hr).
    destruct (extractEntry asar asarFile destDir header f w)
      as [[[]|e|] w1] eqn:E; cbn in Hc.
    + destruct (IH w1) as (ran & rest & ls & -> & Hall & Hc' & Hok).
      exists (f :: ran), rest, (lines :: ls). cbn.
      split; [reflexivity|]. split; [now constructor|]. split; [|exact Hok].
      rewrite Hc', Hc. now rewrite <- app_assoc.
    + exists [f], names, [lines]. cbn. rewrite app_nil_r.
      split; [reflexivity|].
      split; [apply Forall2_cons; [exact Hr | apply Forall2_nil]|].
      split; [exact Hc | discriminate].
    + exists [f], names, [lines]. cbn. rewrite app_nil_r.
      split; [reflexivity|].
      split; [apply Forall2_cons; [exact Hr | apply Forall2_nil]|].
      split; [exact Hc | discriminate].
Qed.

(** X19: the console of a manual extraction: for each entry it ran, in
    the order of the listing, nothing or one warning, which is "Skipping
    missing unpacked file" or "Failed to extract" with the name of the
    entry; no other line is written, and a pass that returns ran every
    entry. *)
Theorem manual_pass_warns_once_per_entry (asar : Codec)
    (asarFile destDir unpackedDir : string) (names : list string)
    (header : AsarNode) (w : World) :
  let out := extractAsarManually asar asarFile destDir unpackedDir w in
  listPackage asar asarFile (fs w) = Returns names ->
  readArchiveHeaderSync asar asarFile (fs w) = Returns header ->
  exists ran rest ls,
    names = (ran ++ rest)%list /\
    Forall2 (fun f lines => reports (Path.stripLeading f) lines) ran ls /\
    console (snd out) = (console w ++ concat ls)%list /\
    (fst out = Ok tt -> rest = []).
Proof.
  intros out Hlist Hhead. subst out.
  unfold extractAsarManually, getAsarHeader, bind, reading.
  rewrite Hlist. cbn. rewrite Hhead. cbn.
  apply pass_reports.
Qed.

Lemma manual_pass_warns_once_per_entry_witness :
  let out :=
    extractAsarManually (Reference.codec Sample.app) "app.asar" "out"
      "app.asar.unpacked" (Sample.start Sample.blocked) in
  fst out = Ok tt /\
  console (snd out) =
    ["Warning: Skipping missing unpacked file: addon.node";
     "Warning: Failed to extract main.js: " ++
     "EEXIST: file already exists, mkdir 'out'"] /\
  exists ran rest ls,
    ["/addon.node"; "/main.js"] = (ran ++ rest)%list /\
    Forall2 (fun f lines => reports (Path.stripLeading f) lines) ran ls /\
    console (snd out) = concat ls /\
    (fst out = Ok tt -> rest = []).
Proof.
  intros out. split; [reflexivity|]. split; [reflexivity|].
  exact (manual_pass_warns_once_per_entry (Reference.codec Sample.app)
           "app.asar" "out" "app.asar.unpacked" ["/addon.node"; "/main.js"]
           (Reference.header Sample.app) (Sample.start Sample.blocked)
           eq_refl eq_refl).
Defined.

(** ** What the copy writes *)

Lemma writesOnly_silent {A} (P : string -> Prop) (m : M A) :
  (forall w, console (snd (m w)) = console w) -> writesOnly P m.
Proof.
  intros H w. exists []. rewrite H, app_nil_r. split; [reflexivity|constructor].
Qed.

Lemma writesOnly_bind {A B} (P : string -> Prop) (m : M A) (k : A -> M B) :
  writesOnly P m -> (forall a, writesOnly P (k a)) -> writesOnly P (bind m k).
Proof.
  intros Hm Hk w. unfold bind. destruct (Hm w) as (l1 & H1 & F1).
  destruct (m w) as [[a|e|] w1]; cbn in *; try (now exists l1).
  destruct (Hk a w1) as (l2 & H2 & F2). exists (l1 ++ l2)%list.
  rewrite H2, H1, <- app_assoc. split; [reflexivity | now apply Forall_app].
Qed.

Lemma writesOnly_try {A} (P : string -> Prop) (m : M A)
    (h : Js.Error -> M A) :
  writesOnly P m -> (forall e, writesOnly P (h e)) ->
  writesOnly P (try_catch m h).
Proof.
  intros Hm Hh w. unfold try_catch. destruct (Hm w) as (l1 & H1 & F1).
  destruct (m w) as [[a|e|] w1]; cbn in *; try (now exists l1).
  destruct (Hh e w1) as (l2 & H2 & F2). exists (l1 ++ l2)%list.
  rewrite H2, H1, <- app_assoc. split; [reflexivity | now apply Forall_app].
Qed.

Lemma writesOnly_forOf {A} (P : string -> Prop) (xs : list A)
    (body : A -> M unit) :
  (forall x, writesOnly P (body x)) -> writesOnly P (forOf xs body).
Proof.
  intros Hb. induction xs as [|x xs IH]; cbn.
  - now apply writesOnly_silent.
  - apply writesOnly_bind; [apply Hb | intros _; exact IH].
Qed.

Lemma writesOnly_writing {A} (P : string -> Prop)
    (f : Fs.node -> Returned A * Fs.node) :
  writesOnly P (writing f).
Proof.
  apply writesOnly_silent. intros w. unfold writing.
  now destruct (f (fs w)).
Qed.

Lemma inaccessibleBelow_join (srcDir item line : string) :
  inaccessibleBelow (Path.join srcDir item) line ->
  inaccessibleBelow srcDir line.
Proof. intros (i & items & ->). now exists item, (i :: items). Qed.

Lemma writesOnly_weaken {A} (P Q : string -> Prop) (m : M A) :
  (forall line, P line -> Q line) -> writesOnly P m -> writesOnly Q m.
Proof.
  intros H Hm w. destruct (Hm w) as (l & Hl & F). exists l.
  split; [exact Hl|]. rewrite Forall_forall in *. auto.
Qed.

Lemma copy_reports (fuel : nat) (srcDir destDir : string) :
  writesOnly (inaccessibleBelow srcDir) (copyUnpackedFiles fuel srcDir destDir).
Proof.
  revert srcDir destDir; induction fuel as [|fuel IH]; intros srcDir destDir.
  - now apply writesOnly_silent.
  - cbn. apply writesOnly_bind; [now apply writesOnly_silent|].
    intros found. destruct found; cbn; [|now apply writesOnly_silent].
    apply writesOnly_bind; [now apply writesOnly_silent|]. intros items.
    apply writesOnly_forOf. intros item. apply writesOnly_try.
    + unfold copyItem. apply writesOnly_bind; [now apply writesOnly_silent|].
      intros stat. destruct (Fs.isDirectory stat).
      * apply writesOnly_bind; [apply writesOnly_writing|]. intros _.
        apply (writesOnly_weaken (inaccessibleBelow (Path.join srcDir item)));
          [apply inaccessibleBelow_join | apply IH].
      * apply writesOnly_bind; intros; apply writesOnly_writing.
    + intros e. destruct (inaccessible e); [|now apply writesOnly_silent].
      intros w. exists [skippingInaccessible (Path.join srcDir item)].
      split; [reflexivity|]. repeat constructor. now exists item, [].
Qed.


(** ** Extracting again *)

Lemma inaccessible_sysError (c syscall p : string) :
  inaccessible (Js.sysError c syscall p) = stepsOver c.
Proof. reflexivity. Qed.

(** Writing to a file the bytes it holds changes nothing. *)
Lemma write_same (q : list string) (d : string) (t : Fs.node) :
  Fs.get q t = Some (Fs.File d) -> Fs.write q d t = inr t.
Proof.
  revert t; induction q as [|s q IH]; intros t; simpl.
  - now intros [= ->].
  - destruct t as [|es|]; try discriminate.
    destruct (Fs.alookup s es) as [c|] eqn:E; [|discriminate].
    intros H. rewrite (IH _ H). now rewrite (ainsert_same _ _ _ E).
Qed.

Lemma mirrors_dir (es ds : list (string * Fs.node)) :
  mirrors (Fs.Dir es) (Some (Fs.Dir ds)) =
  forallb (fun kc =>
             Path.isName (fst kc) &&
             mirrors (snd kc) (Fs.alookup (fst kc) ds)) es.
Proof. reflexivity. Qed.

Lemma mirrors_entry (es ds : list (string * Fs.node)) (n : string)
    (ch : Fs.node) :
  mirrors (Fs.Dir es) (Some (Fs.Dir ds)) = true -> In (n, ch) es ->
  Path.isName n = true /\ mirrors ch (Fs.alookup n ds) = true.
Proof.
  rewrite mirrors_dir, forallb_forall. intros H Hin.
  specialize (H _ Hin). now apply andb_true_iff in H.
Qed.

Lemma depth_entry (es : list (string * Fs.node)) (n : string) (ch : Fs.node)
    (k : nat) :
  depth (Fs.Dir es) <= S k -> In (n, ch) es -> depth ch <= k.
Proof.
  induction es as [|[m c] es IH]; [easy|].
  intros Hd. apply depth_cons in Hd. destruct Hd as [Hc Hes].
  intros [[= -> ->]|Hin]; [exact Hc | now apply IH].
Qed.

(** A tree that already holds what the directory of unpacked files has:
    the copy steps through it, writes its warnings and changes nothing. *)
Lemma copy_again (fuel : nat) :
  forall srcDir destDir es ds t c,
    Fs.find srcDir t = inr (Fs.Dir es) ->
    Fs.find destDir t = inr (Fs.Dir ds) ->
    depth (Fs.Dir es) <= fuel ->
    mirrors (Fs.Dir es) (Some (Fs.Dir ds)) = true ->
    exists lines,
      copyUnpackedFiles fuel srcDir destDir (mkWorld t c)
        = (Ok tt, mkWorld t (c ++ lines)).
Proof.
  induction fuel as [|fuel IH]; intros srcDir destDir es ds t c Hsrc Hdest
    Hdepth Hmirror.
  - simpl in Hdepth. lia.
  - destruct (find_names _ _ _ Hsrc) as [Gsrc _].
    destruct (find_names _ _ _ Hdest) as [Gdest _].
    rewrite (copyUnpackedFiles_loop fuel srcDir destDir (map fst es));
      [| unfold Fs.existsSync; cbn [fs]; now rewrite Hsrc
       | unfold Fs.readdirSync; cbn [fs]; now rewrite Hsrc].
    assert (Hitems : forall n, In n (map fst es) ->
                       exists ch, In (n, ch) es /\
                                  Fs.alookup n es = Some ch).
    { intros n Hn. destruct (Fs.alookup n es) as [ch|] eqn:E.
      - exists ch. split; [now apply alookup_In | reflexivity].
      - now destruct (alookup_None _ _ E). }
    revert c. generalize dependent (map fst es).
    induction l as [|n items IHl]; intros Hitems c.
    + exists []. now rewrite app_nil_r.
    + destruct (Hitems n (or_introl eq_refl)) as (ch & Hin & Hlook).
      destruct (mirrors_entry _ _ _ _ Hmirror Hin) as [Hn Hch].
      pose proof (depth_entry _ _ _ _ Hdepth Hin) as Hdch.
      pose proof (join_name_straight srcDir n Hn) as Ss.
      pose proof (join_name_straight destDir n Hn) as Sd.
      assert (Gs : Fs.get (Path.names (Path.join srcDir n)) t = Some ch)
        by now rewrite (join_name _ _ Hn), get_snoc, Gsrc.
      assert (Gd : Fs.get (Path.names (Path.join destDir n)) t
                   = Fs.alookup n ds)
        by now rewrite (join_name _ _ Hn), get_snoc, Gdest.
      assert (Hrest : forall c', exists lines,
                copyItems (copyUnpackedFiles fuel) srcDir destDir items
                  (mkWorld t c') = (Ok tt, mkWorld t (c' ++ lines)))
        by (intros c'; apply IHl; intros m Hm; apply Hitems; now right).
      destruct ch as [d|es'|code].
      * (* a file that is there with its bytes *)
        destruct (Fs.alookup n ds) as [[d'|ds'|code']|] eqn:El;
          try discriminate.
        simpl in Hch. apply String.eqb_eq in Hch. subst d'.
        destruct (Hrest c) as [lines Hl]. exists lines.
        rewrite (copyItems_returned _ _ _ _ _ _ (mkWorld t c)); [exact Hl|].
        unfold copyItem, bind.
        rewrite (statSync_file _ d (mkWorld t c) Ss Gs).
        cbn [Fs.isDirectory].
        rewrite (ensureDirSync_ok _ t (mkWorld t c));
          [| apply dirname_truthy
           | cbn [fs]; rewrite (dirname_join_name _ _ Hn);
             now apply (mkdirp_there _ _ ds)].
        apply (copyFileSync_ok _ _ d t (mkWorld t c) Ss Sd Gs).
        cbn [fs]. apply write_same. now rewrite Gd.
      * (* a directory that is there *)
        destruct (Fs.alookup n ds) as [[d'|ds'|code']|] eqn:El;
          try discriminate.
        destruct (IH (Path.join srcDir n) (Path.join destDir n) es' ds' t c)
          as [lines1 Hcopy]; try assumption.
        { pose proof (find_straight _ t Ss) as H. now rewrite Gs in H. }
        { pose proof (find_straight _ t Sd) as H. now rewrite Gd in H. }
        destruct (Hrest (c ++ lines1)%list) as [lines Hl].
        exists (lines1 ++ lines)%list. rewrite app_assoc.
        rewrite (copyItems_returned _ _ _ _ _ _ (mkWorld t (c ++ lines1)));
          [exact Hl|].
        unfold copyItem, bind.
        rewrite (statSync_dir _ es' (mkWorld t c) Ss Gs).
        cbn [Fs.isDirectory].
        rewrite (ensureDirSync_ok _ t (mkWorld t c));
          [| now apply straight_truthy
           | cbn [fs]; apply (mkdirp_there _ _ ds'); now rewrite Gd].
        exact Hcopy.
      * (* an entry the copy steps over *)
        simpl in Hch.
        destruct (Hrest (c ++ [skippingInaccessible (Path.join srcDir n)])%list)
          as [lines Hl].
        exists (skippingInaccessible (Path.join srcDir n) :: lines).
        rewrite (copyItems_caught _ _ _ _ _ _ (mkWorld t c)
                   (Js.sysError code "stat" (Path.join srcDir n))).
        -- rewrite inaccessible_sysError, Hch. cbn [fs console].
           rewrite Hl. now rewrite <- app_assoc.
        -- unfold copyItem, bind, statSync, reading.
           pose proof (statSync_straight _ t Ss) as H. rewrite Gs in H.
           cbn [fs]. now rewrite H.
Qed.

Section Again.

Variable asar : Codec.
Variables asarFile destDir : string.
Hypothesis Hsteady : steady asar asarFile.
Hypothesis Hfaithful : faithful asar asarFile.
Hypothesis Hrepeat : repeatable asar asarFile destDir.
Hypothesis Hundisturbed : undisturbed asar asarFile destDir.

(** The bulk extraction fails after a manual pass as it failed before
    it. *)
Lemma pass_undisturbed (names ran rest : list string) (header : AsarNode)
    (w w' : World) (err : Js.Error) :
  names = (ran ++ rest)%list ->
  (forall t, listPackage asar asarFile t = Returns names) ->
  (forall t, readArchiveHeaderSync asar asarFile t = Returns header) ->
  missingUnpacked err = true ->
  extractAll asar asarFile destDir (fs w) = (Throws err, fs w) ->
  forOf rest (extractEntry asar asarFile destDir header) w = (Ok tt, w') ->
  extractAll asar asarFile destDir (fs w') = (Throws err, fs w').
Proof.
  intros Hnames Hlist Hhead Herr. revert ran w Hnames.
  induction rest as [|f rest IH]; intros ran w Hnames Hbulk.
  - now intros [= <-].
  - intros Hrun. apply forOf_returns in Hrun as (w1 & Hf & Hloop).
    apply (IH (ran ++ [f])%list w1); try assumption.
    + now rewrite <- app_assoc.
    + apply (Hundisturbed names header f w w1 err); try assumption;
        try apply Hlist; try apply Hhead.
      rewrite Hnames. apply in_or_app. right. now left.
Qed.

(** The second run once its copy has left the tree as it was. *)
Lemma again_after_copy (fuel : nat) (w0 w1 : World) (c : list string) :
  extractAsarWithUnpacked asar fuel asarFile destDir w0 = (Ok tt, w1) ->
  exists lines,
    try_catch (writing (extractAll asar asarFile destDir))
      (fun err =>
         if missingUnpacked err then
           warn fallbackWarning ;;
           extractAsarManually asar asarFile destDir (asarFile ++ ".unpacked")
         else throw err) (mkWorld (fs w1) c)
    = (Ok tt, mkWorld (fs w1) (c ++ lines)).
Proof.
  intros Hfirst. unfold extractAsarWithUnpacked in Hfirst.
  unfold bind at 1 in Hfirst.
  destruct (existsSync (asarFile ++ ".unpacked") w0) as [[found| |] wa];
    try discriminate.
  unfold bind at 1 in Hfirst.
  destruct ((if found
             then copyUnpackedFiles fuel (asarFile ++ ".unpacked") destDir
             else ret tt) wa) as [[[]| |] wp]; try discriminate.
  unfold try_catch, writing in *.
  destruct (extractAll asar asarFile destDir (fs wp)) as [[[]|err] tb]
    eqn:Hbulk; cbn [called] in Hfirst.
  - injection Hfirst as <-. cbn [fs].
    rewrite (Hrepeat _ _ _ Hbulk). exists []. now rewrite app_nil_r.
  - destruct (missingUnpacked err) eqn:Herr; [|discriminate].
    unfold bind at 1, warn in Hfirst.
    pose proof (Hrepeat _ _ _ Hbulk) as Hbulk'.
    destruct (manual_pass_settles asar asarFile destDir _ _ _ Hsteady
                Hfaithful Hfirst (fs w1))
      as (names & header & Hlist & Hhead & Hlisted & Hsettled).
    destruct Hsteady as (Slist & Shead & Sfile).
    assert (Hloop : forOf names (extractEntry asar asarFile destDir header)
                      (mkWorld tb (console wp ++ [fallbackWarning]))
                    = (Ok tt, w1)).
    { unfold extractAsarManually, getAsarHeader, bind, reading in Hfirst.
      cbn [fs] in Hfirst.
      rewrite (Slist tb (fs w1)), Hlist in Hfirst. cbn [called] in Hfirst.
      rewrite (Shead tb (fs w1)), Hhead in Hfirst. exact Hfirst. }
    assert (Hagain : extractAll asar asarFile destDir (fs w1)
                     = (Throws err, fs w1)).
    { apply (pass_undisturbed names [] names header
               (mkWorld tb (console wp ++ [fallbackWarning])) w1 err);
        try assumption; try reflexivity.
      - intros t. now rewrite (Slist t (fs w1)).
      - intros t. now rewrite (Shead t (fs w1)). }
    cbn [fs]. rewrite Hagain. cbn [called]. rewrite Herr.
    unfold bind at 1, warn.
    unfold extractAsarManually, getAsarHeader, bind, reading. cbn [fs].
    rewrite Hlist. cbn [called]. rewrite Hhead. cbn [called].
    destruct (settled_entries_again asar asarFile destDir header names
                (mkWorld (fs w1) (c ++ [fallbackWarning])) Hlisted Hsettled)
      as (w' & Hpass & Hw').
    destruct (pass_reports asar asarFile destDir header names
                (mkWorld (fs w1) (c ++ [fallbackWarning])))
      as (ran & rest & ls & _ & _ & Hc & _).
    rewrite Hpass in Hc. cbn [snd console] in Hc.
    exists (fallbackWarning :: concat ls). cbn [fs console]. rewrite Hpass.
    destruct w' as [t' c']. cbn in Hw', Hc. subst t' c'.
    now rewrite <- app_assoc.
Qed.

End Again.


(** *** The reference library on the archive [app] *)

Lemma through_kind (o o' : option Fs.node) :
  kind o' = kind o -> Fs.through o' = Fs.through o.
Proof.
  destruct o as [[d|es|c]|], o' as [[d'|es'|c']|]; simpl; congruence.
Qed.

(** Two trees with the same kinds on the way resolve names alike. *)
Lemma resolveFrom_kinds (t t' : Fs.node) (ns cur : list string) :
  Forall (fun n => Path.isName n = true) ns ->
  (forall r, above r (cur ++ ns) -> kindAt r t' = kindAt r t) ->
  Fs.resolveFrom t' cur ns = Fs.resolveFrom t cur ns.
Proof.
  intros Hns. revert cur; induction Hns as [|n ns Hn _ IH]; intros cur Hk;
    [reflexivity|].
  cbn [Fs.resolveFrom].
  rewrite (through_kind (Fs.get cur t) (Fs.get cur t'))
    by (apply (Hk cur), above_app).
  destruct (Fs.through (Fs.get cur t)); [reflexivity|].
  rewrite (enter_name _ _ _ Hn). apply IH. intros r Hr. apply Hk.
  now rewrite <- app_assoc in Hr.
Qed.

(** And give the same result to a read. *)
Lemma readFileSync_kinds (p : string) (t t' : Fs.node) :
  straight p ->
  (forall r, above r (Path.names p) -> kindAt r t' = kindAt r t) ->
  Fs.readFileSync p t' = Fs.readFileSync p t.
Proof.
  intros Hs Hk. unfold Fs.readFileSync, Fs.find.
  rewrite !(resolve_straight p _ Hs).
  rewrite (resolveFrom_kinds t t' (Path.names p) [] (names_isName p) Hk).
  destruct (Fs.resolveFrom t [] (Path.names p)) as [c|q] eqn:E;
    [reflexivity|].
  pose proof (resolveFrom_enter _ _ _ _ E) as Hq.
  rewrite (enter_names _ _ _ (names_isName p)) in Hq. simpl in Hq. subst q.
  specialize (Hk (Path.names p) (above_refl _)). unfold kindAt in Hk.
  destruct (Fs.get (Path.names p) t) as [[d|es|c]|],
           (Fs.get (Path.names p) t') as [[d'|es'|c']|];
    simpl in Hk; congruence.
Qed.

Lemma above_two (r : list string) (a b : string) :
  above r [a; b] -> r = [] \/ r = [a] \/ r = [a; b].
Proof.
  intros [x H]. destruct r as [|r1 [|r2 [|r3 r]]]; auto.
  - injection H as -> _. auto.
  - injection H as -> -> _. auto.
  - discriminate.
Qed.

Lemma straight_addon : straight "app.asar.unpacked/addon.node".
Proof.
  split; [discriminate|]. exists []. split; [reflexivity | constructor].
Qed.

(** The bulk extraction of [app] into [out], step by step. *)
Lemma app_bulk (t : Fs.node) :
  extractAll (Reference.codec Sample.app) "app.asar" "out" t =
  match Fs.mkdirp ["out"] t with
  | inl c => (Throws (Js.sysError c "mkdir" "out"), t)
  | inr t1 =>
      match Fs.readFileSync "app.asar.unpacked/addon.node" t1 with
      | Throws e => (Throws e, t1)
      | Returns d =>
          match Fs.write ["out"; "addon.node"] d t1 with
          | inl c => (Throws (Js.sysError c "open" "out/addon.node"), t1)
          | inr t2 =>
              match Fs.write ["out"; "main.js"] "console.log(1)" t2 with
              | inl c => (Throws (Js.sysError c "open" "out/main.js"), t2)
              | inr t3 => (Returns tt, t3)
              end
          end
      end
  end.
Proof.
  assert (S1 : straight "out/addon.node")
    by (split; [discriminate|]; exists []; split;
        [reflexivity | constructor]).
  assert (S2 : straight "out/main.js")
    by (split; [discriminate|]; exists []; split;
        [reflexivity | constructor]).
  unfold extractAll, Reference.codec, Reference.extractAllM.
  change (Reference.listFiles "/" (Reference.header Sample.app))
    with ["/addon.node"; "/main.js"].
  unfold bind at 1, ensureDirSync, writing.
  rewrite (ensureDirSync_names "out") by discriminate.
  change (Path.names "out") with ["out"]. cbn [fs].
  destruct (Fs.mkdirp ["out"] t) as [c|t1]; [reflexivity|].
  cbn [called forOf]. unfold bind at 1.
  change (Path.stripLeading "/addon.node") with "addon.node".
  change (isDir (getAsarEntryInfo (Reference.header Sample.app) "addon.node"))
    with false.
  cbv iota. unfold bind at 1, reading. cbn [fs].
  change (Reference.readFile Sample.app "app.asar" "addon.node" t1)
    with (match Fs.readFileSync "app.asar.unpacked/addon.node" t1 with
          | Returns d => Returns (Js.VBuffer d)
          | Throws e => Throws e
          end).
  destruct (Fs.readFileSync "app.asar.unpacked/addon.node" t1) as [d|e];
    [|reflexivity].
  cbn [called]. unfold writeFileSync at 1, writing. cbn [fs].
  change (Path.join "out" "addon.node") with "out/addon.node".
  rewrite (writeFileSync_straight _ _ _ S1).
  change (Path.names "out/addon.node") with ["out"; "addon.node"].
  destruct (Fs.write ["out"; "addon.node"] d t1) as [c|t2]; [reflexivity|].
  cbn [called]. unfold bind at 1.
  change (Path.stripLeading "/main.js") with "main.js".
  change (isDir (getAsarEntryInfo (Reference.header Sample.app) "main.js"))
    with false.
  cbv iota. unfold bind at 1, reading. cbn [fs].
  change (Reference.readFile Sample.app "app.asar" "main.js" t2)
    with (Returns (Js.VBuffer "console.log(1)")).
  cbn [called]. unfold writeFileSync at 1, writing. cbn [fs].
  change (Path.join "out" "main.js") with "out/main.js".
  rewrite (writeFileSync_straight _ _ _ S2).
  change (Path.names "out/main.js") with ["out"; "main.js"].
  now destruct (Fs.write ["out"; "main.js"] "console.log(1)" t2).
Qed.

(** A read of the module kept outside the archive, after a write below
    [out]. *)
Lemma addon_read_after_write (n b : string) (t t' : Fs.node) :
  Fs.write ["out"; n] b t = inr t' ->
  Fs.readFileSync "app.asar.unpacked/addon.node" t' =
  Fs.readFileSync "app.asar.unpacked/addon.node" t.
Proof.
  intros Hw. apply (readFileSync_kinds _ _ _ straight_addon).
  intros r Hr. apply above_two in Hr.
  destruct (kind_write _ _ r _ _ Hw) as [[-> _] | [_ E]]; [|exact E].
  destruct Hr as [H | [H | H]]; discriminate.
Qed.

Lemma out_after_write (n b : string) (t t' : Fs.node) :
  Fs.write ["out"; n] b t = inr t' ->
  kindAt ["out"] t = KDir -> Fs.mkdirp ["out"] t' = inr t'.
Proof.
  intros Hw Hd. apply mkdirp_there_kind.
  destruct (kind_write _ _ ["out"] _ _ Hw) as [[H _] | [_ E]];
    [discriminate | congruence].
Qed.

Lemma app_repeatable :
  repeatable (Reference.codec Sample.app) "app.asar" "out".
Proof.
  intros t r t'. rewrite !app_bulk.
  destruct (Fs.mkdirp ["out"] t) as [c|t1] eqn:Hm.
  { intros [= <- <-]. now rewrite Hm. }
  pose proof (kind_mkdirp_target _ _ _ Hm) as Hd1.
  pose proof (mkdirp_there_kind _ _ Hd1) as Hm1.
  destruct (Fs.readFileSync "app.asar.unpacked/addon.node" t1) as [d|e]
    eqn:Hr.
  2: { intros [= <- <-]. now rewrite Hm1, Hr. }
  destruct (Fs.write ["out"; "addon.node"] d t1) as [c|t2] eqn:Hw1.
  { intros [= <- <-]. now rewrite Hm1, Hr, Hw1. }
  pose proof (out_after_write _ _ _ _ Hw1 Hd1) as Hm2.
  pose proof (addon_read_after_write _ _ _ _ Hw1) as Hr2.
  rewrite Hr in Hr2.
  pose proof (write_same _ _ _ (write_get _ _ _ _ Hw1)) as Hs2.
  destruct (Fs.write ["out"; "main.js"] "console.log(1)" t2) as [c|t3]
    eqn:Hw2.
  { intros [= <- <-]. now rewrite Hm2, Hr2, Hs2, Hw2. }
  intros [= <- <-].
  assert (Hd2 : kindAt ["out"] t2 = KDir).
  { destruct (kind_write _ _ ["out"] _ _ Hw1) as [[H _] | [_ E]];
      [discriminate | congruence]. }
  rewrite (out_after_write _ _ _ _ Hw2 Hd2).
  rewrite (addon_read_after_write _ _ _ _ Hw2), Hr2.
  assert (Hg : Fs.get ["out"; "addon.node"] t3 = Some (Fs.File d)).
  { rewrite (get_write_frame _ _ _ _ _ Hw2);
      [exact (write_get _ _ _ _ Hw1)|].
    intros [x H]. discriminate. }
  rewrite (write_same _ _ _ Hg).
  now rewrite (write_same _ _ _ (write_get _ _ _ _ Hw2)).
Qed.

Lemma app_faithful : faithful (Reference.codec Sample.app) "app.asar".
Proof. intros names header t [= <-] [= <-]. now repeat constructor. Qed.

Lemma app_undisturbed :
  undisturbed (Reference.codec Sample.app) "app.asar" "out".
Proof.
  intros names header f w w' err [= <-] [= <-] Hin Herr Hbulk Hrun.
  assert (Hl : listed (Reference.header Sample.app) f)
    by (pose proof (app_faithful _ _ (fs w) eq_refl eq_refl) as H;
        rewrite Forall_forall in H; now apply H).
  assert (Hdest : exists n, destOf "out" f = ["out"; n])
    by (destruct Hin as [<- | [<- | []]]; now eexists).
  destruct Hdest as [n Hdest].
  assert (Hkeep : forall p,
            p = [] \/ p = ["out"] \/ p = ["app.asar.unpacked"] \/
            p = ["app.asar.unpacked"; "addon.node"] ->
            kindAt p (fs w) <> KNone ->
            kindAt p (fs w') = kindAt p (fs w)).
  { intros p Hp Hsome.
    destruct (step_frame (Reference.codec Sample.app) "app.asar" "out"
                (Reference.header Sample.app) f w w' p Hl Hrun)
      as [H | [(H & _) | (_ & _ & [x H] & _)]].
    - rewrite Hdest. destruct Hp as [-> | [-> | [-> | ->]]]; discriminate.
    - exact H.
    - contradiction.
    - rewrite Hdest in H.
      destruct Hp as [-> | [-> | [-> | ->]]]; discriminate. }
  rewrite app_bulk in Hbulk. rewrite app_bulk.
  assert (Hnot : forall c syscall p,
            Js.includes ".unpacked" p = false ->
            err = Js.sysError c syscall p -> False).
  { intros c syscall p Hp ->. unfold missingUnpacked in Herr.
    cbn [Js.path Js.sysError] in Herr. rewrite Hp in Herr.
    now rewrite !andb_false_r in Herr. }
  destruct (Fs.mkdirp ["out"] (fs w)) as [c|t1] eqn:Hm.
  { exfalso. apply (Hnot c "mkdir" "out" eq_refl). congruence. }
  destruct (Fs.readFileSync "app.asar.unpacked/addon.node" t1) as [d|e]
    eqn:Hr.
  - exfalso. destruct (Fs.write ["out"; "addon.node"] d t1) as [c|t2].
    + apply (Hnot c "open" "out/addon.node" eq_refl). congruence.
    + destruct (Fs.write ["out"; "main.js"] "console.log(1)" t2) as [c|t3];
        [|discriminate].
      apply (Hnot c "open" "out/main.js" eq_refl). congruence.
  - assert (e = err) by congruence. assert (t1 = fs w) by congruence.
    subst e t1.
    pose proof (kind_mkdirp_target _ _ _ Hm) as Hd.
    assert (Hd' : kindAt ["out"] (fs w') = KDir)
      by (rewrite Hkeep; [exact Hd | auto | rewrite Hd; discriminate]).
    rewrite (mkdirp_there_kind _ _ Hd').
    rewrite (readFileSync_kinds _ (fs w) (fs w') straight_addon), Hr;
      [reflexivity|].
    intros r Hr'. apply above_two in Hr'.
    destruct (kindAt r (fs w)) eqn:Hk.
    + (* nothing there: nothing is made there *)
      destruct (step_frame (Reference.codec Sample.app) "app.asar" "out"
                  (Reference.header Sample.app) f w w' r Hl Hrun)
        as [H | [(_ & _ & [x H]) | (_ & _ & [x H] & _)]].
      * rewrite Hdest. destruct Hr' as [-> | [-> | ->]]; discriminate.
      * congruence.
      * rewrite Hdest in H.
        destruct Hr' as [-> | [-> | ->]]; try discriminate.
        unfold kindAt in Hk. simpl in Hk. now destruct (fs w).
      * rewrite Hdest in H.
        destruct Hr' as [-> | [-> | ->]]; discriminate.
    + rewrite <- Hk. apply Hkeep; [tauto | now rewrite Hk].
    + rewrite <- Hk. apply Hkeep; [tauto | now rewrite Hk].
    + rewrite <- Hk. apply Hkeep; [tauto | now rewrite Hk].
Qed.


